(** * GTD-Warrior: the quick-capture parser [parseTaskInput]

    A shallow embedding of [parseTaskInput] (src/contexts/TaskContext.tsx,
    the helpers part) together with the pieces of the JavaScript runtime
    it calls: [String.prototype.match], [replace], [trim], [toLowerCase],
    [toUpperCase], [slice], [parseInt], and the [Date] methods
    [getDate], [setDate] and [toISOString].

    JavaScript strings are sequences of UTF-16 code units; a code unit is
    modelled as an [N] and a string as a list of them.  The regular
    expressions of the source carry no [u] flag, so they work code unit by
    code unit. *)

From Stdlib Require Import List NArith ZArith Bool Lia String Ascii.
Import ListNotations.

(** ** Strings *)

Module JS.
Local Open Scope N_scope.

Definition code_unit := N.
Definition jsstring := list code_unit.

(** A literal of the source, written as a Rocq string. *)
Definition str (s : string) : jsstring :=
  map N_of_ascii (list_ascii_of_string s).
Arguments str s%_string.

Definition in_range (lo hi c : code_unit) : bool :=
  (N.leb lo c) && (N.leb c hi).

(** [\d] *)
Definition isDigit (c : code_unit) : bool := in_range 48 57 c.

(** [\w], which is also the class [\b] looks at.  Without the [u] flag the
    [i] flag adds nothing to it. *)
Definition isWordChar (c : code_unit) : bool :=
  in_range 97 122 c || in_range 65 90 c || isDigit c || N.eqb c 95.

(** [\s], and the characters [trim] removes: WhiteSpace and LineTerminator
    of ECMA-262 (TAB, LF, VT, FF, CR, SP, NBSP, U+1680, U+2000..U+200A,
    U+2028, U+2029, U+202F, U+205F, U+3000, U+FEFF). *)
Definition isWhiteSpace (c : code_unit) : bool :=
  in_range 9 13 c || N.eqb c 32 || N.eqb c 160 || N.eqb c 5760
  || in_range 8192 8202 c || N.eqb c 8232 || N.eqb c 8233
  || N.eqb c 8239 || N.eqb c 8287 || N.eqb c 12288 || N.eqb c 65279.

(** Canonicalize of ECMA-262 for a pattern with [i] and without [u]: a code
    unit is replaced by its upper case unless that would turn a code unit
    from 128 on into an ASCII one.  The patterns of [parseTaskInput] contain
    ASCII characters only, and a code unit from 128 on never canonicalizes
    to an ASCII one, so it is left as it is here. *)
Definition canonicalize (c : code_unit) : code_unit :=
  if in_range 97 122 c then (c - 32)%N else c.

Definition same_ci (c p : code_unit) : bool :=
  N.eqb (canonicalize c) (canonicalize p).

(** [String.prototype.toUpperCase], one code unit at a time.  The source
    applies it to the letter captured by [[HML]] only. *)
Definition toUpperCase (s : jsstring) : jsstring := map canonicalize s.

(** [String.prototype.toLowerCase].  ASCII letters are lowered; U+212A
    (KELVIN SIGN) becomes [k] and U+0130 becomes [i] followed by U+0307, the
    two code units from 128 on whose lower case contains an ASCII letter.
    Every other code unit from 128 on is left as it is: its lower case in
    JavaScript stays outside ASCII, and the source only compares the result
    with ASCII literals and ASCII patterns. *)
Definition lower_unit (c : code_unit) : jsstring :=
  if in_range 65 90 c then [(c + 32)%N]
  else if N.eqb c 8490 then [107%N]
  else if N.eqb c 304 then [105%N; 775%N]
  else [c].

Definition toLowerCase (s : jsstring) : jsstring := flat_map lower_unit s.

Fixpoint takeWhile (p : code_unit -> bool) (s : jsstring) : jsstring :=
  match s with
  | [] => []
  | c :: s' => if p c then c :: takeWhile p s' else []
  end.

Fixpoint dropWhile (p : code_unit -> bool) (s : jsstring) : jsstring :=
  match s with
  | [] => []
  | c :: s' => if p c then dropWhile p s' else s
  end.

Fixpoint eqb (a b : jsstring) : bool :=
  match a, b with
  | [], [] => true
  | x :: a', y :: b' => N.eqb x y && eqb a' b'
  | _, _ => false
  end.

(** [String.prototype.trim] *)
Definition trimStart (s : jsstring) : jsstring := dropWhile isWhiteSpace s.
Definition trimEnd (s : jsstring) : jsstring :=
  rev (dropWhile isWhiteSpace (rev s)).
Definition trim (s : jsstring) : jsstring := trimEnd (trimStart s).

(** [strip_prefix pat s] is what follows [pat] when [s] starts with it. *)
Fixpoint strip_prefix (pat s : jsstring) : option jsstring :=
  match pat with
  | [] => Some s
  | p :: pat' =>
      match s with
      | c :: s' => if N.eqb c p then strip_prefix pat' s' else None
      | [] => None
      end
  end.

(** [s.replace(pat, '')] for a string [pat]: the leftmost occurrence of
    the text [pat] is deleted, wherever the pattern that produced [pat]
    had matched; [s] is returned when [pat] does not occur. *)
Fixpoint replace_first (pat s : jsstring) : jsstring :=
  match strip_prefix pat s with
  | Some rest => rest
  | None =>
      match s with
      | [] => []
      | c :: s' => c :: replace_first pat s'
      end
  end.

(** [s.includes(pat)] *)
Fixpoint includes (pat s : jsstring) : bool :=
  match strip_prefix pat s with
  | Some _ => true
  | None =>
      match s with
      | [] => false
      | _ :: s' => includes pat s'
      end
  end.

(** [s.slice(1)] and [s.slice(1, -1)] *)
Definition slice_1 (s : jsstring) : jsstring := skipn 1%nat s.
Definition slice_1_m1 (s : jsstring) : jsstring :=
  firstn (List.length s - 2)%nat (skipn 1%nat s).

(** [parseInt] on a run of decimal digits.  JavaScript rounds the value to
    a double; the value is used as a number of days only, where every value
    from 2^53 on has the same effect as its rounding (see [Date.setDate]). *)
Definition digit_value (c : code_unit) : Z := Z.of_N c - 48.
Definition parseInt (s : jsstring) : Z :=
  fold_left (fun acc c => (10 * acc + digit_value c)%Z) s 0%Z.

(** [s.replace(/\s+/g, ' ')]: every maximal run of white space becomes one
    space.  [in_run] tells that the previous code unit was white space. *)
Fixpoint collapse_from (in_run : bool) (s : jsstring) : jsstring :=
  match s with
  | [] => []
  | c :: s' =>
      if isWhiteSpace c
      then (if in_run then collapse_from true s'
            else 32%N :: collapse_from true s')
      else c :: collapse_from false s'
  end.
Definition collapse_spaces (s : jsstring) : jsstring := collapse_from false s.

End JS.
Export JS.

(** ** The patterns of [parseTaskInput] *)

Module Pattern.
Local Open Scope N_scope.

(** The result of a match: the matched text (index 0) and the text of the
    one capture group of each pattern (index 1). *)
Record Match := { m0 : jsstring; m1 : jsstring }.

(** A literal under the [i] flag.  Returns the text as it stands in the
    input and what follows it. *)
Fixpoint lit_ci (pat s : jsstring) : option (jsstring * jsstring) :=
  match pat with
  | [] => Some ([], s)
  | p :: pat' =>
      match s with
      | c :: s' =>
          if same_ci c p
          then match lit_ci pat' s' with
               | Some (m, r) => Some (c :: m, r)
               | None => None
               end
          else None
      | [] => None
      end
  end.

Definition isWordAt (o : option code_unit) : bool :=
  match o with
  | Some c => isWordChar c
  | None => false
  end.

(** [\b] between the code unit before the position ([None] at the start)
    and the rest of the input. *)
Definition wordBoundary (prev : option code_unit) (s : jsstring) : bool :=
  xorb (isWordAt prev) (isWordAt (hd_error s)).

(** The first alternative that matches wins. *)
Definition orElse {A} (a b : option A) : option A :=
  match a with
  | Some _ => a
  | None => b
  end.

(** [RegExp.prototype.exec] without the [g] flag: the match at the least
    index where the pattern matches.  [at_ prev s] is the match of the
    pattern at the position that has [prev] before it and [s] from it on;
    the position at the very end of the input is tried too. *)
Fixpoint search {M} (at_ : option code_unit -> jsstring -> option M)
    (prev : option code_unit) (s : jsstring) : option M :=
  match at_ prev s with
  | Some m => Some m
  | None =>
      match s with
      | [] => None
      | c :: s' => search at_ (Some c) s'
      end
  end.

(** [/\b(?:pri:|!)([HML])\b/i] *)
Definition isHML (c : code_unit) : bool :=
  same_ci c 72 || same_ci c 77 || same_ci c 76.

Definition priority_tail (r : option (jsstring * jsstring)) : option Match :=
  match r with
  | Some (pre, c :: rest) =>
      if isHML c && wordBoundary (Some c) rest
      then Some {| m0 := pre ++ [c]; m1 := [c] |}
      else None
  | _ => None
  end.

Definition priority_at (prev : option code_unit) (s : jsstring) : option Match :=
  if wordBoundary prev s
  then orElse (priority_tail (lit_ci (str "pri:") s))
              (priority_tail (lit_ci (str "!") s))
  else None.

Definition priorityMatch (title : jsstring) : option Match :=
  search priority_at None title.

(** [/@(home|work|computer|phone|errands|anywhere)\b/i] *)
Definition context_words : list jsstring :=
  [str "home"; str "work"; str "computer"; str "phone"; str "errands";
   str "anywhere"].

Definition last_unit (m : jsstring) : option code_unit := hd_error (rev m).

(** One alternative of a group, followed by [\b]. *)
Definition word_then_boundary (s w : jsstring) : option (jsstring * jsstring) :=
  match lit_ci w s with
  | Some (m, rest) =>
      if wordBoundary (last_unit m) rest then Some (m, rest) else None
  | None => None
  end.

(** The alternatives of a group, tried from left to right. *)
Fixpoint first_alt {A} (f : jsstring -> option A) (ws : list jsstring) : option A :=
  match ws with
  | [] => None
  | w :: ws' => orElse (f w) (first_alt f ws')
  end.

Definition context_at (_ : option code_unit) (s : jsstring) : option Match :=
  match s with
  | c :: s' =>
      if N.eqb c 64
      then match first_alt (word_then_boundary s') context_words with
           | Some (m, _) => Some {| m0 := c :: m; m1 := m |}
           | None => None
           end
      else None
  | [] => None
  end.

Definition contextMatch (title : jsstring) : option Match :=
  search context_at None title.

(** [/\bpro:(\S+)/i] and [/\bdue:(\S+)/i]: the keyword at a word boundary,
    then the longest run of code units that are not white space, which
    must not be empty. *)
Definition notWhiteSpace (c : code_unit) : bool := negb (isWhiteSpace c).

Definition keyword_at (kw : jsstring) (prev : option code_unit) (s : jsstring)
  : option Match :=
  if wordBoundary prev s
  then match lit_ci kw s with
       | Some (k, rest) =>
           match takeWhile notWhiteSpace rest with
           | [] => None
           | v => Some {| m0 := k ++ v; m1 := v |}
           end
       | None => None
       end
  else None.

Definition projectMatch (title : jsstring) : option Match :=
  search (keyword_at (str "pro:")) None title.

Definition dueMatch (title : jsstring) : option Match :=
  search (keyword_at (str "due:")) None title.

(** [/\+(\w+)/g] through [String.prototype.match]: the texts of all
    matches, from left to right; after a match the search goes on at its
    end.  [skip] counts the code units of the last match still to pass. *)
Definition tag_at (s : jsstring) : option jsstring :=
  match s with
  | c :: s' =>
      if N.eqb c 43
      then match takeWhile isWordChar s' with
           | [] => None
           | w => Some (c :: w)
           end
      else None
  | [] => None
  end.

Fixpoint tag_scan (skip : nat) (s : jsstring) : list jsstring :=
  match s with
  | [] => []
  | _ :: s' =>
      match skip with
      | S k => tag_scan k s'
      | O =>
          match tag_at s with
          | Some t => t :: tag_scan (List.length t - 1)%nat s'
          | None => tag_scan 0%nat s'
          end
      end
  end.

Definition tagMatches (title : jsstring) : list jsstring := tag_scan 0%nat title.

(** [/>(next|wait|waiting|someday|maybe)/i] *)
Definition status_words : list jsstring :=
  [str "next"; str "wait"; str "waiting"; str "someday"; str "maybe"].

Definition status_at (_ : option code_unit) (s : jsstring) : option Match :=
  match s with
  | c :: s' =>
      if N.eqb c 62
      then match first_alt (fun w => lit_ci w s') status_words with
           | Some (m, _) => Some {| m0 := c :: m; m1 := m |}
           | None => None
           end
      else None
  | [] => None
  end.

Definition statusMatch (title : jsstring) : option Match :=
  search status_at None title.

(** [/^\+\d+d$/], applied to the lower-cased value of [due:]. *)
Definition isPlusDays (v : jsstring) : bool :=
  match v with
  | c :: r =>
      N.eqb c 43
      && match takeWhile isDigit r with [] => false | _ => true end
      && JS.eqb (dropWhile isDigit r) (str "d")
  | [] => false
  end.

(** [/^\d{4}-\d{2}-\d{2}$/] *)
Definition isIsoDate (v : jsstring) : bool :=
  match v with
  | [y1; y2; y3; y4; h1; mo1; mo2; h2; d1; d2] =>
      isDigit y1 && isDigit y2 && isDigit y3 && isDigit y4 && N.eqb h1 45
      && isDigit mo1 && isDigit mo2 && N.eqb h2 45 && isDigit d1 && isDigit d2
  | _ => false
  end.

End Pattern.
Export Pattern.

(** ** Dates

    The time value of a [Date] is a number of milliseconds since the epoch,
    or NaN ([None]).  The functions are those of ECMA-262, section "Date
    Objects", over [Z]; [/] and [mod] round down, as [floor] there. *)

Module JSDate.
Local Open Scope Z_scope.

Definition msPerDay : Z := 86400000.
Definition msPerHour : Z := 3600000.
Definition msPerMinute : Z := 60000.
Definition msPerSecond : Z := 1000.

Definition Day (t : Z) : Z := t / msPerDay.
Definition TimeWithinDay (t : Z) : Z := t mod msPerDay.

Definition DaysInYear (y : Z) : Z :=
  if negb (y mod 4 =? 0) then 365
  else if negb (y mod 100 =? 0) then 366
  else if negb (y mod 400 =? 0) then 365
  else 366.

Definition DayFromYear (y : Z) : Z :=
  365 * (y - 1970) + (y - 1969) / 4 - (y - 1901) / 100 + (y - 1601) / 400.

Definition TimeFromYear (y : Z) : Z := msPerDay * DayFromYear y.

(** The largest [y] with [TimeFromYear y <= t] (see [YearFromTime_spec]):
    a first guess from the mean length of a year, off by one at most. *)
Definition YearFromTime (t : Z) : Z :=
  let d := Day t in
  let y := 1970 + (400 * d) / 146097 in
  if DayFromYear (y + 1) <=? d then y + 1
  else if DayFromYear y <=? d then y
  else y - 1.

Definition InLeapYear (t : Z) : Z :=
  if DaysInYear (YearFromTime t) =? 366 then 1 else 0.

Definition DayWithinYear (t : Z) : Z := Day t - DayFromYear (YearFromTime t).

Definition MonthFromTime (t : Z) : Z :=
  let d := DayWithinYear t in
  let l := InLeapYear t in
  if d <? 31 then 0
  else if d <? 59 + l then 1
  else if d <? 90 + l then 2
  else if d <? 120 + l then 3
  else if d <? 151 + l then 4
  else if d <? 181 + l then 5
  else if d <? 212 + l then 6
  else if d <? 243 + l then 7
  else if d <? 273 + l then 8
  else if d <? 304 + l then 9
  else if d <? 334 + l then 10
  else 11.

Definition DateFromTime (t : Z) : Z :=
  let d := DayWithinYear t in
  let l := InLeapYear t in
  match MonthFromTime t with
  | 0 => d + 1
  | 1 => d - 30
  | 2 => d - 58 - l
  | 3 => d - 89 - l
  | 4 => d - 119 - l
  | 5 => d - 150 - l
  | 6 => d - 180 - l
  | 7 => d - 211 - l
  | 8 => d - 242 - l
  | 9 => d - 272 - l
  | 10 => d - 303 - l
  | _ => d - 333 - l
  end.

Definition HourFromTime (t : Z) : Z := (t / msPerHour) mod 24.
Definition MinFromTime (t : Z) : Z := (t / msPerMinute) mod 60.
Definition SecFromTime (t : Z) : Z := (t / msPerSecond) mod 60.
Definition msFromTime (t : Z) : Z := t mod msPerSecond.

(** The day number of the first day of month [m] (0..11) of year [y]. *)
Definition DayOfMonthStart (y m : Z) : Z :=
  let l := if DaysInYear y =? 366 then 1 else 0 in
  DayFromYear y +
  match m with
  | 0 => 0
  | 1 => 31
  | 2 => 59 + l
  | 3 => 90 + l
  | 4 => 120 + l
  | 5 => 151 + l
  | 6 => 181 + l
  | 7 => 212 + l
  | 8 => 243 + l
  | 9 => 273 + l
  | 10 => 304 + l
  | _ => 334 + l
  end.

Definition MakeDay (year month date : Z) : Z :=
  let ym := year + month / 12 in
  let mn := month mod 12 in
  DayOfMonthStart ym mn + date - 1.

Definition MakeDate (day time : Z) : Z := day * msPerDay + time.

Definition TimeClip (time : Z) : option Z :=
  if 8640000000000000 <? Z.abs time then None else Some time.

(** What the parser takes from its surroundings: the time value of
    [new Date()] and the offset of local time, LocalTZA(t, isUTC) of
    ECMA-262, which depends on the time zone of the device. *)
Record Env := { now : Z; LocalTZA : Z -> bool -> Z }.

Definition LocalTime (env : Env) (t : Z) : Z := t + LocalTZA env t true.
Definition UTC (env : Env) (t : Z) : Z := t - LocalTZA env t false.

(** [new Date()] *)
Definition newDate (env : Env) : option Z := Some (now env).

(** [Date.prototype.getDate]: the day of the month in local time. *)
Definition getDate (env : Env) (tv : option Z) : option Z :=
  match tv with
  | Some t => Some (DateFromTime (LocalTime env t))
  | None => None
  end.

(** [Date.prototype.setDate]: the new time value of the object.  A number
    of days that JavaScript has rounded (from 2^53 on) or turned into
    Infinity gives NaN there, as its exact value does here through
    [TimeClip]. *)
Definition setDate (env : Env) (tv : option Z) (date : option Z) : option Z :=
  match tv, date with
  | Some t0, Some dt =>
      let t := LocalTime env t0 in
      let newDate :=
        MakeDate (MakeDay (YearFromTime t) (MonthFromTime t) dt) (TimeWithinDay t) in
      TimeClip (UTC env newDate)
  | _, _ => None
  end.

(** The sum of two numbers, NaN when one of them is. *)
Definition num_add (a b : option Z) : option Z :=
  match a, b with
  | Some x, Some y => Some (x + y)
  | _, _ => None
  end.

End JSDate.
Export JSDate.

(** ** Completions: a call returns a value or throws *)

Inductive JSError := RangeError.

Inductive Completion (A : Type) : Type :=
| Normal (a : A)
| Throw (e : JSError).
Arguments Normal {A} a.
Arguments Throw {A} e.

Definition bind {A B} (c : Completion A) (k : A -> Completion B) : Completion B :=
  match c with
  | Normal a => k a
  | Throw e => Throw e
  end.

Notation "x <- c ;; k" := (bind c (fun x => k))
  (at level 61, c at next level, right associativity).

Module ISO.
Local Open Scope Z_scope.

(** The last [w] decimal digits of [n], most significant first. *)
Fixpoint pad_digits (w : nat) (n : Z) : jsstring :=
  match w with
  | O => []
  | S w' => pad_digits w' (n / 10) ++ [Z.to_N (48 + n mod 10)]
  end.

(** The year of the date-time format: four digits from 0 to 9999, else a
    sign and six digits. *)
Definition year_string (y : Z) : jsstring :=
  if (0 <=? y) && (y <=? 9999) then pad_digits 4 y
  else (if y <? 0 then str "-" else str "+") ++ pad_digits 6 (Z.abs y).

(** [Date.prototype.toISOString]: the UTC fields of the time value as
    YYYY-MM-DDTHH:mm:ss.sssZ; a RangeError when the time value is NaN. *)
Definition toISOString (tv : option Z) : Completion jsstring :=
  match tv with
  | None => Throw RangeError
  | Some t =>
      Normal (year_string (YearFromTime t) ++ str "-"
              ++ pad_digits 2 (MonthFromTime t + 1) ++ str "-"
              ++ pad_digits 2 (DateFromTime t) ++ str "T"
              ++ pad_digits 2 (HourFromTime t) ++ str ":"
              ++ pad_digits 2 (MinFromTime t) ++ str ":"
              ++ pad_digits 2 (SecFromTime t) ++ str "."
              ++ pad_digits 3 (msFromTime t) ++ str "Z")
  end.

(** [s.split('T')[0]]: what stands before the first [T]. *)
Definition before_T (s : jsstring) : jsstring :=
  takeWhile (fun c => negb (N.eqb c 84)) s.

End ISO.
Export ISO.

(** ** The parser *)

Module Parser.

Inductive Priority := high | medium | low.
Inductive TaskStatus := inbox | next | waiting | someday | done.

(** [Context] is a union of six string literals in src/types/task.ts; the
    source builds the value as a string and casts it, so it is kept as the
    string it is. *)
Definition Context := jsstring.

Record ParsedTask := {
  title : jsstring;
  priority : option Priority;
  context : option Context;
  projectName : option jsstring;
  dueDate : option jsstring;
  tags : list jsstring;
  status : option TaskStatus
}.

(** Parse priority: pri:H, pri:M, pri:L or !H, !M, !L *)
Definition parsePriority (title : jsstring) : option Priority * jsstring :=
  match priorityMatch title with
  | Some m =>
      let p := toUpperCase (m1 m) in
      let priority :=
        if JS.eqb p (str "H") then Some high
        else if JS.eqb p (str "M") then Some medium
        else if JS.eqb p (str "L") then Some low
        else None in
      (priority, trim (replace_first (m0 m) title))
  | None => (None, title)
  end.

(** Parse context: @home, @work, @computer, @phone, @errands, @anywhere *)
Definition parseContext (title : jsstring) : option Context * jsstring :=
  match contextMatch title with
  | Some m =>
      (Some (str "@" ++ toLowerCase (m1 m)), trim (replace_first (m0 m) title))
  | None => (None, title)
  end.

(** Parse project: pro:projectname *)
Definition parseProject (title : jsstring) : option jsstring * jsstring :=
  match projectMatch title with
  | Some m => (Some (m1 m), trim (replace_first (m0 m) title))
  | None => (None, title)
  end.

(** [today.toISOString().split('T')[0]] *)
Definition isoDay (today : option Z) : Completion jsstring :=
  s <- toISOString today ;; Normal (before_T s).

(** The value of [due:], already in lower case, against the clock. *)
Definition resolveDue (env : Env) (dueValue : jsstring)
  : Completion (option jsstring) :=
  let today := newDate env in
  if JS.eqb dueValue (str "today") then
    d <- isoDay today ;; Normal (Some d)
  else if JS.eqb dueValue (str "tomorrow") || JS.eqb dueValue (str "tom") then
    let today := setDate env today (num_add (getDate env today) (Some 1%Z)) in
    d <- isoDay today ;; Normal (Some d)
  else if isPlusDays dueValue then
    let days := parseInt (slice_1_m1 dueValue) in
    let today := setDate env today (num_add (getDate env today) (Some days)) in
    d <- isoDay today ;; Normal (Some d)
  else if isIsoDate dueValue then
    Normal (Some dueValue)
  else Normal None.

(** Parse due date: due:today, due:tomorrow, due:YYYY-MM-DD, due:+3d *)
Definition parseDue (env : Env) (title : jsstring)
  : Completion (option jsstring * jsstring) :=
  match dueMatch title with
  | Some m =>
      let dueValue := toLowerCase (m1 m) in
      dueDate <- resolveDue env dueValue ;;
      Normal (dueDate, trim (replace_first (m0 m) title))
  | None => Normal (None, title)
  end.

(** Parse tags: +tag1 +tag2.  The body of the [forEach], then the loop
    over the matches found before it starts. *)
Definition tagStep (acc : list jsstring * jsstring) (tag : jsstring)
  : list jsstring * jsstring :=
  let '(tags, title) := acc in
  (tags ++ [slice_1 tag], trim (replace_first tag title)).

Definition parseTags (title : jsstring) : list jsstring * jsstring :=
  fold_left tagStep (tagMatches title) ([], title).

(** Parse status shortcuts: >next, >wait, >someday *)
Definition parseStatus (title : jsstring) : option TaskStatus * jsstring :=
  match statusMatch title with
  | Some m =>
      let s := toLowerCase (m1 m) in
      let status :=
        if JS.eqb s (str "next") then Some next
        else if JS.eqb s (str "wait") || JS.eqb s (str "waiting") then Some waiting
        else if JS.eqb s (str "someday") || JS.eqb s (str "maybe") then Some someday
        else None in
      (status, trim (replace_first (m0 m) title))
  | None => (None, title)
  end.

(** Clean up extra spaces *)
Definition cleanTitle (title : jsstring) : jsstring :=
  trim (collapse_spaces title).

Definition parseTaskInput (env : Env) (input : jsstring) : Completion ParsedTask :=
  let title := input in
  let '(priority, title) := parsePriority title in
  let '(context, title) := parseContext title in
  let '(projectName, title) := parseProject title in
  r <- parseDue env title ;;
  let '(dueDate, title) := r in
  let '(tags, title) := parseTags title in
  let '(status, title) := parseStatus title in
  let title := cleanTitle title in
  Normal {| title := title;
            priority := priority;
            context := context;
            projectName := projectName;
            dueDate := dueDate;
            tags := tags;
            status := status |}.

End Parser.
Export Parser.


(** ** Views of the pipeline used in the statements below *)

(** The title as the due step receives it: the input after the priority,
    context and project steps. *)
Definition titleAtDue (input : jsstring) : jsstring :=
  snd (parseProject (snd (parseContext (snd (parsePriority input))))).

(** What the steps after the due step make of a title. *)
Definition finishTitle (title : jsstring) : jsstring :=
  cleanTitle (snd (parseStatus (snd (parseTags title)))).

(** The title as the tag step receives it, when the due step returns. *)
Definition titleAtTags (env : Env) (input : jsstring) : Completion jsstring :=
  r <- parseDue env (titleAtDue input) ;; Normal (snd r).


(** The calendar date of [new Date()] in UTC and in local time, as
    YYYY-MM-DD. *)
Definition dateString (t : Z) : jsstring :=
  year_string (YearFromTime t) ++ str "-"
  ++ pad_digits 2 (MonthFromTime t + 1) ++ str "-"
  ++ pad_digits 2 (DateFromTime t).

Definition utcDateString (env : Env) : jsstring := dateString (now env).
Definition localDateString (env : Env) : jsstring :=
  dateString (LocalTime env (now env)).

(** A device on UTC at the epoch, and one five hours west of Greenwich at
    2024-03-10T02:30:00Z, where it is still the evening of March 9th. *)
Definition envEpoch : Env := {| now := 0; LocalTZA := fun _ _ => 0%Z |}.
Definition envWest : Env :=
  {| now := 1710037800000; LocalTZA := fun _ _ => (-18000000)%Z |}.

(** ** White-space normalization, as the specification words it

    The specification says: "runs of whitespace are collapsed to a single
    space and leading/trailing whitespace trimmed".  The words of a string
    are its maximal runs of code units that are not white space;
    normalizing joins them with single spaces.  [cleanTitle] above is the
    code; [cleanTitle_normalize] compares the two. *)

Fixpoint words_acc (w : jsstring) (s : jsstring) : list jsstring :=
  match s with
  | [] => match w with [] => [] | _ => [w] end
  | c :: s' =>
      if isWhiteSpace c
      then match w with
           | [] => words_acc [] s'
           | _ => w :: words_acc [] s'
           end
      else words_acc (w ++ [c]) s'
  end.

Definition words (s : jsstring) : list jsstring := words_acc [] s.

Fixpoint join_words (ws : list jsstring) : jsstring :=
  match ws with
  | [] => []
  | [w] => w
  | w :: ws' => w ++ 32%N :: join_words ws'
  end.

Definition normalize_whitespace (s : jsstring) : jsstring :=
  join_words (words s).

(** No pattern of the parser matches the string. *)
Definition noToken (s : jsstring) : Prop :=
  priorityMatch s = None /\ contextMatch s = None /\ projectMatch s = None
  /\ dueMatch s = None /\ tagMatches s = [] /\ statusMatch s = None.

(** ** Occurrences of [+<word>], as the specification words them

    The specification says: "each match becomes one tag (tag text excludes
    the leading +); all occurrences collected, in left-to-right order".
    An occurrence starts wherever a [+] is followed by a word character
    and runs to the end of that word; [plusWords] lists the occurrences
    from left to right.  [tagMatches] above is the code. *)
Fixpoint plusWords (s : jsstring) : list jsstring :=
  match s with
  | [] => []
  | _ :: s' =>
      match tag_at s with
      | Some t => t :: plusWords s'
      | None => plusWords s'
      end
  end.

Definition startsWord (s : jsstring) : bool :=
  match s with
  | c :: _ => isWordChar c
  | [] => false
  end.

(** A single-valued step deletes one occurrence of the text of its match:
    [after] is what stood before and after it in [before], trimmed. *)
Definition deletesOne (m : Match) (before after : jsstring) : Prop :=
  exists l r, before = l ++ m0 m ++ r /\ after = trim (l ++ r).

(** A pattern is anchored when its match at a position starts there. *)
Definition anchored (at_ : option code_unit -> jsstring -> option Match) : Prop :=
  forall prev s m, at_ prev s = Some m -> exists r, s = m0 m ++ r.

(** A word of a normalized title: not empty, no white space in it. *)
Definition goodWord (w : jsstring) : Prop :=
  w <> [] /\ forallb notWhiteSpace w = true.

(** The priority the source gives to the letter of a match of [[HML]]. *)
Definition priorityOfLetter (c : code_unit) : Priority :=
  if same_ci c 72%N then high else if same_ci c 77%N then medium else low.

(** Projections used to show results. *)
Definition completed {A} (c : Completion A) : option A :=
  match c with
  | Normal a => Some a
  | Throw _ => None
  end.

Definition title_priority (p : ParsedTask) := (title p, priority p).
Definition title_context (p : ParsedTask) := (title p, context p).
Definition title_project (p : ParsedTask) := (title p, projectName p).
Definition title_due (p : ParsedTask) := (title p, dueDate p).
Definition title_status (p : ParsedTask) := (title p, status p).

(** The characters every token starts with or contains: [:], [!], [@],
    [+] and [>]. *)
Definition isMarker (c : code_unit) : bool :=
  N.eqb c 58 || N.eqb c 33 || N.eqb c 64 || N.eqb c 43 || N.eqb c 62.

Definition markerFree (s : jsstring) : bool :=
  forallb (fun c => negb (isMarker c)) s.

(** The code unit before the position reached after passing over [a]. *)
Definition prevAfter (prev : option code_unit) (a : jsstring) : option code_unit :=
  fold_left (fun _ c => Some c) a prev.


(** * Around the parser

    The rest of this part embeds the code that surrounds the parser: the
    date helpers that stand beside it in src/utils/helpers.ts, the task
    store of src/contexts/TaskContext.tsx, the quick-capture field and the
    inbox screen that call the parser, and the screens and the edit form
    that read what the store holds. *)

(** ** More of the Date object *)

Module DateObject.
Local Open Scope Z_scope.

Definition WeekDay (t : Z) : Z := (Day t + 4) mod 7.

Definition MakeTime (hour min sec ms : Z) : Z :=
  hour * msPerHour + min * msPerMinute + sec * msPerSecond + ms.

(** The number of days of month [m] (0..11) of year [y]. *)
Definition DaysInMonth (y m : Z) : Z := MakeDay y (m + 1) 1 - MakeDay y m 1.

(** A time value: at most 8.64e15 milliseconds from the epoch. *)
Definition validTime (t : Z) : bool := Z.abs t <=? 8640000000000000.

Definition and_then {A B} (o : option A) (k : A -> option B) : option B :=
  match o with
  | Some a => k a
  | None => None
  end.

(** *** [Date.parse]

    The Date Time String Format of ECMA-262 in the two forms this program
    writes: the date YYYY-MM-DD, which stands for midnight UTC, and the
    form of [toISOString], YYYY-MM-DDTHH:mm:ss.sssZ; years are four digits,
    or a sign and six digits.  On every other string the standard leaves
    the result to the implementation ([other] below); so it is taken here
    for the shorter forms of the format and for a day that its month does
    not have, on which implementations differ. *)

(** [n] decimal digits at the head of [s]: their value and what follows. *)
Definition digits (n : nat) (s : jsstring) : option (Z * jsstring) :=
  let d := firstn n s in
  if (List.length d =? n)%nat && forallb isDigit d
  then Some (parseInt d, skipn n s)
  else None.

Definition expect (c : code_unit) (s : jsstring) : option jsstring :=
  match s with
  | x :: r => if N.eqb x c then Some r else None
  | [] => None
  end.

(** YYYY, +YYYYYY or -YYYYYY; the year 0 is not written -000000. *)
Definition isoYear (s : jsstring) : option (Z * jsstring) :=
  match s with
  | c :: r =>
      if N.eqb c 43 then digits 6 r
      else if N.eqb c 45 then
        and_then (digits 6 r) (fun '(y, r') =>
        if y =? 0 then None else Some (- y, r'))
      else digits 4 s
  | [] => None
  end.

(** The day number of a date YYYY-MM-DD at the head of [s]. *)
Definition isoDate (s : jsstring) : option (Z * jsstring) :=
  and_then (isoYear s) (fun '(y, r) =>
  and_then (expect 45%N r) (fun r =>
  and_then (digits 2 r) (fun '(m, r) =>
  and_then (expect 45%N r) (fun r =>
  and_then (digits 2 r) (fun '(d, r) =>
  if (1 <=? m) && (m <=? 12) && (1 <=? d) && (d <=? DaysInMonth y (m - 1))
  then Some (MakeDay y (m - 1) d, r)
  else None))))).

(** The time within the day of THH:mm:ss.sssZ, which ends the string. *)
Definition isoTime (s : jsstring) : option Z :=
  and_then (expect 84%N s) (fun r =>
  and_then (digits 2 r) (fun '(h, r) =>
  and_then (expect 58%N r) (fun r =>
  and_then (digits 2 r) (fun '(mi, r) =>
  and_then (expect 58%N r) (fun r =>
  and_then (digits 2 r) (fun '(sec, r) =>
  and_then (expect 46%N r) (fun r =>
  and_then (digits 3 r) (fun '(ms, r) =>
  and_then (expect 90%N r) (fun r =>
  match r with
  | [] =>
      if (h <=? 23) && (mi <=? 59) && (sec <=? 59)
      then Some (MakeTime h mi sec ms)
      else None
  | _ :: _ => None
  end))))))))).

Definition DateParse (other : jsstring -> option Z) (s : jsstring) : option Z :=
  match isoDate s with
  | Some (day, []) => TimeClip (MakeDate day 0)
  | Some (day, r) =>
      match isoTime r with
      | Some time => TimeClip (MakeDate day time)
      | None => other s
      end
  | None => other s
  end.

(** *** [Date.prototype.toDateString] *)

Definition weekday_name (d : Z) : jsstring :=
  match d with
  | 0 => str "Sun"
  | 1 => str "Mon"
  | 2 => str "Tue"
  | 3 => str "Wed"
  | 4 => str "Thu"
  | 5 => str "Fri"
  | _ => str "Sat"
  end.

Definition month_name (m : Z) : jsstring :=
  match m with
  | 0 => str "Jan"
  | 1 => str "Feb"
  | 2 => str "Mar"
  | 3 => str "Apr"
  | 4 => str "May"
  | 5 => str "Jun"
  | 6 => str "Jul"
  | 7 => str "Aug"
  | 8 => str "Sep"
  | 9 => str "Oct"
  | 10 => str "Nov"
  | _ => str "Dec"
  end.

(** The number of decimal digits of [n], counted in at most [fuel + 1]
    steps. *)
Fixpoint decimal_width (fuel : nat) (n : Z) : nat :=
  match fuel with
  | O => 1
  | S fuel' => if n <? 10 then 1 else S (decimal_width fuel' (n / 10))
  end.

(** ToZeroPaddedDecimalString(n, minLength) of ECMA-262, [0 <= n]: the
    decimal digits of [n], with zeros before them up to [minLength]. *)
Definition ToZeroPaddedDecimalString (n : Z) (minLength : nat) : jsstring :=
  pad_digits (Nat.max minLength (decimal_width (Z.to_nat (Z.log2 n)) n)) n.

(** The year of DateString: a minus sign when it is negative, and the
    digits of its absolute value, four at least. *)
Definition year_text (yv : Z) : jsstring :=
  (if yv <? 0 then str "-" else []) ++ ToZeroPaddedDecimalString (Z.abs yv) 4.

(** DateString(tv) of ECMA-262: Www Mmm DD YYYY. *)
Definition DateString (tv : Z) : jsstring :=
  weekday_name (WeekDay tv) ++ str " "
  ++ month_name (MonthFromTime tv) ++ str " "
  ++ ToZeroPaddedDecimalString (DateFromTime tv) 2 ++ str " "
  ++ year_text (YearFromTime tv).

Definition toDateString (env : Env) (tv : option Z) : jsstring :=
  match tv with
  | None => str "Invalid Date"
  | Some t => DateString (LocalTime env t)
  end.

(** *** The host

    What the code around the parser takes from its surroundings besides
    the clock and the time zone: what [Date.parse] makes of a string
    outside the two forms above, the lower-casing of the runtime on every
    string (the parser's [toLowerCase] above is what the parser can
    observe of it), and the texts of [toLocaleDateString], which the
    internationalization library of the device writes. *)

Inductive DateStyle :=
| weekday_long              (* { weekday: 'long' } *)
| month_short_day_numeric.  (* { month: 'short', day: 'numeric' } *)

Record Host := {
  clock : Env;
  parseOther : jsstring -> option Z;
  lowerCase : jsstring -> jsstring;
  toLocaleDateString : option Z -> DateStyle -> jsstring
}.

(** [new Date(s)] for a string [s]. *)
Definition newDateOf (h : Host) (s : jsstring) : option Z :=
  match DateParse (parseOther h) s with
  | Some tv => TimeClip tv
  | None => None
  end.

(** [Date.prototype.setHours] with (0, 0, 0, 0): the new time value. *)
Definition setHours0 (env : Env) (tv : option Z) : option Z :=
  match tv with
  | Some t0 =>
      let t := LocalTime env t0 in
      TimeClip (UTC env (MakeDate (Day t) (MakeTime 0 0 0 0)))
  | None => None
  end.

(** [a < b], [a <= b], [a >= b] and [a === b] on numbers, and on dates
    through their time values: false when one of them is NaN. *)
Definition num_lt (a b : option Z) : bool :=
  match a, b with
  | Some x, Some y => x <? y
  | _, _ => false
  end.

Definition num_le (a b : option Z) : bool :=
  match a, b with
  | Some x, Some y => x <=? y
  | _, _ => false
  end.

Definition num_ge (a b : option Z) : bool := num_le b a.

Definition num_eq (a b : option Z) : bool :=
  match a, b with
  | Some x, Some y => x =? y
  | _, _ => false
  end.

(** [Math.floor((a - b) / k)] for time values [a] and [b] and one of the
    divisors of the source, a minute, an hour or a day.  JavaScript
    computes in doubles; the result is the exact one as long as the
    difference stays below 2^53, as it does between two dates after 1970
    and between any two dates less than 285000 years apart. *)
Definition floor_diff (a b : option Z) (k : Z) : option Z :=
  match a, b with
  | Some x, Some y => Some ((x - y) / k)
  | _, _ => None
  end.

(** [new Date(year, month, date)] for three integers: local midnight of
    the day they name.  A year from 0 to 99 stands for 1900 to 1999. *)
Definition newDateYMD (env : Env) (year month date : Z) : option Z :=
  let yr := if (0 <=? year) && (year <=? 99) then 1900 + year else year in
  TimeClip (UTC env (MakeDate (MakeDay yr month date) (MakeTime 0 0 0 0))).

(** [Date.prototype.getDay], in local time. *)
Definition getDay (env : Env) (tv : option Z) : option Z :=
  match tv with
  | Some t => Some (WeekDay (LocalTime env t))
  | None => None
  end.

(** What [toISOString] writes for a time value (see [toISOString_Some]),
    and the time stamp [new Date().toISOString()]. *)
Definition isoString (t : Z) : jsstring :=
  dateString t ++ str "T"
  ++ pad_digits 2 (HourFromTime t) ++ str ":"
  ++ pad_digits 2 (MinFromTime t) ++ str ":"
  ++ pad_digits 2 (SecFromTime t) ++ str "."
  ++ pad_digits 3 (msFromTime t) ++ str "Z".

End DateObject.
Export DateObject.

(** ** src/utils/helpers.ts, the date helpers *)

Module Helpers.
Local Open Scope Z_scope.

(** A string that is given: neither undefined nor empty. *)
Definition given (s : option jsstring) : option jsstring :=
  match s with
  | Some (c :: s') => Some (c :: s')
  | _ => None
  end.

Definition formatDate (h : Host) (dateString : jsstring) : jsstring :=
  let date := newDateOf h dateString in
  let now := newDate (clock h) in
  let diffDays := floor_diff date now (1000 * 60 * 60 * 24) in
  if num_eq diffDays (Some 0) then str "Today"
  else if num_eq diffDays (Some 1) then str "Tomorrow"
  else if num_eq diffDays (Some (-1)) then str "Yesterday"
  else if num_lt (Some 0) diffDays && num_lt diffDays (Some 7)
  then toLocaleDateString h date weekday_long
  else toLocaleDateString h date month_short_day_numeric.

Definition isOverdue (h : Host) (dateString : option jsstring) : bool :=
  match given dateString with
  | None => false
  | Some s =>
      let date := newDateOf h s in
      let now := newDate (clock h) in
      let now := setHours0 (clock h) now in
      num_lt date now
  end.

Definition isDueToday (h : Host) (dateString : option jsstring) : bool :=
  match given dateString with
  | None => false
  | Some s =>
      let date := newDateOf h s in
      let now := newDate (clock h) in
      JS.eqb (toDateString (clock h) date) (toDateString (clock h) now)
  end.

(** [days] is 3 when the caller gives none. *)
Definition isDueSoon (h : Host) (dateString : option jsstring) (days : Z) : bool :=
  match given dateString with
  | None => false
  | Some s =>
      let date := newDateOf h s in
      let now := newDate (clock h) in
      let diff := floor_diff date now (1000 * 60 * 60 * 24) in
      num_ge diff (Some 0) && num_le diff (Some days)
  end.

(** The decimal digits of a positive integer, as a template literal
    writes it. *)
Definition decimal (n : Z) : jsstring := ToZeroPaddedDecimalString n 1.

(** With a date that is NaN every comparison fails and the last line is
    reached. *)
Definition getRelativeTime (h : Host) (dateString : jsstring) : jsstring :=
  let date := newDateOf h dateString in
  let now := newDate (clock h) in
  let diffMins := floor_diff now date 60000 in
  let diffHours := floor_diff now date 3600000 in
  let diffDays := floor_diff now date 86400000 in
  match diffMins, diffHours, diffDays with
  | Some mins, Some hours, Some days =>
      if mins <? 1 then str "Just now"
      else if mins <? 60 then decimal mins ++ str "m ago"
      else if hours <? 24 then decimal hours ++ str "h ago"
      else if days <? 7 then decimal days ++ str "d ago"
      else formatDate h dateString
  | _, _, _ => formatDate h dateString
  end.

End Helpers.
Export Helpers.

(** ** src/types/task.ts

    An optional field is [None] when it is absent or undefined.  The
    two interfaces share field names, so each record has a module of its
    own: [Task.t] is [Task], [Task.title] its title. *)

Module Task.
Record t := {
  id : jsstring;
  title : jsstring;
  description : option jsstring;
  status : TaskStatus;
  priority : option Priority;
  context : option Context;
  projectId : option jsstring;
  dueDate : option jsstring;
  waitingFor : option jsstring;
  tags : list jsstring;
  createdAt : jsstring;
  completedAt : option jsstring;
  estimatedMinutes : option Z  (* a number; the code only copies it *)
}.
End Task.

Module Project.
Inductive Status := active | completed | on_hold.
Record t := {
  id : jsstring;
  title : jsstring;
  description : option jsstring;
  outcome : option jsstring;
  areaId : option jsstring;
  status : Status;
  dueDate : option jsstring;
  createdAt : jsstring;
  completedAt : option jsstring;
  color : jsstring
}.
End Project.

(** [a === b] on the five statuses. *)
Definition status_eqb (a b : TaskStatus) : bool :=
  match a, b with
  | inbox, inbox | next, next | waiting, waiting
  | someday, someday | done, done => true
  | _, _ => false
  end.

(** [o === s] for an optional string [o] and a string [s]. *)
Definition is_string (o : option jsstring) (s : jsstring) : bool :=
  match o with
  | Some x => JS.eqb x s
  | None => false
  end.

(** ** src/contexts/TaskContext.tsx, the store

    The provider keeps the tasks in a React state and changes them by
    [setTasks(prev => ...)]; each function below is the function of [prev]
    that the source passes to [setTasks].  The copy the store then writes
    to AsyncStorage is not modelled. *)

Module NewTask.
(** Omit<Task, 'id' | 'createdAt' | 'tags'> & { tags?: string[] } *)
Record t := {
  title : jsstring;
  description : option jsstring;
  status : TaskStatus;
  priority : option Priority;
  context : option Context;
  projectId : option jsstring;
  dueDate : option jsstring;
  waitingFor : option jsstring;
  tags : option (list jsstring);
  completedAt : option jsstring;
  estimatedMinutes : option Z
}.
End NewTask.

Module TaskUpdates.
(** Partial<Task>: a key is absent ([None]) or present with a value; the
    value of an optional field may be undefined.  No caller gives a
    required field the value undefined. *)
Record t := {
  id : option jsstring;
  title : option jsstring;
  description : option (option jsstring);
  status : option TaskStatus;
  priority : option (option Priority);
  context : option (option Context);
  projectId : option (option jsstring);
  dueDate : option (option jsstring);
  waitingFor : option (option jsstring);
  tags : option (list jsstring);
  createdAt : option jsstring;
  completedAt : option (option jsstring);
  estimatedMinutes : option (option Z)
}.
End TaskUpdates.

Module Stats.
Record t := {
  inbox : nat;
  next : nat;
  waiting : nat;
  someday : nat;
  done : nat;
  today : nat;
  overdue : nat;
  total : nat
}.
End Stats.

Module TaskContext.

(** [new Date().toISOString()].  The clock shows a time value, so the call
    returns: see [timestamp_returns]. *)
Definition timestamp (env : Env) : jsstring :=
  match toISOString (newDate env) with
  | Normal s => s
  | Throw _ => []
  end.

(** [newId] is what [generateId()] returns at this call: the clock in base
    36 followed by nine random digits. *)
Definition addTask (env : Env) (newId : jsstring) (task : NewTask.t)
    (prev : list Task.t) : Task.t * list Task.t :=
  let newTask :=
    {| Task.id := newId;
       Task.title := NewTask.title task;
       Task.description := NewTask.description task;
       Task.status := NewTask.status task;
       Task.priority := NewTask.priority task;
       Task.context := NewTask.context task;
       Task.projectId := NewTask.projectId task;
       Task.dueDate := NewTask.dueDate task;
       Task.waitingFor := NewTask.waitingFor task;
       Task.tags := match NewTask.tags task with
                    | Some tags => tags
                    | None => []
                    end;
       Task.createdAt := timestamp env;
       Task.completedAt := NewTask.completedAt task;
       Task.estimatedMinutes := NewTask.estimatedMinutes task |} in
  (newTask, prev ++ [newTask]).

(** [{ ...t, ...updates }] *)
Definition over {A} (u : option A) (x : A) : A :=
  match u with
  | Some v => v
  | None => x
  end.

Definition spread (t : Task.t) (updates : TaskUpdates.t) : Task.t :=
  {| Task.id := over (TaskUpdates.id updates) (Task.id t);
     Task.title := over (TaskUpdates.title updates) (Task.title t);
     Task.description := over (TaskUpdates.description updates) (Task.description t);
     Task.status := over (TaskUpdates.status updates) (Task.status t);
     Task.priority := over (TaskUpdates.priority updates) (Task.priority t);
     Task.context := over (TaskUpdates.context updates) (Task.context t);
     Task.projectId := over (TaskUpdates.projectId updates) (Task.projectId t);
     Task.dueDate := over (TaskUpdates.dueDate updates) (Task.dueDate t);
     Task.waitingFor := over (TaskUpdates.waitingFor updates) (Task.waitingFor t);
     Task.tags := over (TaskUpdates.tags updates) (Task.tags t);
     Task.createdAt := over (TaskUpdates.createdAt updates) (Task.createdAt t);
     Task.completedAt := over (TaskUpdates.completedAt updates) (Task.completedAt t);
     Task.estimatedMinutes :=
       over (TaskUpdates.estimatedMinutes updates) (Task.estimatedMinutes t) |}.

Definition updateTask (id : jsstring) (updates : TaskUpdates.t)
    (prev : list Task.t) : list Task.t :=
  map (fun t => if JS.eqb (Task.id t) id then spread t updates else t) prev.

Definition deleteTask (id : jsstring) (prev : list Task.t) : list Task.t :=
  filter (fun t => negb (JS.eqb (Task.id t) id)) prev.

(** [{ ...t, status: 'done', completedAt: new Date().toISOString() }] *)
Definition completeTask (env : Env) (id : jsstring) (prev : list Task.t)
  : list Task.t :=
  map (fun t =>
         if JS.eqb (Task.id t) id
         then {| Task.id := Task.id t;
                 Task.title := Task.title t;
                 Task.description := Task.description t;
                 Task.status := done;
                 Task.priority := Task.priority t;
                 Task.context := Task.context t;
                 Task.projectId := Task.projectId t;
                 Task.dueDate := Task.dueDate t;
                 Task.waitingFor := Task.waitingFor t;
                 Task.tags := Task.tags t;
                 Task.createdAt := Task.createdAt t;
                 Task.completedAt := Some (timestamp env);
                 Task.estimatedMinutes := Task.estimatedMinutes t |}
         else t) prev.

(** [{ ...t, status }] *)
Definition moveTask (id : jsstring) (status : TaskStatus) (prev : list Task.t)
  : list Task.t :=
  map (fun t =>
         if JS.eqb (Task.id t) id
         then {| Task.id := Task.id t;
                 Task.title := Task.title t;
                 Task.description := Task.description t;
                 Task.status := status;
                 Task.priority := Task.priority t;
                 Task.context := Task.context t;
                 Task.projectId := Task.projectId t;
                 Task.dueDate := Task.dueDate t;
                 Task.waitingFor := Task.waitingFor t;
                 Task.tags := Task.tags t;
                 Task.createdAt := Task.createdAt t;
                 Task.completedAt := Task.completedAt t;
                 Task.estimatedMinutes := Task.estimatedMinutes t |}
         else t) prev.

Definition getTasksByStatus (tasks : list Task.t) (status : TaskStatus)
  : list Task.t :=
  filter (fun t => status_eqb (Task.status t) status) tasks.

Definition getTasksByProject (tasks : list Task.t) (projectId : jsstring)
  : list Task.t :=
  filter (fun t => is_string (Task.projectId t) projectId) tasks.

Definition getTasksByContext (tasks : list Task.t) (context : Context)
  : list Task.t :=
  filter (fun t => is_string (Task.context t) context
                   && negb (status_eqb (Task.status t) done)) tasks.

(** The clock is read once for the whole computation. *)
Definition stats (h : Host) (tasks : list Task.t) : Stats.t :=
  let count s :=
    List.length (filter (fun t => status_eqb (Task.status t) s) tasks) in
  {| Stats.inbox := count inbox;
     Stats.next := count next;
     Stats.waiting := count waiting;
     Stats.someday := count someday;
     Stats.done := count done;
     Stats.today :=
       List.length (filter (fun t =>
         match given (Task.dueDate t) with
         | None => false
         | Some s =>
             if status_eqb (Task.status t) done then false
             else
               let due := newDateOf h s in
               let now := newDate (clock h) in
               JS.eqb (toDateString (clock h) due) (toDateString (clock h) now)
         end) tasks);
     Stats.overdue :=
       List.length (filter (fun t =>
         match given (Task.dueDate t) with
         | None => false
         | Some s =>
             if status_eqb (Task.status t) done then false
             else
               let due := newDateOf h s in
               let now := newDate (clock h) in
               let now := setHours0 (clock h) now in
               num_lt due now
         end) tasks);
     Stats.total := List.length tasks |}.

End TaskContext.
Export TaskContext.

(** ** src/components/QuickAddTask.tsx and the inbox screen *)

Module Inbox.

(** [s.replace(/\s+/g, '-')] *)
Fixpoint dashes_from (in_run : bool) (s : jsstring) : jsstring :=
  match s with
  | [] => []
  | c :: s' =>
      if isWhiteSpace c
      then (if in_run then dashes_from true s'
            else 45%N :: dashes_from true s')
      else c :: dashes_from false s'
  end.
Definition dashes (s : jsstring) : jsstring := dashes_from false s.

(** The callback of [projects.find] in [handleAddTask]. *)
Definition projectNamed (h : Host) (projectName : jsstring) (p : Project.t)
  : bool :=
  JS.eqb (lowerCase h (Project.title p)) (lowerCase h projectName)
  || JS.eqb (dashes (lowerCase h (Project.title p))) (lowerCase h projectName).

(** [handleAddTask] of the inbox screen: the tasks after the call, or the
    exception of the parser, which nothing catches. *)
Definition handleAddTask (h : Host) (newId : jsstring)
    (projects : list Project.t) (input : jsstring) (tasks : list Task.t)
  : Completion (list Task.t) :=
  parsed <- parseTaskInput (clock h) input ;;
  let projectId :=
    match given (projectName parsed) with
    | Some name =>
        match find (projectNamed h name) projects with
        | Some project => Some (Project.id project)
        | None => None
        end
    | None => None
    end in
  Normal (snd (addTask (clock h) newId
    {| NewTask.title := title parsed;
       NewTask.description := None;
       NewTask.status := match status parsed with
                         | Some s => s
                         | None => inbox
                         end;
       NewTask.priority := priority parsed;
       NewTask.context := context parsed;
       NewTask.projectId := projectId;
       NewTask.dueDate := dueDate parsed;
       NewTask.waitingFor := None;
       NewTask.tags := Some (tags parsed);
       NewTask.completedAt := None;
       NewTask.estimatedMinutes := None |} tasks)).

(** [handleSubmit] of the quick-capture field with [handleAddTask] as its
    [onAdd]: the text left in the field and the tasks after the call. *)
Definition handleSubmit (h : Host) (newId : jsstring)
    (projects : list Project.t) (text : jsstring) (tasks : list Task.t)
  : Completion (jsstring * list Task.t) :=
  match trim text with
  | [] => Normal (text, tasks)
  | _ :: _ =>
      tasks' <- handleAddTask h newId projects (trim text) tasks ;;
      Normal ([], tasks')
  end.

End Inbox.
Export Inbox.

(** ** The screens that read the store *)

(** [handleComplete] of the tasks, planner and calendar screens. *)
Definition handleComplete (env : Env) (task : Task.t) (prev : list Task.t)
  : list Task.t :=
  if status_eqb (Task.status task) done
  then moveTask (Task.id task) next prev
  else completeTask env (Task.id task) prev.

Module Review.
Local Open Scope Z_scope.

(** [new Date(now.getTime() - 7 * 24 * 60 * 60 * 1000)] *)
Definition weekAgo (env : Env) : option Z :=
  match newDate env with
  | Some now => TimeClip (now - 7 * 24 * 60 * 60 * 1000)
  | None => None
  end.

Definition completedThisWeek (h : Host) (tasks : list Task.t) : nat :=
  List.length (filter (fun t =>
    match given (Task.completedAt t) with
    | Some s => num_ge (newDateOf h s) (weekAgo (clock h))
    | None => false
    end) tasks).

Definition addedThisWeek (h : Host) (tasks : list Task.t) : nat :=
  List.length (filter (fun t =>
    num_ge (newDateOf h (Task.createdAt t)) (weekAgo (clock h))) tasks).

End Review.

Module Planner.

Definition isSameDay (env : Env) (date1 date2 : option Z) : bool :=
  JS.eqb (toDateString env date1) (toDateString env date2).

Definition isToday (env : Env) (date : option Z) : bool :=
  isSameDay env date (newDate env).

Definition todayTasks (h : Host) (tasks : list Task.t) (selectedDate : option Z)
  : list Task.t :=
  filter (fun task =>
    if status_eqb (Task.status task) done then false
    else match given (Task.dueDate task) with
         | None => false
         | Some s => isSameDay (clock h) (newDateOf h s) selectedDate
         end) tasks.

Definition completedTodayTasks (h : Host) (tasks : list Task.t)
    (selectedDate : option Z) : list Task.t :=
  filter (fun task =>
    if negb (status_eqb (Task.status task) done) then false
    else match given (Task.completedAt task) with
         | None => false
         | Some s => isSameDay (clock h) (newDateOf h s) selectedDate
         end) tasks.

Definition overdueTasks (h : Host) (tasks : list Task.t)
    (selectedDate : option Z) : list Task.t :=
  if negb (isToday (clock h) selectedDate) then []
  else filter (fun task =>
    if status_eqb (Task.status task) done then false
    else match given (Task.dueDate task) with
         | None => false
         | Some s =>
             let dueDate := newDateOf h s in
             let today := newDate (clock h) in
             let today := setHours0 (clock h) today in
             num_lt dueDate today
         end) tasks.

End Planner.

Module Calendar.

Definition getTasksForDate (h : Host) (date : option Z) (tasks : list Task.t)
    (completed : bool) : list Task.t :=
  filter (fun task =>
    if completed then
      if negb (status_eqb (Task.status task) done) then false
      else match given (Task.completedAt task) with
           | None => false
           | Some s =>
               let completedDate := newDateOf h s in
               JS.eqb (toDateString (clock h) completedDate)
                      (toDateString (clock h) date)
           end
    else
      if status_eqb (Task.status task) done then false
      else match given (Task.dueDate task) with
           | None => false
           | Some s =>
               let dueDate := newDateOf h s in
               JS.eqb (toDateString (clock h) dueDate)
                      (toDateString (clock h) date)
           end) tasks.

Record CalendarDay := {
  date : option Z;
  isCurrentMonth : bool;
  isToday : bool;
  tasks : list Task.t;
  completedTasks : list Task.t
}.

(** The values of the counter of [for (let i = n - 1; i >= 0; i--)] and of
    [for (let i = 1; i <= n; i++)], none when [n] is NaN. *)
Definition downFrom (n : option Z) : list Z :=
  match n with
  | Some n => rev (map Z.of_nat (seq 0 (Z.to_nat n)))
  | None => []
  end.

Definition upTo (n : option Z) : list Z :=
  match n with
  | Some n => map Z.of_nat (seq 1 (Z.to_nat n))
  | None => []
  end.

(** [year] and [month] are integers: the screen passes [getFullYear] and
    [getMonth] of the month it shows. *)
Definition getCalendarDays (h : Host) (year month : Z) (tasks : list Task.t)
  : list CalendarDay :=
  let env := clock h in
  let firstDay := newDateYMD env year month 1 in
  let lastDay := newDateYMD env year (month + 1) 0 in
  let startPadding := getDay env firstDay in
  let today := newDate env in
  let days :=
    map (fun i =>
           let date := newDateYMD env year month (- i) in
           {| date := date;
              isCurrentMonth := false;
              isToday := false;
              tasks := getTasksForDate h date tasks false;
              completedTasks := getTasksForDate h date tasks true |})
        (downFrom startPadding) in
  let days :=
    days ++
    map (fun day =>
           let date := newDateYMD env year month day in
           let isToday :=
             JS.eqb (toDateString env date) (toDateString env today) in
           {| date := date;
              isCurrentMonth := true;
              isToday := isToday;
              tasks := getTasksForDate h date tasks false;
              completedTasks := getTasksForDate h date tasks true |})
        (upTo (getDate env lastDay)) in
  let remainingDays := (42 - Z.of_nat (List.length days))%Z in
  days ++
  map (fun i =>
         let date := newDateYMD env year (month + 1) i in
         {| date := date;
            isCurrentMonth := false;
            isToday := false;
            tasks := getTasksForDate h date tasks false;
            completedTasks := getTasksForDate h date tasks true |})
      (upTo (Some remainingDays)).

End Calendar.

Module TasksScreen.
Local Open Scope Z_scope.

(** [priorityOrder[a.priority] ?? 3] *)
Definition priorityOrder (p : option Priority) : Z :=
  match p with
  | Some high => 0
  | Some medium => 1
  | Some low => 2
  | None => 3
  end.

(** The comparator of the sort. *)
Definition compare (a b : Task.t) : Z :=
  let aPriority := priorityOrder (Task.priority a) in
  let bPriority := priorityOrder (Task.priority b) in
  aPriority - bPriority.

(** [Array.prototype.sort] with this comparator.  The standard leaves the
    method of sorting open, and asks that the sort is stable; since the
    comparator orders the tasks by a number, there is one sorted
    arrangement that keeps the tasks of equal rank in their order.  It is
    computed here by insertion: a task goes before the first one that it
    does not come after. *)
Fixpoint insert (a : Task.t) (l : list Task.t) : list Task.t :=
  match l with
  | [] => [a]
  | b :: l' => if compare a b <=? 0 then a :: l else b :: insert a l'
  end.

Definition sort (l : list Task.t) : list Task.t := fold_right insert [] l.

Definition filteredTasks (tasks : list Task.t) (activeFilter : TaskStatus)
    (contextFilter : option Context) : list Task.t :=
  let filtered :=
    filter (fun t => status_eqb (Task.status t) activeFilter) tasks in
  let filtered :=
    match given contextFilter with
    | Some c => filter (fun t => is_string (Task.context t) c) filtered
    | None => filtered
    end in
  sort filtered.

(** The tasks of a list that have a given priority, or none. *)
Definition withPriority (p : option Priority) (l : list Task.t) : list Task.t :=
  filter (fun t => priorityOrder (Task.priority t) =? priorityOrder p) l.

End TasksScreen.

(** ** src/components/EditTaskModal.tsx *)

Module EditTaskModal.

(** [s.split(sep)] for a separator of one code unit. *)
Fixpoint split (sep : code_unit) (s : jsstring) : list jsstring :=
  match s with
  | [] => [[]]
  | c :: s' =>
      if N.eqb c sep then [] :: split sep s'
      else match split sep s' with
           | w :: ws => (c :: w) :: ws
           | [] => [[c]]
           end
  end.

(** [l.join(sep)] *)
Fixpoint join (sep : jsstring) (l : list jsstring) : jsstring :=
  match l with
  | [] => []
  | [w] => w
  | w :: l' => w ++ sep ++ join sep l'
  end.

(** The fields of the form. *)
Record Form := {
  title : jsstring;
  description : jsstring;
  priority : option Priority;
  context : option Context;
  projectId : option jsstring;
  dueDate : jsstring;
  waitingFor : jsstring;
  tags : jsstring
}.

(** The effect that fills the form when a task is opened. *)
Definition load (task : Task.t) : Form :=
  {| title := Task.title task;
     description := match given (Task.description task) with
                    | Some d => d
                    | None => []
                    end;
     priority := Task.priority task;
     context := Task.context task;
     projectId := Task.projectId task;
     dueDate := match given (Task.dueDate task) with
                | Some d => before_T d
                | None => []
                end;
     waitingFor := match given (Task.waitingFor task) with
                   | Some w => w
                   | None => []
                   end;
     tags := join (str ", ") (Task.tags task) |}.

(** [tags.split(',').map(t => t.trim()).filter(Boolean)] *)
Definition readTags (tags : jsstring) : list jsstring :=
  filter (fun t => match t with [] => false | _ :: _ => true end)
         (map trim (split 44%N tags)).

(** [handleSave]: the updates handed to [onSave], or the exception of
    [toISOString]. *)
Definition handleSave (h : Host) (f : Form) : Completion TaskUpdates.t :=
  due <- match dueDate f with
         | [] => Normal None
         | _ :: _ => s <- toISOString (newDateOf h (dueDate f)) ;; Normal (Some s)
         end ;;
  Normal
    {| TaskUpdates.id := None;
       TaskUpdates.title := Some (trim (title f));
       TaskUpdates.description := Some (given (Some (trim (description f))));
       TaskUpdates.status := None;
       TaskUpdates.priority := Some (priority f);
       TaskUpdates.context := Some (context f);
       TaskUpdates.projectId := Some (projectId f);
       TaskUpdates.dueDate := Some due;
       TaskUpdates.waitingFor := Some (given (Some (trim (waitingFor f))));
       TaskUpdates.tags := Some (readTags (tags f));
       TaskUpdates.createdAt := None;
       TaskUpdates.completedAt := None;
       TaskUpdates.estimatedMinutes := None |}.

(** [handleSave] with the [handleSaveEdit] of a screen as [onSave], for
    the task that is selected. *)
Definition saveEdit (h : Host) (selectedTask : Task.t) (f : Form)
    (prev : list Task.t) : Completion (list Task.t) :=
  updates <- handleSave h f ;;
  Normal (updateTask (Task.id selectedTask) updates prev).

End EditTaskModal.

(** ** Hosts and data for the examples *)

(** A host on a given clock that reads no date besides the two forms of
    [DateParse], lower-cases as [toLowerCase] does and has no texts for
    [toLocaleDateString]. *)
Definition hostOf (env : Env) : Host :=
  {| clock := env;
     parseOther := fun _ => None;
     lowerCase := toLowerCase;
     toLocaleDateString := fun _ _ => [] |}.

(** 2024-03-10T17:00:00Z on a device on UTC, and on one five hours west
    of Greenwich, where it is noon of the same day. *)
Definition envNoonUTC : Env :=
  {| now := 1710090000000; LocalTZA := fun _ _ => 0%Z |}.
Definition envNoonWest : Env :=
  {| now := 1710090000000; LocalTZA := fun _ _ => (-18000000)%Z |}.

(** Three tasks for the examples: one in the inbox, one waiting, one a
    next action. *)
Definition plainTask (id title : jsstring) (status : TaskStatus) : Task.t :=
  {| Task.id := id;
     Task.title := title;
     Task.description := None;
     Task.status := status;
     Task.priority := None;
     Task.context := None;
     Task.projectId := None;
     Task.dueDate := None;
     Task.waitingFor := None;
     Task.tags := [];
     Task.createdAt := str "2024-03-01T08:00:00.000Z";
     Task.completedAt := None;
     Task.estimatedMinutes := None |}.

Definition someTasks : list Task.t :=
  [ plainTask (str "a1") (str "buy milk") inbox;
    plainTask (str "b2") (str "answer Ann") waiting;
    plainTask (str "c3") (str "file taxes") next ].

(** A tag that the edit form gives back as it is: not empty, no white
    space at its ends, no comma in it. *)
Definition plainTag (t : jsstring) : bool :=
  match t with [] => false | _ :: _ => true end
  && JS.eqb (trim t) t
  && forallb (fun c => negb (N.eqb c 44)) t.

(** A task with a due date and two tags, and a project. *)
Definition datedTask : Task.t :=
  {| Task.id := str "e5";
     Task.title := str "email boss";
     Task.description := None;
     Task.status := waiting;
     Task.priority := Some high;
     Task.context := Some (str "@work");
     Task.projectId := None;
     Task.dueDate := Some (str "2024-03-10");
     Task.waitingFor := None;
     Task.tags := [str "urgent"; str "followup"];
     Task.createdAt := str "2024-03-01T08:00:00.000Z";
     Task.completedAt := None;
     Task.estimatedMinutes := None |}.

Definition someProject : Project.t :=
  {| Project.id := str "p1";
     Project.title := str "Vacation";
     Project.description := None;
     Project.outcome := None;
     Project.areaId := None;
     Project.status := Project.active;
     Project.dueDate := None;
     Project.createdAt := str "2024-03-01T08:00:00.000Z";
     Project.completedAt := None;
     Project.color := str "#3B82F6" |}.

(** What the inbox makes of "email boss +urgent +followup >wait" at the
    clock of [envNoonUTC], with the id d4. *)
Definition capturedTask : Task.t :=
  {| Task.id := str "d4";
     Task.title := str "email boss";
     Task.description := None;
     Task.status := waiting;
     Task.priority := None;
     Task.context := None;
     Task.projectId := None;
     Task.dueDate := None;
     Task.waitingFor := None;
     Task.tags := [str "urgent"; str "followup"];
     Task.createdAt := str "2024-03-10T17:00:00.000Z";
     Task.completedAt := None;
     Task.estimatedMinutes := None |}.

(** What the inbox makes of "book flights pro:vacation" at the clock of
    [envNoonUTC], with the id d4 and the project [someProject]. *)
Definition flightsTask : Task.t :=
  {| Task.id := str "d4";
     Task.title := str "book flights";
     Task.description := None;
     Task.status := inbox;
     Task.priority := None;
     Task.context := None;
     Task.projectId := Some (str "p1");
     Task.dueDate := None;
     Task.waitingFor := None;
     Task.tags := [];
     Task.createdAt := str "2024-03-10T17:00:00.000Z";
     Task.completedAt := None;
     Task.estimatedMinutes := None |}.

(** ** Inputs written as words and tokens, as the specification has them

    The definitions of this part follow the specification, not the source.
    Its token table lists the tokens [pri:H], [@home], [pro:<token>],
    [due:<value>], [+tag] and [>next]; an input is read here as words
    separated by white space, each of them plain text or one such token
    ([readItems]), and the result is what the specification says of the
    tokens ([itemsResult]): every field from the first token of its kind,
    "a second occurrence of the same kind is left as literal text", all
    tags collected, and the title "the remaining free text",
    "whitespace-normalized".  None of the patterns of [parseTaskInput] is
    used; the theorems on such inputs compare the two.

    The tokens are taken with their keyword in lower case.  [!H] and
    [>waiting] are not among them. *)

Inductive Kind := KPriority | KContext | KProject | KDue | KTag | KStatus.

Definition Kind_eqb (a b : Kind) : bool :=
  match a, b with
  | KPriority, KPriority | KContext, KContext | KProject, KProject
  | KDue, KDue | KTag, KTag | KStatus, KStatus => true
  | _, _ => false
  end.

Definition kinds : list Kind :=
  [KPriority; KContext; KProject; KDue; KTag; KStatus].

(** What a token of each kind starts with, as the table writes it. *)
Definition lead (k : Kind) : jsstring :=
  match k with
  | KPriority => str "pri:"
  | KContext => str "@"
  | KProject => str "pro:"
  | KDue => str "due:"
  | KTag => str "+"
  | KStatus => str ">"
  end.

(** A word of the input: plain text, or a token with its value. *)
Inductive Item :=
| Plain (w : jsstring)
| Token (k : Kind) (v : jsstring).

Definition itemText (i : Item) : jsstring :=
  match i with
  | Plain w => w
  | Token k v => lead k ++ v
  end.

(** A code unit of plain text: no white space and none of [:], [!], [@],
    [+] and [>]. *)
Definition plainChar (c : code_unit) : bool :=
  negb (isWhiteSpace c) && negb (isMarker c).

(** A code unit of the value of [pro:] or [due:]: no white space and none
    of [:], [!] and [@]; [+] and [>] may stand in it, as in [due:+3d]. *)
Definition looseChar (c : code_unit) : bool :=
  negb (isWhiteSpace c) && negb (N.eqb c 58 || N.eqb c 33 || N.eqb c 64).

Definition nonEmpty (s : jsstring) : bool :=
  match s with
  | [] => false
  | _ :: _ => true
  end.

Definition plainWord (w : jsstring) : bool := nonEmpty w && forallb plainChar w.
Definition looseWord (w : jsstring) : bool := nonEmpty w && forallb looseChar w.

Definition oneOf (ws : list jsstring) (v : jsstring) : bool :=
  existsb (JS.eqb v) ws.

(** The status words that are read whole (see [status_words]: of
    [>waiting] the pattern takes [>wait] only). *)
Definition whole_status_words : list jsstring :=
  [str "next"; str "wait"; str "someday"; str "maybe"].

(** The values a token of each kind may carry: one of the letters H, M, L
    in either case; one of the six context words; a value of [pro:] or
    [due:], not empty; one word character or more; one of the four status
    words. *)
Definition wellFormedValue (k : Kind) (v : jsstring) : bool :=
  match k with
  | KPriority => match v with [c] => isHML c | _ => false end
  | KContext => oneOf context_words v
  | KProject | KDue => looseWord v
  | KTag => nonEmpty v && forallb isWordChar v
  | KStatus => oneOf whole_status_words v
  end.

Definition wellFormed (i : Item) : bool :=
  match i with
  | Plain w => plainWord w
  | Token k v => wellFormedValue k v
  end.

(** The value of the item holds no [+] and no [>] (the values of the
    priority, context, tag and status tokens never do). *)
Definition settled (i : Item) : bool :=
  match i with
  | Plain _ => true
  | Token _ v => forallb plainChar v
  end.

Definition ofKind (k : Kind) (i : Item) : bool :=
  match i with
  | Plain _ => false
  | Token k' _ => Kind_eqb k k'
  end.

(** The value of the first token of a kind, the items without that token,
    the values of all tokens of a kind, and the items without them. *)
Fixpoint firstOf (k : Kind) (its : list Item) : option jsstring :=
  match its with
  | [] => None
  | Plain _ :: r => firstOf k r
  | Token k' v :: r => if Kind_eqb k k' then Some v else firstOf k r
  end.

Fixpoint dropFirst (k : Kind) (its : list Item) : list Item :=
  match its with
  | [] => []
  | i :: r => if ofKind k i then r else i :: dropFirst k r
  end.

Fixpoint allOf (k : Kind) (its : list Item) : list jsstring :=
  match its with
  | [] => []
  | Plain _ :: r => allOf k r
  | Token k' v :: r => if Kind_eqb k k' then v :: allOf k r else allOf k r
  end.

Definition dropAll (k : Kind) (its : list Item) : list Item :=
  filter (fun i => negb (ofKind k i)) its.

(** The items that are no field: the plain words, and every token of a
    single-valued kind after the first of its kind. *)
Definition leftover (its : list Item) : list Item :=
  dropFirst KStatus
    (dropAll KTag
       (dropFirst KDue
          (dropFirst KProject (dropFirst KContext (dropFirst KPriority its))))).

(** One word of the input as an item. *)
Fixpoint classifyAs (ks : list Kind) (w : jsstring) : option Item :=
  match ks with
  | [] => None
  | k :: ks' =>
      match strip_prefix (lead k) w with
      | Some v => if wellFormedValue k v then Some (Token k v) else None
      | None => classifyAs ks' w
      end
  end.

Definition classify (w : jsstring) : option Item :=
  if plainWord w then Some (Plain w) else classifyAs kinds w.

Fixpoint classifyAll (ws : list jsstring) : option (list Item) :=
  match ws with
  | [] => Some []
  | w :: ws' =>
      match classify w, classifyAll ws' with
      | Some i, Some r => Some (i :: r)
      | _, _ => None
      end
  end.

(** The input as a list of items: every word of the input is a plain
    word or a well-formed token, and but for the first [pro:] and the first
    [due:] token every item is settled, so that a [pro:] or [due:] token
    after the first of its kind holds no [+] and no [>].  [None] when the
    input does not read that way. *)
Definition readItems (input : jsstring) : option (list Item) :=
  match classifyAll (words input) with
  | Some its =>
      if forallb settled (dropFirst KDue (dropFirst KProject its))
      then Some its else None
  | None => None
  end.

(** The resolution rules of the table, with the comparisons the source
    makes: H, M, L in either case give high, medium, low; next gives next,
    wait and waiting give waiting, someday and maybe give someday. *)
Definition priorityOfValue (v : jsstring) : option Priority :=
  let p := toUpperCase v in
  if JS.eqb p (str "H") then Some high
  else if JS.eqb p (str "M") then Some medium
  else if JS.eqb p (str "L") then Some low
  else None.

Definition statusOfValue (v : jsstring) : option TaskStatus :=
  let s := toLowerCase v in
  if JS.eqb s (str "next") then Some next
  else if JS.eqb s (str "wait") || JS.eqb s (str "waiting") then Some waiting
  else if JS.eqb s (str "someday") || JS.eqb s (str "maybe") then Some someday
  else None.

(** The value of the first [due:] token against the clock, by the date
    resolver. *)
Definition dueOfItems (env : Env) (its : list Item)
  : Completion (option jsstring) :=
  match firstOf KDue its with
  | Some v => resolveDue env (toLowerCase v)
  | None => Normal None
  end.

(** What the items say: every field from the first token of its kind, the
    tags from all tag tokens, and the title from the items left over,
    joined by single spaces. *)
Definition itemsResult (env : Env) (its : list Item) : Completion ParsedTask :=
  d <- dueOfItems env its ;;
  Normal {| title := join_words (map itemText (leftover its));
            priority := match firstOf KPriority its with
                        | Some v => priorityOfValue v
                        | None => None
                        end;
            context := option_map (fun v => str "@" ++ toLowerCase v)
                         (firstOf KContext its);
            projectName := firstOf KProject its;
            dueDate := d;
            tags := allOf KTag its;
            status := match firstOf KStatus its with
                      | Some v => statusOfValue v
                      | None => None
                      end |}.



(** *** The layout of such an input, for the proofs *)

(** The input laid out: every item with the white space before it, and
    the white space at the end. *)
Definition Layout := list (jsstring * Item).

Fixpoint render (l : Layout) (e : jsstring) : jsstring :=
  match l with
  | [] => e
  | (g, i) :: l' => g ++ itemText i ++ render l' e
  end.

Definition items (l : Layout) : list Item := map snd l.

Definition isGap (g : jsstring) : bool := forallb isWhiteSpace g.

(** White space, not empty but before the first item, separates the
    items. *)
Fixpoint gapsOK (first : bool) (l : Layout) : bool :=
  match l with
  | [] => true
  | (g, _) :: l' => (first || nonEmpty g) && isGap g && gapsOK false l'
  end.

(** The end of the input or white space comes next. *)
Definition atGap (s : jsstring) : bool :=
  match s with
  | [] => true
  | c :: _ => isWhiteSpace c
  end.

(** The literal [pat] opens nowhere in the stretch [a] that [s] follows. *)
Definition closed (pat a s : jsstring) : Prop :=
  forall l0 l, a = l0 ++ l -> l <> [] -> lit_ci pat (l ++ s) = None.

(** The literals the patterns start with. *)
Definition openers : list jsstring :=
  [str "pri:"; str "!"; str "@"; str "pro:"; str "due:"; str "+"; str ">"].

(** The openers that must stay closed in an item while it is in the
    title: all of them in a settled item, the first five in any. *)
Definition early_openers : list jsstring :=
  [str "pri:"; str "!"; str "@"; str "pro:"; str "due:"].

(** The code units of a stretch where [pat] cannot open: no white space,
    and none of the markers [pat] holds. *)
Definition avoiding (pat : jsstring) (c : code_unit) : Prop :=
  isWhiteSpace c = false
  /\ forall p, In p pat -> isMarker p = true -> c <> p.

(** A layout of well-formed items. *)
Definition laidOut (l : Layout) (e : jsstring) : Prop :=
  gapsOK true l = true /\ isGap e = true
  /\ forall i, In i (items l) -> wellFormed i = true.
(** ** Facts about the string functions *)

Section StringFacts.

Lemma eqb_eq (a b : jsstring) : JS.eqb a b = true <-> a = b.
Proof.
  revert b; induction a as [|x a IH]; intros [|y b]; simpl; split;
    try congruence; try reflexivity.
  - intros H. apply andb_true_iff in H as [H1 H2].
    apply N.eqb_eq in H1. apply IH in H2. congruence.
  - intros H. injection H as -> ->. rewrite N.eqb_refl. simpl. now apply IH.
Qed.

Lemma strip_prefix_Some (pat s r : jsstring) :
  strip_prefix pat s = Some r -> s = pat ++ r.
Proof.
  revert s; induction pat as [|p pat IH]; intros s H; simpl in *.
  - congruence.
  - destruct s as [|c s]; [discriminate|].
    destruct (N.eqb_spec c p); [|discriminate].
    subst. f_equal. now apply IH.
Qed.

Lemma strip_prefix_app (pat r : jsstring) : strip_prefix pat (pat ++ r) = Some r.
Proof.
  induction pat as [|p pat IH]; simpl; [reflexivity|].
  now rewrite N.eqb_refl.
Qed.

Lemma includes_app (pat l r : jsstring) : includes pat (l ++ pat ++ r) = true.
Proof.
  induction l as [|c l IH]; simpl.
  - destruct pat as [|p pat]; [destruct r; reflexivity|].
    simpl. rewrite N.eqb_refl, strip_prefix_app. reflexivity.
  - destruct (strip_prefix pat (c :: l ++ pat ++ r)); [reflexivity|exact IH].
Qed.

(** [replace] deletes one occurrence of the text, and nothing else. *)
Lemma replace_first_split (pat s : jsstring) :
  includes pat s = true ->
  exists l r, s = l ++ pat ++ r /\ replace_first pat s = l ++ r.
Proof.
  induction s as [|c s IH]; intros H.
  - simpl in H. destruct (strip_prefix pat []) as [rest|] eqn:E; [|discriminate].
    apply strip_prefix_Some in E. exists [], rest. simpl.
    split; [exact E|]. destruct pat; simpl in *; [congruence|discriminate].
  - cbn [includes replace_first] in *.
    destruct (strip_prefix pat (c :: s)) as [rest|] eqn:E.
    + apply strip_prefix_Some in E. now exists [], rest.
    + destruct (IH H) as (l & r & -> & Hr).
      exists (c :: l), r. simpl. now rewrite Hr.
Qed.

End StringFacts.

(** ** Facts about the patterns: a match is a piece of the title *)

Section PatternFacts.

Lemma takeWhile_dropWhile (p : code_unit -> bool) (s : jsstring) :
  s = takeWhile p s ++ dropWhile p s.
Proof.
  induction s as [|c s IH]; simpl; [reflexivity|].
  destruct (p c); simpl; [now f_equal|reflexivity].
Qed.

Lemma lit_ci_split (pat s m r : jsstring) :
  lit_ci pat s = Some (m, r) -> s = m ++ r.
Proof.
  revert s m; induction pat as [|p pat IH]; intros s m H; simpl in H.
  - now injection H as <- <-.
  - destruct s as [|c s]; [discriminate|].
    destruct (same_ci c p); [|discriminate].
    destruct (lit_ci pat s) as [[m' r']|] eqn:E; [|discriminate].
    injection H as <- <-. simpl. f_equal. now apply IH.
Qed.

Lemma search_occurs at_ :
  anchored at_ ->
  forall s prev m, search at_ prev s = Some m ->
  exists l r, s = l ++ m0 m ++ r.
Proof.
  intros Ha s; induction s as [|c s IH]; intros prev m H; simpl in H.
  - destruct (at_ prev []) eqn:E; [|discriminate].
    injection H as ->. destruct (Ha _ _ _ E) as [r Hr]. now exists [], r.
  - destruct (at_ prev (c :: s)) eqn:E.
    + injection H as ->. destruct (Ha _ _ _ E) as [r Hr]. now exists [], r.
    + destruct (IH _ _ H) as (l & r & ->). now exists (c :: l), r.
Qed.

Lemma first_alt_some {A} (f : jsstring -> option A) ws a :
  first_alt f ws = Some a -> exists w, In w ws /\ f w = Some a.
Proof.
  induction ws as [|w ws IH]; simpl; [discriminate|].
  destruct (f w) eqn:E; simpl.
  - intros H. injection H as ->. eauto.
  - intros H. destruct (IH H) as (w' & ? & ?). eauto.
Qed.

Lemma priority_anchored : anchored priority_at.
Proof.
  intros prev s m. unfold priority_at.
  destruct (wordBoundary prev s); [|discriminate].
  assert (T : forall lit, priority_tail (lit_ci lit s) = Some m ->
                          exists r, s = m0 m ++ r).
  { intros lit. unfold priority_tail.
    destruct (lit_ci lit s) as [[pre [|c rest]]|] eqn:E; try discriminate.
    destruct (isHML c && wordBoundary (Some c) rest); [|discriminate].
    intros H. injection H as <-. simpl. apply lit_ci_split in E.
    exists rest. now rewrite <- app_assoc. }
  unfold orElse.
  destruct (priority_tail (lit_ci (str "pri:") s)) eqn:E.
  - intros H. injection H as ->. eauto.
  - apply T.
Qed.

Lemma context_anchored : anchored context_at.
Proof.
  intros prev [|c s] m; unfold context_at; [discriminate|].
  destruct (N.eqb c 64); [|discriminate].
  destruct (first_alt (word_then_boundary s) context_words) as [[w rest]|] eqn:E;
    [|discriminate].
  intros H. injection H as <-. simpl.
  apply first_alt_some in E as (w' & _ & E). unfold word_then_boundary in E.
  destruct (lit_ci w' s) as [[m r]|] eqn:L; [|discriminate].
  destruct (wordBoundary (last_unit m) r); [|discriminate].
  injection E as <- <-. apply lit_ci_split in L. exists r. now f_equal.
Qed.

Lemma keyword_anchored kw : anchored (keyword_at kw).
Proof.
  intros prev s m. unfold keyword_at.
  destruct (wordBoundary prev s); [|discriminate].
  destruct (lit_ci kw s) as [[k rest]|] eqn:L; [|discriminate].
  destruct (takeWhile notWhiteSpace rest) as [|v vs] eqn:V; [discriminate|].
  intros H. injection H as <-. simpl.
  apply lit_ci_split in L. exists (dropWhile notWhiteSpace rest).
  rewrite <- app_assoc, <- V, <- takeWhile_dropWhile. exact L.
Qed.

Lemma status_anchored : anchored status_at.
Proof.
  intros prev [|c s] m; unfold status_at; [discriminate|].
  destruct (N.eqb c 62); [|discriminate].
  destruct (first_alt (fun w => lit_ci w s) status_words) as [[w rest]|] eqn:E;
    [|discriminate].
  intros H. injection H as <-. simpl.
  apply first_alt_some in E as (w' & _ & E).
  apply lit_ci_split in E. exists rest. now f_equal.
Qed.

Lemma search_at {M} (at_ : option code_unit -> jsstring -> option M) s :
  forall prev m, search at_ prev s = Some m ->
  exists prev' s', at_ prev' s' = Some m.
Proof.
  induction s as [|c s IH]; intros prev m H; simpl in H.
  - destruct (at_ prev []) eqn:E; [|discriminate]. injection H as ->. eauto.
  - destruct (at_ prev (c :: s)) eqn:E; [injection H as ->; eauto|].
    now apply IH in H.
Qed.

(** A literal in lower-case letters matches its own letters in either
    case, and nothing else. *)
Lemma lit_ci_lower pat : forall s m r,
  forallb (in_range 97%N 122%N) pat = true ->
  lit_ci pat s = Some (m, r) -> toLowerCase m = pat.
Proof.
  induction pat as [|p pat IH]; intros s m r Hp H; simpl in H.
  - now injection H as <- _.
  - simpl in Hp. apply andb_true_iff in Hp as [Hp1 Hp2].
    destruct s as [|c s]; [discriminate|].
    destruct (same_ci c p) eqn:C; [|discriminate].
    destruct (lit_ci pat s) as [[m' r']|] eqn:E; [|discriminate].
    injection H as <- <-. simpl. rewrite (IH _ _ _ Hp2 E).
    cut (lower_unit c = [p]); [now intros ->|].
    unfold same_ci, canonicalize, lower_unit, in_range in *.
    rewrite Hp1 in C.
    repeat match goal with
           | |- context [N.leb ?a ?b] => destruct (N.leb_spec a b)
           | H : context [N.leb ?a ?b] |- _ => destruct (N.leb_spec a b)
           end; cbn [andb] in *;
    apply N.eqb_eq in C;
    repeat match goal with
           | |- context [N.eqb ?a ?b] => destruct (N.eqb_spec a b)
           end; try discriminate; f_equal; lia.
Qed.

Lemma lit_ci_prefix a b s x :
  lit_ci (a ++ b) s = Some x -> lit_ci a s <> None.
Proof.
  revert s x; induction a as [|p a IH]; intros s x H; simpl in *; [discriminate|].
  destruct s as [|c s]; [discriminate|].
  destruct (same_ci c p); [|discriminate].
  destruct (lit_ci (a ++ b) s) as [y|] eqn:E; [|discriminate].
  specialize (IH _ _ E). now destruct (lit_ci a s) as [[? ?]|].
Qed.

Lemma lit_ci_length pat : forall s m r,
  lit_ci pat s = Some (m, r) -> List.length m = List.length pat.
Proof.
  induction pat as [|p pat IH]; intros s m r H; simpl in H.
  - now injection H as <- _.
  - destruct s as [|c s]; [discriminate|].
    destruct (same_ci c p); [|discriminate].
    destruct (lit_ci pat s) as [[m' r']|] eqn:E; [|discriminate].
    injection H as <- _. simpl. f_equal. now apply (IH _ _ _ E).
Qed.

(** A match of [pro:] or [due:] is the keyword followed by the value. *)
Lemma keyword_shape kw title m :
  search (keyword_at kw) None title = Some m ->
  exists k, m0 m = k ++ m1 m /\ List.length k = List.length kw /\ m1 m <> [].
Proof.
  intros H. apply search_at in H as (prev & s & H). unfold keyword_at in H.
  destruct (wordBoundary prev s); [|discriminate].
  destruct (lit_ci kw s) as [[k rest]|] eqn:L; [|discriminate].
  destruct (takeWhile notWhiteSpace rest) as [|v vs]; [discriminate|].
  injection H as <-. exists k. simpl.
  repeat split; [now apply lit_ci_length in L|discriminate].
Qed.

(** What a single-valued step does to the title: one occurrence of the
    matched text goes, the rest stays as it is up to [trim]. *)
Lemma match_removed at_ (title : jsstring) (m : Match) :
  anchored at_ ->
  search at_ None title = Some m ->
  exists l r, title = l ++ m0 m ++ r
              /\ trim (replace_first (m0 m) title) = trim (l ++ r).
Proof.
  intros Ha H. destruct (search_occurs at_ Ha _ _ _ H) as (l & r & E).
  assert (I : includes (m0 m) title = true) by (rewrite E; apply includes_app).
  destruct (replace_first_split _ _ I) as (l' & r' & E1 & E2).
  exists l', r'. now rewrite E2.
Qed.

End PatternFacts.

(** ** White space: the code against the specification's words *)

Section Whitespace.

Lemma dropWhile_app p (a b : jsstring) :
  dropWhile p (a ++ b) =
  match dropWhile p a with
  | [] => dropWhile p b
  | r => r ++ b
  end.
Proof.
  induction a as [|c a IH]; simpl; [reflexivity|].
  destruct (p c); [exact IH|reflexivity].
Qed.

(** [trimEnd] read from the left. *)
Lemma trimEnd_cons c s :
  trimEnd (c :: s) =
  match trimEnd s with
  | [] => if isWhiteSpace c then [] else [c]
  | r => c :: r
  end.
Proof.
  unfold trimEnd. simpl rev. rewrite dropWhile_app.
  destruct (dropWhile isWhiteSpace (rev s)) as [|x r] eqn:E.
  - simpl. now destruct (isWhiteSpace c).
  - rewrite rev_app_distr. simpl.
    destruct (rev r ++ [x]) eqn:E'; [|reflexivity].
    now apply app_eq_nil in E' as [_ ?].
Qed.

Lemma clean_word c b s :
  isWhiteSpace c = false ->
  trimEnd (collapse_from b (c :: s)) = c :: trimEnd (collapse_from false s).
Proof.
  intros H. simpl. rewrite H, trimEnd_cons, H.
  now destruct (trimEnd (collapse_from false s)).
Qed.

Lemma clean_gap c s :
  isWhiteSpace c = true ->
  trimEnd (collapse_from false (c :: s)) =
  match trimEnd (collapse_from true s) with
  | [] => []
  | r => 32%N :: r
  end.
Proof. intros H. simpl. rewrite H, trimEnd_cons. reflexivity. Qed.

Lemma clean_in_gap c s :
  isWhiteSpace c = true ->
  trimEnd (collapse_from true (c :: s)) = trimEnd (collapse_from true s).
Proof. intros H. simpl. now rewrite H. Qed.

Lemma words_acc_nonempty s : forall w, Forall (fun x => x <> []) (words_acc w s).
Proof.
  induction s as [|c s IH]; intros w; simpl.
  - destruct w; constructor; [discriminate|constructor].
  - destruct (isWhiteSpace c); [|apply IH].
    destruct w; [apply IH|]. constructor; [discriminate|apply IH].
Qed.

Lemma join_words_cons w ws :
  ws <> [] -> join_words (w :: ws) = w ++ 32%N :: join_words ws.
Proof. destruct ws; [congruence|reflexivity]. Qed.

Lemma join_words_nil ws :
  Forall (fun x => x <> []) ws -> join_words ws = [] -> ws = [].
Proof.
  destruct ws as [|w ws]; [reflexivity|].
  intros F H. inversion F as [|? ? Hw _]; subst.
  destruct ws; simpl in H.
  - contradiction.
  - apply app_eq_nil in H as [? _]. contradiction.
Qed.

Lemma join_words_acc s :
  join_words (words_acc [] s) = trimEnd (collapse_from true s)
  /\ forall w, w <> [] ->
       join_words (words_acc w s) = w ++ trimEnd (collapse_from false s).
Proof.
  induction s as [|c s [IH0 IH1]]; split.
  - reflexivity.
  - intros [|x w] H; [congruence|]. simpl. now rewrite app_nil_r.
  - simpl words_acc. destruct (isWhiteSpace c) eqn:W.
    + now rewrite clean_in_gap.
    + rewrite clean_word by exact W. rewrite IH1 by discriminate. reflexivity.
  - intros w Hw. simpl words_acc. destruct (isWhiteSpace c) eqn:W.
    + rewrite clean_gap by exact W. rewrite <- IH0.
      destruct w as [|x w]; [congruence|].
      destruct (words_acc [] s) as [|y ys] eqn:E.
      * simpl. now rewrite app_nil_r.
      * rewrite join_words_cons by discriminate.
        destruct (join_words (y :: ys)) eqn:J; [|reflexivity].
        apply join_words_nil in J; [discriminate|].
        rewrite <- E. apply words_acc_nonempty.
    + rewrite clean_word by exact W. rewrite IH1.
      * now rewrite <- app_assoc.
      * now destruct w.
Qed.

Lemma trimStart_collapse s :
  forall b, trimStart (collapse_from b s) = collapse_from false (trimStart s).
Proof.
  unfold trimStart.
  induction s as [|c s IH]; intros b; simpl; [reflexivity|].
  destruct (isWhiteSpace c) eqn:W.
  - destruct b; simpl; apply IH.
  - simpl. now rewrite W.
Qed.

Lemma clean_trimStart s :
  trimEnd (collapse_from false (trimStart s)) = trimEnd (collapse_from true s).
Proof.
  unfold trimStart.
  induction s as [|c s IH]; [reflexivity|].
  simpl dropWhile. destruct (isWhiteSpace c) eqn:W.
  - now rewrite clean_in_gap.
  - now rewrite !clean_word.
Qed.

(** The code's clean-up computes the specification's normal form. *)
Lemma cleanTitle_normalize s : cleanTitle s = normalize_whitespace s.
Proof.
  unfold cleanTitle, collapse_spaces, trim, normalize_whitespace, words.
  rewrite trimStart_collapse, clean_trimStart.
  symmetry. apply join_words_acc.
Qed.

Lemma words_acc_app w r : forall a,
  forallb notWhiteSpace w = true -> words_acc a (w ++ r) = words_acc (a ++ w) r.
Proof.
  induction w as [|c w IH]; intros a H; simpl.
  - now rewrite app_nil_r.
  - simpl in H. apply andb_true_iff in H as [Hc Hw].
    unfold notWhiteSpace in Hc. apply negb_true_iff in Hc. rewrite Hc.
    rewrite IH by exact Hw. now rewrite <- app_assoc.
Qed.

Lemma words_acc_good s : forall w,
  forallb notWhiteSpace w = true -> Forall goodWord (words_acc w s).
Proof.
  induction s as [|c s IH]; intros w Hw; simpl.
  - destruct w; constructor; [|constructor]. split; [discriminate|exact Hw].
  - destruct (isWhiteSpace c) eqn:W.
    + destruct w; [now apply IH|].
      constructor; [split; [discriminate|exact Hw]|now apply IH].
    + apply IH. rewrite forallb_app, Hw. simpl. unfold notWhiteSpace.
      now rewrite W.
Qed.

Lemma words_join ws : Forall goodWord ws -> words (join_words ws) = ws.
Proof.
  unfold words. induction ws as [|w ws IH]; intros F; [reflexivity|].
  inversion F as [|? ? [Hne Hw] F']; subst.
  destruct ws as [|x xs].
  - simpl. pose proof (words_acc_app w [] [] Hw) as E.
    rewrite app_nil_r in E. rewrite E. simpl. now destruct w.
  - rewrite join_words_cons by discriminate.
    rewrite words_acc_app by exact Hw.
    destruct w as [|a w]; [congruence|].
    change (words_acc ([] ++ a :: w) (32%N :: join_words (x :: xs)))
      with ((a :: w) :: words_acc [] (join_words (x :: xs))).
    now rewrite IH.
Qed.

Lemma normalize_idempotent s :
  normalize_whitespace (normalize_whitespace s) = normalize_whitespace s.
Proof.
  unfold normalize_whitespace. rewrite words_join; [reflexivity|].
  now apply words_acc_good.
Qed.

Lemma cleanTitle_idempotent s : cleanTitle (cleanTitle s) = cleanTitle s.
Proof. rewrite !cleanTitle_normalize. apply normalize_idempotent. Qed.

End Whitespace.

(** ** Dates *)

Section Dates.
Local Open Scope Z_scope.

Lemma DayFromYear_step y : DayFromYear (y + 1) = DayFromYear y + DaysInYear y.
Proof.
  unfold DayFromYear, DaysInYear.
  destruct (Z.eqb_spec (y mod 4) 0); destruct (Z.eqb_spec (y mod 100) 0);
    destruct (Z.eqb_spec (y mod 400) 0); cbn [negb];
    Z.div_mod_to_equations; lia.
Qed.

(** [YearFromTime] is the year ECMA-262 defines: the largest one that has
    begun at [t]. *)
Lemma YearFromTime_spec t :
  TimeFromYear (YearFromTime t) <= t < TimeFromYear (YearFromTime t + 1).
Proof.
  unfold TimeFromYear, YearFromTime, Day, msPerDay.
  set (d := t / 86400000).
  assert (Hd : 86400000 * d <= t < 86400000 * d + 86400000)
    by (subst d; Z.div_mod_to_equations; lia).
  set (y := 1970 + 400 * d / 146097).
  assert (Hy : DayFromYear (y - 1) <= d < DayFromYear (y + 2))
    by (subst y; unfold DayFromYear; Z.div_mod_to_equations; lia).
  destruct (Z.leb_spec (DayFromYear (y + 1)) d).
  - replace (y + 1 + 1) with (y + 2) by lia. lia.
  - destruct (Z.leb_spec (DayFromYear y) d).
    + lia.
    + replace (y - 1 + 1) with y by lia. lia.
Qed.

Lemma DayWithinYear_range t :
  0 <= DayWithinYear t < DaysInYear (YearFromTime t).
Proof.
  pose proof (YearFromTime_spec t) as H.
  unfold DayWithinYear, TimeFromYear, Day, msPerDay in *.
  rewrite DayFromYear_step in H.
  Z.div_mod_to_equations. lia.
Qed.

(** Setting the day of the month to the current one plus [n] moves the
    date by [n] days. *)
Lemma MonthFromTime_range t : 0 <= MonthFromTime t <= 11.
Proof.
  unfold MonthFromTime.
  repeat match goal with
         | |- context [?a <? ?b] => destruct (Z.ltb_spec a b)
         end; lia.
Qed.

Lemma MakeDay_fields t n :
  MakeDay (YearFromTime t) (MonthFromTime t) (DateFromTime t + n) = Day t + n.
Proof.
  pose proof (DayWithinYear_range t) as R.
  pose proof (MonthFromTime_range t) as M.
  unfold MakeDay. rewrite Z.div_small, Z.mod_small, Z.add_0_r by lia. clear M.
  unfold DayOfMonthStart, DateFromTime, MonthFromTime, InLeapYear in *.
  unfold DayWithinYear in *.
  set (y := YearFromTime t) in *. set (d := Day t - DayFromYear y) in *.
  assert (L : DaysInYear y = 365 \/ DaysInYear y = 366).
  { unfold DaysInYear. destruct (negb _); [now left|].
    destruct (negb _); [now right|]. destruct (negb _); [now left|now right]. }
  destruct (Z.eqb_spec (DaysInYear y) 366) as [E|E].
  all: repeat match goal with
       | |- context [?a <? ?b] => destruct (Z.ltb_spec a b)
       end; cbv beta iota; lia.
Qed.

Lemma setDate_plus env t0 n :
  setDate env (Some t0) (num_add (getDate env (Some t0)) (Some n)) =
  TimeClip (UTC env (LocalTime env t0 + n * msPerDay)).
Proof.
  unfold setDate, getDate, num_add. rewrite MakeDay_fields.
  f_equal. f_equal. unfold MakeDate, Day, TimeWithinDay, msPerDay.
  Z.div_mod_to_equations. lia.
Qed.

End Dates.

(** ** The pipeline *)

Section Pipeline.

(** [parseTaskInput] through the views: everything but the due step is a
    function of the title it receives. *)
Lemma parseTaskInput_unfold env input :
  parseTaskInput env input =
  (r <- parseDue env (titleAtDue input) ;;
   Normal {| title := finishTitle (snd r);
             priority := fst (parsePriority input);
             context := fst (parseContext (snd (parsePriority input)));
             projectName :=
               fst (parseProject (snd (parseContext (snd (parsePriority input)))));
             dueDate := fst r;
             tags := fst (parseTags (snd r));
             status := fst (parseStatus (snd (parseTags (snd r)))) |}).
Proof.
  unfold parseTaskInput, titleAtDue, finishTitle.
  destruct (parsePriority input) as [p t1]; simpl.
  destruct (parseContext t1) as [c t2]; simpl.
  destruct (parseProject t2) as [pr t3]; simpl.
  destruct (parseDue env t3) as [[d t4]|e]; simpl; [|reflexivity].
  destruct (parseTags t4) as [tg t5]; simpl.
  destruct (parseStatus t5) as [st t6]; reflexivity.
Qed.

Lemma noToken_titleAtDue input : noToken input -> titleAtDue input = input.
Proof.
  intros (Hp & Hc & Hpr & _). unfold titleAtDue, parsePriority.
  rewrite Hp. simpl. unfold parseContext. rewrite Hc. simpl.
  unfold parseProject. now rewrite Hpr.
Qed.

Lemma noToken_parse env input :
  noToken input ->
  parseTaskInput env input =
  Normal {| title := cleanTitle input; priority := None; context := None;
            projectName := None; dueDate := None; tags := [];
            status := None |}.
Proof.
  intros H. rewrite parseTaskInput_unfold, (noToken_titleAtDue _ H).
  destruct H as (Hp & Hc & Hpr & Hd & Ht & Hs).
  unfold parseDue. rewrite Hd. simpl.
  unfold finishTitle, parseTags, parsePriority, parseContext, parseProject.
  rewrite Ht, Hp. simpl. rewrite Hc. simpl. rewrite Hpr. simpl.
  unfold parseStatus. rewrite Hs. reflexivity.
Qed.


(** [+Nd]: the date moves by N days of local time, and the call throws
    when that leaves the range of time values. *)
Lemma resolveDue_plusDays env v :
  isPlusDays v = true ->
  resolveDue env v =
  (d <- isoDay (TimeClip (UTC env (LocalTime env (now env)
                                   + parseInt (slice_1_m1 v) * msPerDay))) ;;
   Normal (Some d)).
Proof.
  intros H. unfold resolveDue. rewrite H.
  destruct v as [|c r]; [discriminate|].
  unfold isPlusDays in H. apply andb_true_iff in H as [H _].
  apply andb_true_iff in H as [H _]. apply N.eqb_eq in H. subst c.
  assert (L : forall lit, hd_error lit <> Some 43%N ->
                          JS.eqb (43%N :: r) lit = false).
  { intros lit Hl. apply not_true_iff_false. intros E.
    apply eqb_eq in E. subst lit. now apply Hl. }
  rewrite !L by (vm_compute; discriminate).
  cbn [orb]. unfold newDate. now rewrite setDate_plus.
Qed.

Lemma single_step_deletes_one at_ title m :
  anchored at_ ->
  search at_ None title = Some m ->
  deletesOne m title (trim (replace_first (m0 m) title)).
Proof.
  intros Ha H. destruct (match_removed at_ _ _ Ha H) as (l & r & ? & ?).
  now exists l, r.
Qed.

(** The letter of a priority match decides the priority: H, M and L, in
    either case, give high, medium and low. *)
Lemma priority_mapping title m :
  priorityMatch title = Some m ->
  exists c, m1 m = [c] /\ isHML c = true
            /\ fst (parsePriority title) = Some (priorityOfLetter c).
Proof.
  intros H. unfold parsePriority. rewrite H.
  apply search_at in H as (prev & s & H). unfold priority_at in H.
  destruct (wordBoundary prev s); [|discriminate].
  assert (T : forall o, priority_tail o = Some m ->
                        exists c, m1 m = [c] /\ isHML c = true).
  { intros [[pre [|c rest]]|]; simpl; try discriminate.
    destruct (isHML c) eqn:E; [|discriminate].
    destruct (wordBoundary (Some c) rest); [|discriminate].
    intros X. injection X as <-. now exists c. }
  assert (exists c, m1 m = [c] /\ isHML c = true) as (c & Hc & Hh).
  { unfold orElse in H.
    destruct (priority_tail (lit_ci (str "pri:") s)) eqn:E.
    - injection H as ->. now apply T in E.
    - now apply T in H. }
  exists c. rewrite Hc. repeat split; [exact Hh|].
  unfold priorityOfLetter, isHML, same_ci in *. cbn [fst toUpperCase map JS.eqb].
  change (str "H") with [72%N]. change (str "M") with [77%N].
  change (str "L") with [76%N]. cbn [JS.eqb].
  change (canonicalize 72%N) with 72%N in *.
  change (canonicalize 77%N) with 77%N in *.
  change (canonicalize 76%N) with 76%N in *.
  destruct (N.eqb (canonicalize c) 72); [reflexivity|].
  destruct (N.eqb (canonicalize c) 77); [reflexivity|].
  destruct (N.eqb (canonicalize c) 76); [reflexivity|discriminate].
Qed.

(** [!] opens a priority token only after a word character. *)
Lemma bang_needs_a_word_before prev s :
  isWordAt prev = false -> priority_at prev (33%N :: s) = None.
Proof. intros H. unfold priority_at, wordBoundary. now rewrite H. Qed.

(** The word a status match captures: [waiting] is never among them,
    since [wait] is tried first. *)
Lemma status_capture title m :
  statusMatch title = Some m ->
  In (toLowerCase (m1 m)) [str "next"; str "wait"; str "someday"; str "maybe"].
Proof.
  intros H. apply search_at in H as (prev & [|c s] & H); [discriminate|].
  unfold status_at in H. destruct (N.eqb c 62); [|discriminate].
  unfold status_words in H. cbn [first_alt] in H. unfold orElse in H.
  pose proof (lit_ci_lower (str "next") s) as Ln.
  pose proof (lit_ci_lower (str "wait") s) as Lw.
  pose proof (lit_ci_lower (str "someday") s) as Ls.
  pose proof (lit_ci_lower (str "maybe") s) as Lm.
  destruct (lit_ci (str "next") s) as [[x r]|];
    [injection H as <-; left; symmetry; now apply (Ln x r)|].
  destruct (lit_ci (str "wait") s) as [[x r]|] eqn:W;
    [injection H as <-; right; left; symmetry; now apply (Lw x r)|].
  destruct (lit_ci (str "waiting") s) as [[x r]|] eqn:G.
  { exfalso. change (str "waiting") with (str "wait" ++ str "ing") in G.
    now apply lit_ci_prefix in G. }
  destruct (lit_ci (str "someday") s) as [[x r]|];
    [injection H as <-; right; right; left; symmetry; now apply (Ls x r)|].
  destruct (lit_ci (str "maybe") s) as [[x r]|]; [|discriminate].
  injection H as <-. right; right; right; left. symmetry. now apply (Lm x r).
Qed.

Lemma status_never_captures_waiting title m :
  statusMatch title = Some m -> toLowerCase (m1 m) <> str "waiting".
Proof.
  intros H E. apply status_capture in H. rewrite E in H.
  repeat destruct H as [H|H]; try discriminate H. contradiction.
Qed.

(** The cast [as Context] of the source is sound: the string built from
    a context match is one of the six literals of the type. *)
Lemma context_is_a_Context title m :
  contextMatch title = Some m ->
  In (str "@" ++ toLowerCase (m1 m))
     [str "@home"; str "@work"; str "@computer"; str "@phone";
      str "@errands"; str "@anywhere"].
Proof.
  intros H. apply search_at in H as (prev & [|c s] & H); [discriminate|].
  unfold context_at in H. destruct (N.eqb c 64); [|discriminate].
  destruct (first_alt (word_then_boundary s) context_words) as [[w rest]|] eqn:E;
    [|discriminate].
  injection H as <-. cbn [m1].
  apply first_alt_some in E as (w' & Hin & E). unfold word_then_boundary in E.
  destruct (lit_ci w' s) as [[x r]|] eqn:L; [|discriminate].
  destruct (wordBoundary (last_unit x) r); [|discriminate].
  injection E as <- <-.
  assert (toLowerCase x = w') as ->.
  { apply (lit_ci_lower w' s x r); [|exact L].
    unfold context_words in Hin.
    repeat destruct Hin as [<-|Hin]; try reflexivity. contradiction. }
  unfold context_words in Hin. cbn [In] in *.
  repeat destruct Hin as [<-|Hin]; try tauto.
Qed.

(** The date part of [toISOString] is the UTC date. *)
Lemma pad_digits_no_T w : forall n,
  forallb (fun c => negb (N.eqb c 84)) (pad_digits w n) = true.
Proof.
  induction w as [|w IH]; intros n; [reflexivity|].
  cbn [pad_digits]. rewrite forallb_app, IH. cbn [forallb andb].
  rewrite andb_true_r. apply negb_true_iff, N.eqb_neq.
  pose proof (Z.mod_pos_bound n 10 eq_refl) as B. intros E.
  apply (f_equal Z.of_N) in E. rewrite Z2N.id in E; lia.
Qed.

Lemma takeWhile_stop p (a : jsstring) x r :
  forallb p a = true -> p x = false -> takeWhile p (a ++ x :: r) = a.
Proof.
  induction a as [|c a IH]; simpl; intros H Hx.
  - now rewrite Hx.
  - apply andb_true_iff in H as [-> H]. f_equal. now apply IH.
Qed.

Lemma isoDay_Some t : isoDay (Some t) = Normal (dateString t).
Proof.
  unfold isoDay, toISOString, bind, before_T. f_equal.
  rewrite !app_assoc.
  change (str "T") with [84%N].
  rewrite <- !app_assoc. cbn [app].
  rewrite !app_assoc.
  rewrite takeWhile_stop; [unfold dateString; now rewrite !app_assoc| |reflexivity].
  rewrite !forallb_app, !pad_digits_no_T. cbn [andb].
  unfold year_string.
  destruct ((0 <=? YearFromTime t)%Z && (YearFromTime t <=? 9999)%Z);
    [now rewrite pad_digits_no_T|].
  rewrite forallb_app, pad_digits_no_T.
  now destruct (YearFromTime t <? 0)%Z.
Qed.

Lemma parseDue_today env title m :
  dueMatch title = Some m ->
  toLowerCase (m1 m) = str "today" ->
  parseDue env title =
  Normal (Some (utcDateString env), trim (replace_first (m0 m) title)).
Proof.
  intros H V. unfold parseDue. rewrite H, V.
  unfold resolveDue. change (JS.eqb (str "today") (str "today")) with true.
  cbv iota. unfold newDate. now rewrite isoDay_Some.
Qed.

(** [due:today] gives the UTC date, whatever the input around it. *)
Lemma due_today_general env input m :
  dueMatch (titleAtDue input) = Some m ->
  toLowerCase (m1 m) = str "today" ->
  exists p, parseTaskInput env input = Normal p
            /\ dueDate p = Some (utcDateString env).
Proof.
  intros H V. rewrite parseTaskInput_unfold, (parseDue_today env _ _ H V).
  simpl. eexists. split; reflexivity.
Qed.

(** The call throws in the date arithmetic of [tomorrow], [tom] and [+Nd]
    only: every other path returns. *)
Lemma throws_only_in_date_arithmetic env input e :
  parseTaskInput env input = Throw e ->
  exists m, dueMatch (titleAtDue input) = Some m
            /\ (toLowerCase (m1 m) = str "tomorrow"
                \/ toLowerCase (m1 m) = str "tom"
                \/ isPlusDays (toLowerCase (m1 m)) = true).
Proof.
  rewrite parseTaskInput_unfold. unfold parseDue.
  destruct (dueMatch (titleAtDue input)) as [m|]; [|discriminate].
  intros H. exists m. split; [reflexivity|].
  unfold resolveDue in H.
  destruct (JS.eqb (toLowerCase (m1 m)) (str "today")).
  { unfold newDate in H. rewrite isoDay_Some in H. discriminate. }
  destruct (JS.eqb (toLowerCase (m1 m)) (str "tomorrow")) eqn:E1;
    [left; now apply eqb_eq|].
  destruct (JS.eqb (toLowerCase (m1 m)) (str "tom")) eqn:E2;
    [right; left; now apply eqb_eq|].
  destruct (isPlusDays (toLowerCase (m1 m))); [now right; right|].
  cbn [orb] in H. destruct (isIsoDate (toLowerCase (m1 m))); discriminate.
Qed.

End Pipeline.

(** ** The tag step *)

Section Tags.

Ltac cu_bool :=
  unfold isWordChar, isWhiteSpace, isDigit, in_range in *;
  repeat rewrite ?orb_true_iff, ?orb_false_iff, ?andb_true_iff,
    ?andb_false_iff, ?N.leb_le, ?N.leb_gt, ?N.eqb_eq, ?N.eqb_neq in *.

Lemma word_not_space c : isWordChar c = true -> isWhiteSpace c = false.
Proof. intros H. cu_bool. lia. Qed.

Lemma space_not_plus c : isWhiteSpace c = true -> N.eqb c 43 = false.
Proof. intros H. apply N.eqb_neq. cu_bool. lia. Qed.

Lemma word_not_plus c : isWordChar c = true -> N.eqb c 43 = false.
Proof. intros H. apply N.eqb_neq. cu_bool. lia. Qed.

Lemma takeWhile_all p (s : jsstring) : forallb p (takeWhile p s) = true.
Proof.
  induction s as [|c s IH]; simpl; [reflexivity|].
  destruct (p c) eqn:E; simpl; [now rewrite E|reflexivity].
Qed.

Lemma takeWhile_nil_starts s : takeWhile isWordChar s = [] <-> startsWord s = false.
Proof.
  destruct s as [|c s]; simpl; [tauto|].
  destruct (isWordChar c); split; congruence.
Qed.

Lemma dropWhile_starts s : startsWord (dropWhile isWordChar s) = false.
Proof.
  induction s as [|c s IH]; simpl; [reflexivity|].
  destruct (isWordChar c) eqn:E; [exact IH|]. simpl. exact E.
Qed.

(** The shape of a match of [/\+(\w+)/]. *)
Lemma tag_at_shape s t :
  tag_at s = Some t ->
  exists x w r, t = 43%N :: x :: w /\ s = t ++ r
                /\ isWordChar x = true /\ forallb isWordChar w = true
                /\ startsWord r = false.
Proof.
  destruct s as [|c s]; simpl; [discriminate|].
  destruct (N.eqb_spec c 43) as [->|]; [|discriminate].
  destruct (takeWhile isWordChar s) as [|x w] eqn:E; [discriminate|].
  intros H. injection H as <-.
  pose proof (takeWhile_all isWordChar s) as A. rewrite E in A. simpl in A.
  apply andb_true_iff in A as [Ax Aw].
  exists x, w, (dropWhile isWordChar s). repeat split; try assumption.
  - simpl. f_equal. change (x :: w ++ dropWhile isWordChar s)
      with ((x :: w) ++ dropWhile isWordChar s).
    rewrite <- E. apply takeWhile_dropWhile.
  - apply dropWhile_starts.
Qed.

Lemma tag_at_starts c s :
  tag_at (c :: s) = None -> N.eqb c 43 = true -> startsWord s = false.
Proof.
  unfold tag_at. intros H C. rewrite C in H. apply takeWhile_nil_starts.
  now destruct (takeWhile isWordChar s).
Qed.

Lemma tag_at_none c s :
  N.eqb c 43 = false \/ startsWord s = false -> tag_at (c :: s) = None.
Proof.
  unfold tag_at. intros [->|H]; [reflexivity|].
  apply takeWhile_nil_starts in H. rewrite H. now destruct (N.eqb c 43).
Qed.

Lemma plusWords_word w r :
  forallb isWordChar w = true -> plusWords (w ++ r) = plusWords r.
Proof.
  induction w as [|c w IH]; intros H; [reflexivity|].
  simpl in H. apply andb_true_iff in H as [Hc Hw].
  cbn [app plusWords]. rewrite tag_at_none by (left; now apply word_not_plus).
  now apply IH.
Qed.

Lemma tag_scan_skip w r : tag_scan (List.length w) (w ++ r) = tag_scan 0 r.
Proof. induction w as [|c w IH]; [reflexivity|exact IH]. Qed.

(** The code's global match finds the occurrences of the specification. *)
Lemma tagMatches_plusWords s : tagMatches s = plusWords s.
Proof.
  unfold tagMatches.
  assert (G : forall n s, (List.length s <= n)%nat -> tag_scan 0 s = plusWords s).
  { clear s. induction n as [|n IH]; intros [|c s] L; try reflexivity.
    - simpl in L. lia.
    - cbn [tag_scan plusWords].
      destruct (tag_at (c :: s)) as [t|] eqn:E.
      + destruct (tag_at_shape _ _ E) as (x & w & r & -> & Hs & Hx & Hw & _).
        injection Hs as -> ->. f_equal.
        change (List.length (43%N :: x :: w) - 1)%nat with (List.length (x :: w)).
        change (x :: w ++ r) with ((x :: w) ++ r).
        rewrite tag_scan_skip, plusWords_word by (simpl; now rewrite Hx).
        apply IH. simpl in L. rewrite length_app in L. lia.
      + apply IH. simpl in L. lia. }
  now apply (G (List.length s)).
Qed.

Lemma plusWords_shape s t :
  In t (plusWords s) ->
  exists x w, t = 43%N :: x :: w /\ isWordChar x = true
              /\ forallb isWordChar w = true.
Proof.
  induction s as [|c s IH]; [contradiction|].
  cbn [plusWords]. destruct (tag_at (c :: s)) as [t0|] eqn:E; [|exact IH].
  intros [<-|H]; [|now apply IH].
  destruct (tag_at_shape _ _ E) as (x & w & r & ? & _ & ? & ? & _). eauto.
Qed.

Lemma plusWords_trimStart s : plusWords (trimStart s) = plusWords s.
Proof.
  unfold trimStart. induction s as [|c s IH]; [reflexivity|].
  simpl dropWhile. destruct (isWhiteSpace c) eqn:W; [|reflexivity].
  cbn [plusWords]. rewrite tag_at_none by (left; now apply space_not_plus).
  exact IH.
Qed.

Lemma takeWhile_trimEnd s :
  takeWhile isWordChar (trimEnd s) = takeWhile isWordChar s.
Proof.
  induction s as [|c s IH]; [reflexivity|].
  rewrite trimEnd_cons. simpl takeWhile at 2.
  destruct (isWordChar c) eqn:Wc.
  - rewrite (word_not_space _ Wc).
    destruct (trimEnd s) eqn:E; simpl; rewrite Wc, <- IH; reflexivity.
  - destruct (trimEnd s); [destruct (isWhiteSpace c)|]; simpl;
      rewrite ?Wc; reflexivity.
Qed.

Lemma tag_at_trimEnd c s : tag_at (c :: trimEnd s) = tag_at (c :: s).
Proof. simpl. now rewrite takeWhile_trimEnd. Qed.

Lemma plusWords_trimEnd s : plusWords (trimEnd s) = plusWords s.
Proof.
  induction s as [|c s IH]; [reflexivity|].
  rewrite trimEnd_cons. cbn [plusWords]. rewrite <- tag_at_trimEnd, <- IH.
  destruct (trimEnd s) eqn:E; [|reflexivity].
  destruct (isWhiteSpace c); simpl; now destruct (N.eqb c 43).
Qed.

Lemma plusWords_trim s : plusWords (trim s) = plusWords s.
Proof. unfold trim. now rewrite plusWords_trimEnd, plusWords_trimStart. Qed.

Lemma replace_first_app t r : t <> [] -> replace_first t (t ++ r) = r.
Proof.
  destruct t as [|c t]; [congruence|]. intros _.
  cbn [app replace_first]. change (c :: t ++ r) with ((c :: t) ++ r).
  now rewrite strip_prefix_app.
Qed.

(** Deleting the text of the first occurrence deletes that occurrence, and
    the others are the occurrences of what is left. *)
Lemma plusWords_replace_first s : forall t ts,
  plusWords s = t :: ts ->
  plusWords (replace_first t s) = ts
  /\ (startsWord s = false -> startsWord (replace_first t s) = false).
Proof.
  induction s as [|c s IH]; intros t ts H; [discriminate|].
  cbn [plusWords] in H. destruct (tag_at (c :: s)) as [t0|] eqn:E.
  - injection H as -> <-.
    destruct (tag_at_shape _ _ E) as (x & w & r & -> & Hs & Hx & Hw & Hr).
    rewrite Hs, replace_first_app by discriminate.
    injection Hs as -> ->. split; [|now intros _].
    change (x :: w ++ r) with ((x :: w) ++ r).
    symmetry. apply plusWords_word. simpl. now rewrite Hx.
  - assert (S : strip_prefix t (c :: s) = None).
    { destruct (strip_prefix t (c :: s)) as [rest|] eqn:P; [|reflexivity].
      apply strip_prefix_Some in P.
      destruct (plusWords_shape s t) as (x & w & -> & Hx & _).
      { rewrite H. now left. }
      injection P as -> ->. simpl in E. now rewrite Hx in E. }
    cbn [replace_first]. rewrite S.
    destruct (IH _ _ H) as [IH1 IH2]. split; [|now intros ?].
    cbn [plusWords]. rewrite tag_at_none; [exact IH1|].
    destruct (N.eqb c 43) eqn:C; [right|now left].
    apply IH2. now apply (tag_at_starts c).
Qed.

(** The loop of the tag step: the tags are the occurrences, in their
    order and without the [+], and none is left in the title. *)
Lemma tag_loop ts : forall title acc,
  plusWords title = ts ->
  fst (fold_left tagStep ts (acc, title)) = acc ++ map slice_1 ts
  /\ plusWords (snd (fold_left tagStep ts (acc, title))) = [].
Proof.
  induction ts as [|t ts IH]; intros title acc H.
  - simpl. now rewrite app_nil_r.
  - cbn [fold_left tagStep].
    destruct (plusWords_replace_first _ _ _ H) as [H' _].
    rewrite <- plusWords_trim in H'.
    destruct (IH _ (acc ++ [slice_1 t]) H') as [F S].
    split; [|exact S]. rewrite F, <- app_assoc. reflexivity.
Qed.

Lemma parseTags_spec title :
  fst (parseTags title) = map slice_1 (plusWords title)
  /\ plusWords (snd (parseTags title)) = [].
Proof.
  unfold parseTags. rewrite tagMatches_plusWords.
  exact (tag_loop (plusWords title) title [] eq_refl).
Qed.

(** A string without occurrences contains no text of the shape of a tag. *)
Lemma plusWords_nil_includes s x w :
  plusWords s = [] -> isWordChar x = true ->
  includes (43%N :: x :: w) s = false.
Proof.
  intros H Hx. induction s as [|c s IH]; [reflexivity|].
  cbn [plusWords] in H. destruct (tag_at (c :: s)) eqn:E; [discriminate|].
  cbn [includes].
  destruct (strip_prefix (43%N :: x :: w) (c :: s)) as [rest|] eqn:P;
    [|now apply IH].
  apply strip_prefix_Some in P. injection P as -> ->.
  simpl in E. now rewrite Hx in E.
Qed.

End Tags.

(** ** Inputs without tokens *)

Section Markers.

Lemma search_suffix {M} (at_ : option code_unit -> jsstring -> option M) s :
  forall prev m, search at_ prev s = Some m ->
  exists l prev' s', s = l ++ s' /\ at_ prev' s' = Some m.
Proof.
  induction s as [|c s IH]; intros prev m H; simpl in H.
  - destruct (at_ prev []) eqn:E; [|discriminate]. injection H as ->.
    now exists [], prev, [].
  - destruct (at_ prev (c :: s)) eqn:E.
    + injection H as ->. now exists [], prev, (c :: s).
    + destruct (IH _ _ H) as (l & prev' & s' & -> & H').
      now exists (c :: l), prev', s'.
Qed.

Lemma same_ci_marker c p : (p < 65)%N -> same_ci c p = true -> c = p.
Proof.
  unfold same_ci, canonicalize, in_range. intros Hp H.
  apply N.eqb_eq in H.
  destruct (N.leb_spec 97 p); [lia|]. cbn [andb] in H.
  destruct (N.leb_spec 97 c); destruct (N.leb_spec c 122); cbn [andb] in H; lia.
Qed.

Lemma lit_ci_marker pat p : forall s m r,
  (p < 65)%N -> In p pat -> lit_ci pat s = Some (m, r) -> In p s.
Proof.
  induction pat as [|q pat IH]; intros s m r Hp Hin H; [contradiction|].
  simpl in H. destruct s as [|c s]; [discriminate|].
  destruct (same_ci c q) eqn:C; [|discriminate].
  destruct (lit_ci pat s) as [[m' r']|] eqn:E; [|discriminate].
  destruct Hin as [->|Hin].
  - left. now apply same_ci_marker.
  - right. now apply (IH _ _ _ Hp Hin E).
Qed.

Lemma markerFree_In s c :
  markerFree s = true -> In c s -> isMarker c = false.
Proof.
  unfold markerFree. rewrite forallb_forall. intros H Hin.
  apply negb_true_iff. now apply H.
Qed.


Lemma keyword_at_marker kw prev s m :
  In 58%N kw -> keyword_at kw prev s = Some m -> In 58%N s.
Proof.
  intros Hin. unfold keyword_at.
  destruct (wordBoundary prev s); [|discriminate].
  destruct (lit_ci kw s) as [[k rest]|] eqn:L; [|discriminate].
  intros _. now apply (lit_ci_marker kw 58 s k rest).
Qed.




End Markers.

(** ** Families of inputs: a text without markers around one token *)

Section Families.

Lemma markerFree_not_In s mk :
  markerFree s = true -> isMarker mk = true -> ~ In mk s.
Proof.
  intros H M Hin. rewrite (markerFree_In s mk H Hin) in M. discriminate.
Qed.

Lemma search_none_marker (at_ : option code_unit -> jsstring -> option Match) mk s :
  (forall prev s' m, at_ prev s' = Some m -> In mk s') ->
  ~ In mk s -> search at_ None s = None.
Proof.
  intros Hat Hn. destruct (search at_ None s) as [m|] eqn:E; [|reflexivity].
  apply search_suffix in E as (l & prev & s' & -> & E).
  exfalso. apply Hn, in_or_app. right. now apply (Hat _ _ _ E).
Qed.

Lemma context_at_head prev s m : context_at prev s = Some m -> In 64%N s.
Proof.
  destruct s as [|c s]; [discriminate|]. unfold context_at.
  destruct (N.eqb_spec c 64) as [->|]; [now left|discriminate].
Qed.

Lemma status_at_head prev s m : status_at prev s = Some m -> In 62%N s.
Proof.
  destruct s as [|c s]; [discriminate|]. unfold status_at.
  destruct (N.eqb_spec c 62) as [->|]; [now left|discriminate].
Qed.

Lemma contextMatch_none s : ~ In 64%N s -> contextMatch s = None.
Proof. apply search_none_marker, context_at_head. Qed.

Lemma statusMatch_none s : ~ In 62%N s -> statusMatch s = None.
Proof. apply search_none_marker, status_at_head. Qed.

Lemma projectMatch_none s : ~ In 58%N s -> projectMatch s = None.
Proof.
  apply search_none_marker. intros prev s' m.
  apply keyword_at_marker. vm_compute. tauto.
Qed.

Lemma dueMatch_none s : ~ In 58%N s -> dueMatch s = None.
Proof.
  apply search_none_marker. intros prev s' m.
  apply keyword_at_marker. vm_compute. tauto.
Qed.

Lemma plusWords_none s : ~ In 43%N s -> plusWords s = [].
Proof.
  induction s as [|c s IH]; [reflexivity|]. intros H.
  cbn [plusWords]. rewrite tag_at_none.
  - apply IH. intros X. apply H. now right.
  - left. apply N.eqb_neq. intros ->. apply H. now left.
Qed.

(** A priority token needs a [:] somewhere after it starts, or starts
    with [!]. *)
Lemma priority_at_needs prev s m :
  priority_at prev s = Some m -> In 58%N s \/ hd_error s = Some 33%N.
Proof.
  unfold priority_at. destruct (wordBoundary prev s); [|discriminate].
  unfold orElse, priority_tail.
  destruct (lit_ci (str "pri:") s) as [[k rest]|] eqn:L.
  - intros _. left. apply (lit_ci_marker (str "pri:") 58 s k rest); try easy.
    vm_compute. tauto.
  - destruct (lit_ci (str "!") s) as [[k rest]|] eqn:L'; [|discriminate].
    intros _. right. destruct s as [|c s]; [discriminate|].
    simpl in L'. destruct (same_ci c 33%N) eqn:C; [|discriminate].
    apply same_ci_marker in C; [now subst|reflexivity].
Qed.

Lemma priorityMatch_none s : ~ In 58%N s -> ~ In 33%N s -> priorityMatch s = None.
Proof.
  intros H1 H2. destruct (priorityMatch s) as [m|] eqn:E; [|reflexivity].
  apply search_suffix in E as (l & prev & s' & -> & E). exfalso.
  apply priority_at_needs in E as [E|E].
  - apply H1, in_or_app. now right.
  - apply H2, in_or_app. right. destruct s' as [|c s']; [discriminate|].
    injection E as ->. now left.
Qed.

(** The search passes over a stretch where the pattern cannot start. *)
Lemma search_skip {M} (at_ : option code_unit -> jsstring -> option M) a s :
  (forall prev l, l <> [] -> (exists l0, a = l0 ++ l) -> at_ prev (l ++ s) = None) ->
  forall prev, search at_ prev (a ++ s) = search at_ (prevAfter prev a) s.
Proof.
  induction a as [|c a IH]; intros H prev; [reflexivity|].
  assert (E : at_ prev ((c :: a) ++ s) = None)
    by (apply H; [discriminate|now exists []]).
  cbn [app search] in *. rewrite E.
  apply IH. intros prev' l Hl [l0 ->]. apply H; [exact Hl|].
  now exists (c :: l0).
Qed.

Lemma search_first {M} (at_ : option code_unit -> jsstring -> option M) prev s m :
  at_ prev s = Some m -> search at_ prev s = Some m.
Proof. intros H. destruct s; simpl; now rewrite H. Qed.

Lemma suffix_In (a l0 l : jsstring) c : a = l0 ++ l -> In c l -> In c a.
Proof. intros -> H. apply in_or_app. now right. Qed.

Lemma isWordAt_hd s : isWordAt (hd_error s) = startsWord s.
Proof. now destruct s. Qed.

Lemma replace_first_skip p pat a r :
  ~ In p a -> replace_first (p :: pat) (a ++ (p :: pat) ++ r) = a ++ r.
Proof.
  induction a as [|c a IH]; intros H.
  - apply (replace_first_app (p :: pat) r). discriminate.
  - cbn [app replace_first strip_prefix].
    destruct (N.eqb_spec c p) as [->|_]; [exfalso; apply H; now left|].
    f_equal. apply IH. intros X. apply H. now right.
Qed.

Lemma In_dropWhile p c (s : jsstring) : In c (dropWhile p s) -> In c s.
Proof.
  induction s as [|x s IH]; simpl; [tauto|].
  destruct (p x); [now right; apply IH|tauto].
Qed.

Lemma In_trim c s : In c (trim s) -> In c s.
Proof.
  unfold trim, trimEnd, trimStart. intros H.
  apply in_rev, In_dropWhile, in_rev in H. now apply In_dropWhile in H.
Qed.

Lemma words_acc_cons w c s :
  words_acc w (c :: s) =
  if isWhiteSpace c
  then match w with
       | [] => words_acc [] s
       | _ => w :: words_acc [] s
       end
  else words_acc (w ++ [c]) s.
Proof. reflexivity. Qed.

Lemma words_acc_trimEnd s : forall w, words_acc w (trimEnd s) = words_acc w s.
Proof.
  induction s as [|c s IH]; intros w; [reflexivity|].
  rewrite trimEnd_cons, (words_acc_cons w c s), <- !IH.
  destruct (trimEnd s) as [|x r].
  - destruct (isWhiteSpace c) eqn:W.
    + destruct w; reflexivity.
    + rewrite words_acc_cons, W. reflexivity.
  - now rewrite words_acc_cons.
Qed.

Lemma words_acc_trimStart s : words_acc [] (trimStart s) = words_acc [] s.
Proof.
  unfold trimStart. induction s as [|c s IH]; [reflexivity|].
  simpl. destruct (isWhiteSpace c) eqn:W; [exact IH|].
  simpl. now rewrite W.
Qed.

(** Trimming does not change the normal form. *)
Lemma cleanTitle_trim s : cleanTitle (trim s) = cleanTitle s.
Proof.
  rewrite !cleanTitle_normalize. unfold normalize_whitespace, words, trim.
  now rewrite words_acc_trimEnd, words_acc_trimStart.
Qed.

(** The steps from the project step on, over a title without [:], [+]
    and [>]: nothing is found, the title is cleaned. *)
Lemma plain_tail env t :
  ~ In 58%N t -> ~ In 43%N t -> ~ In 62%N t ->
  parseProject t = (None, t)
  /\ parseDue env t = Normal (None, t)
  /\ parseTags t = ([], t)
  /\ parseStatus t = (None, t).
Proof.
  intros H1 H2 H3. unfold parseProject, parseDue, parseTags, parseStatus.
  rewrite projectMatch_none, dueMatch_none, statusMatch_none by assumption.
  rewrite tagMatches_plusWords, plusWords_none by assumption.
  now repeat split.
Qed.

Ltac eval_lit b :=
  repeat match goal with
         | |- context [lit_ci ?p (?w ++ b)] =>
             let r := eval cbv in (lit_ci p (w ++ b)) in
             change (lit_ci p (w ++ b)) with r
         end.

(** The context pattern at an [@] followed by one of the six words and
    then no word character: it matches whatever stands before the [@]. *)
Lemma context_at_word prev w b :
  In w context_words -> startsWord b = false ->
  context_at prev (64%N :: w ++ b) = Some {| m0 := 64%N :: w; m1 := w |}.
Proof.
  intros Hw Hb. unfold context_at. change (N.eqb 64 64) with true. cbv iota.
  unfold context_words in *. cbn [first_alt In] in *.
  unfold word_then_boundary, orElse.
  repeat destruct Hw as [<-|Hw]; try contradiction; eval_lit b; cbv iota beta;
    unfold wordBoundary; rewrite isWordAt_hd, Hb; reflexivity.
Qed.

Lemma context_word_plain w c :
  In w context_words -> In c w -> isMarker c = false /\ toLowerCase w = w.
Proof.
  unfold context_words. cbn [In]. intros Hw Hc.
  repeat destruct Hw as [<-|Hw]; try contradiction;
    (split; [|reflexivity]);
    vm_compute in Hc; repeat destruct Hc as [<-|Hc]; try contradiction;
    reflexivity.
Qed.

End Families.

(** ** Inputs written as words and tokens: where a pattern can start *)

Section Openers.
Local Open Scope N_scope.

Ltac cu_bool :=
  unfold plainChar, looseChar, isMarker, isHML, isWordChar, isWhiteSpace,
    isDigit, in_range in *;
  repeat rewrite ?negb_true_iff, ?negb_false_iff, ?orb_true_iff,
    ?orb_false_iff, ?andb_true_iff, ?andb_false_iff, ?N.leb_le, ?N.leb_gt,
    ?N.eqb_eq, ?N.eqb_neq in *.

Lemma plain_not_space c : plainChar c = true -> isWhiteSpace c = false.
Proof.
  unfold plainChar. intros H. apply andb_true_iff in H as [H _].
  now apply negb_true_iff.
Qed.

Lemma plain_not_marker c : plainChar c = true -> isMarker c = false.
Proof.
  unfold plainChar. intros H. apply andb_true_iff in H as [_ H].
  now apply negb_true_iff.
Qed.

Lemma plain_loose c : plainChar c = true -> looseChar c = true.
Proof. intros H. cu_bool. tauto. Qed.

Lemma word_plain c : isWordChar c = true -> plainChar c = true.
Proof. intros H. cu_bool. lia. Qed.

Lemma marker_small p : isMarker p = true -> (p < 65)%N.
Proof. intros H. cu_bool. lia. Qed.

(** White space is no character of a pattern, in either case. *)
Lemma same_ci_space c p :
  (33 <= p <= 126)%N -> isWhiteSpace c = true -> same_ci c p = false.
Proof.
  intros Hp H. unfold same_ci, canonicalize, in_range. apply N.eqb_neq.
  destruct (N.leb_spec 97 c); destruct (N.leb_spec c 122);
    destruct (N.leb_spec 97 p); destruct (N.leb_spec p 122);
    cbn [andb]; cu_bool; lia.
Qed.

Lemma HML_word c : isHML c = true -> isWordChar c = true.
Proof.
  unfold isHML, same_ci, canonicalize. intros H.
  change (in_range 97 122 72) with false in H.
  change (in_range 97 122 77) with false in H.
  change (in_range 97 122 76) with false in H. cbv iota in H.
  unfold isWordChar. destruct (in_range 97 122 c) eqn:R; [reflexivity|].
  unfold in_range in *. cbn [orb].
  repeat rewrite ?orb_true_iff, ?andb_true_iff, ?N.leb_le, ?N.eqb_eq in *.
  lia.
Qed.

Lemma plain_avoiding pat c : plainChar c = true -> avoiding pat c.
Proof.
  intros H. split; [now apply plain_not_space|].
  intros p _ M ->. apply plain_not_marker in H. congruence.
Qed.

Lemma loose_avoiding pat c :
  In pat early_openers -> looseChar c = true -> avoiding pat c.
Proof.
  intros Hp H. split; [cu_bool; tauto|].
  unfold early_openers in Hp. cbn [In] in Hp.
  intros p Hin M ->.
  repeat destruct Hp as [<-|Hp]; try contradiction;
    vm_compute in Hin; repeat destruct Hin as [<-|Hin]; try contradiction;
    try discriminate M; vm_compute in H; discriminate H.
Qed.

(** A literal that holds a marker does not open in a stretch that avoids
    the marker, nor across its end when white space or nothing follows. *)
Lemma lit_ci_avoiding pat : forall w r,
  forallb (fun p => N.leb 33 p && N.leb p 126) pat = true ->
  existsb isMarker pat = true ->
  Forall (avoiding pat) w ->
  atGap r = true ->
  lit_ci pat (w ++ r) = None.
Proof.
  induction pat as [|p pat IH]; intros w r Hs Hm Hw Hr; [discriminate|].
  cbn [forallb] in Hs. apply andb_true_iff in Hs as [Hp Hs].
  apply andb_true_iff in Hp as [Hp1 Hp2].
  apply N.leb_le in Hp1. apply N.leb_le in Hp2.
  destruct w as [|c w].
  - destruct r as [|c r]; [reflexivity|]. cbn [app lit_ci].
    now rewrite same_ci_space.
  - cbn [app lit_ci]. destruct (same_ci c p) eqn:C; [|reflexivity].
    inversion Hw as [|? ? [Hc1 Hc2] Hw']; subst.
    destruct (isMarker p) eqn:M.
    + exfalso. apply (Hc2 p); [now left|exact M|].
      apply same_ci_marker; [now apply marker_small|exact C].
    + cbn [existsb] in Hm. rewrite M in Hm. cbn [orb] in Hm.
      rewrite IH; try assumption; [reflexivity|].
      eapply Forall_impl; [|exact Hw']. intros x [X1 X2].
      split; [exact X1|]. intros q Hq. apply X2. now right.
Qed.

Lemma openers_solid pat :
  In pat openers ->
  forallb (fun p => N.leb 33 p && N.leb p 126) pat = true
  /\ existsb isMarker pat = true
  /\ pat <> [].
Proof.
  unfold openers. cbn [In]. intros H.
  repeat destruct H as [<-|H]; try contradiction;
    (split; [reflexivity|split; [reflexivity|discriminate]]).
Qed.

(** Stretches where a literal does not open. *)
Lemma closed_nil pat s : closed pat [] s.
Proof.
  intros l0 l E Hl. symmetry in E. apply app_eq_nil in E as [_ ->].
  congruence.
Qed.

Lemma closed_cons pat c a s :
  lit_ci pat ((c :: a) ++ s) = None -> closed pat a s -> closed pat (c :: a) s.
Proof.
  intros H Ha l0 l E Hl. destruct l0 as [|x l0].
  - cbn [app] in E. now subst l.
  - injection E as _ E. now apply (Ha l0 l).
Qed.

Lemma closed_app pat a b s :
  closed pat a (b ++ s) -> closed pat b s -> closed pat (a ++ b) s.
Proof.
  induction a as [|c a IH]; intros Ha Hb; [exact Hb|].
  cbn [app]. apply closed_cons.
  - cbn [app]. rewrite <- app_assoc.
    apply (Ha [] (c :: a)); [reflexivity|discriminate].
  - apply IH; [|exact Hb]. intros l0 l E Hl.
    apply (Ha (c :: l0) l); [now rewrite E|exact Hl].
Qed.

Lemma closed_word pat w r :
  In pat openers -> Forall (avoiding pat) w -> atGap r = true ->
  closed pat w r.
Proof.
  intros Hp Hw Hr l0 l -> _. destruct (openers_solid _ Hp) as (S & M & _).
  apply lit_ci_avoiding; try assumption.
  apply Forall_app in Hw. tauto.
Qed.

Lemma closed_gap pat g s :
  In pat openers -> isGap g = true -> closed pat g s.
Proof.
  intros Hp. destruct (openers_solid _ Hp) as (S & _ & N).
  induction g as [|c g IH]; intros Hg; [apply closed_nil|].
  cbn [isGap forallb] in Hg. apply andb_true_iff in Hg as [Hc Hg].
  apply closed_cons; [|now apply IH].
  destruct pat as [|p pat]; [congruence|]. cbn [app lit_ci].
  cbn [forallb] in S. apply andb_true_iff in S as [S _].
  apply andb_true_iff in S as [S1 S2].
  apply N.leb_le in S1. apply N.leb_le in S2.
  now rewrite same_ci_space.
Qed.

(** The literal of another kind does not open in the literal a token
    starts with, whatever follows. *)
Lemma closed_lead pat k s :
  In pat openers -> lead k <> pat -> closed pat (lead k) s.
Proof.
  unfold openers. cbn [In]. intros Hp Hk.
  repeat destruct Hp as [<-|Hp]; try contradiction;
    destruct k; try (exfalso; apply Hk; reflexivity);
    repeat (apply closed_cons; [reflexivity|]); apply closed_nil.
Qed.

End Openers.

(** ** Inputs written as words and tokens: the layout *)

Section LayoutShape.
Local Open Scope N_scope.

Lemma oneOf_In ws v : oneOf ws v = true -> In v ws.
Proof.
  unfold oneOf. rewrite existsb_exists. intros (x & Hin & E).
  apply eqb_eq in E. now subst.
Qed.

Lemma nonEmpty_true (s : jsstring) : nonEmpty s = true -> s <> [].
Proof. destruct s; [discriminate|discriminate]. Qed.

Lemma lead_not_space k : forallb notWhiteSpace (lead k) = true.
Proof. now destruct k. Qed.

Lemma lead_inj k k' : lead k = lead k' -> k = k'.
Proof. destruct k, k'; intros H; solve [reflexivity | discriminate H]. Qed.

Lemma Kind_eqb_eq k k' : Kind_eqb k k' = true <-> k = k'.
Proof. destruct k, k'; simpl; split; congruence. Qed.

Lemma lead_not_bang k : lead k <> str "!".
Proof. destruct k; discriminate. Qed.

(** The value of a well-formed token holds no white space, no [:], no
    [!] and no [@], and is not empty. *)
Lemma value_loose k v :
  wellFormedValue k v = true -> forallb looseChar v = true /\ v <> [].
Proof.
  destruct k; cbn [wellFormedValue].
  - destruct v as [|c [|? ?]]; try discriminate. intros H.
    split; [|discriminate]. cbn [forallb].
    now rewrite (plain_loose _ (word_plain _ (HML_word _ H))).
  - intros H. apply oneOf_In in H. unfold context_words in H. cbn [In] in H.
    repeat destruct H as [<-|H]; try contradiction;
      (split; [reflexivity|discriminate]).
  - unfold looseWord. intros H. apply andb_true_iff in H as [N L].
    split; [exact L|now apply nonEmpty_true].
  - unfold looseWord. intros H. apply andb_true_iff in H as [N L].
    split; [exact L|now apply nonEmpty_true].
  - intros H. apply andb_true_iff in H as [N L].
    split; [|now apply nonEmpty_true].
    apply forallb_forall. intros c Hc.
    apply plain_loose, word_plain. rewrite forallb_forall in L. now apply L.
  - intros H. apply oneOf_In in H. unfold whole_status_words in H.
    cbn [In] in H.
    repeat destruct H as [<-|H]; try contradiction;
      (split; [reflexivity|discriminate]).
Qed.

Lemma loose_not_space c : looseChar c = true -> notWhiteSpace c = true.
Proof.
  unfold looseChar, notWhiteSpace. intros H.
  now apply andb_true_iff in H as [H _].
Qed.

(** The text of a well-formed item is a word: not empty, no white space. *)
Lemma itemText_good i : wellFormed i = true -> goodWord (itemText i).
Proof.
  destruct i as [w|k v]; cbn [wellFormed itemText]; intros H.
  - unfold plainWord in H. apply andb_true_iff in H as [N P].
    split; [now apply nonEmpty_true|].
    apply forallb_forall. intros c Hc. rewrite forallb_forall in P.
    apply loose_not_space, plain_loose. now apply P.
  - destruct (value_loose _ _ H) as [L N]. split.
    + intros E. apply app_eq_nil in E as [_ E]. contradiction.
    + rewrite forallb_app, lead_not_space. cbn [andb].
      apply forallb_forall. intros c Hc. rewrite forallb_forall in L.
      now apply loose_not_space, L.
Qed.

(** No literal of another kind opens in a well-formed item that white
    space or the end of the input follows: none at all when the value of
    the item is settled, none of the first four steps otherwise. *)
Lemma closed_item pat i r :
  In pat openers ->
  wellFormed i = true ->
  settled i = true \/ In pat early_openers ->
  (forall k v, i = Token k v -> lead k <> pat) ->
  atGap r = true ->
  closed pat (itemText i) r.
Proof.
  intros Hp Hw Hs Hk Hr. destruct i as [w|k v]; cbn [itemText].
  - apply closed_word; try assumption.
    cbn [wellFormed] in Hw. unfold plainWord in Hw.
    apply andb_true_iff in Hw as [_ P]. apply Forall_forall. intros c Hc.
    apply plain_avoiding. rewrite forallb_forall in P. now apply P.
  - apply closed_app.
    + apply closed_lead; [exact Hp|now apply (Hk k v)].
    + apply closed_word; try assumption.
      apply Forall_forall. intros c Hc. destruct Hs as [Hs|Hs].
      * apply plain_avoiding. cbn [settled] in Hs.
        rewrite forallb_forall in Hs. now apply Hs.
      * apply loose_avoiding; [exact Hs|].
        destruct (value_loose _ _ Hw) as [L _].
        rewrite forallb_forall in L. now apply L.
Qed.

Lemma render_app l1 l2 e : render (l1 ++ l2) e = render l1 (render l2 e).
Proof.
  induction l1 as [|[g i] l1 IH]; [reflexivity|].
  cbn [app render]. now rewrite IH.
Qed.

Lemma render_end l e1 e2 : render l (e1 ++ e2) = render l e1 ++ e2.
Proof.
  induction l as [|[g i] l IH]; [reflexivity|].
  cbn [render]. now rewrite IH, <- !app_assoc.
Qed.

Lemma render_from l e : render l e = render l [] ++ e.
Proof. now rewrite <- render_end. Qed.

Lemma gap_app g1 g2 : isGap (g1 ++ g2) = isGap g1 && isGap g2.
Proof. apply forallb_app. Qed.

Lemma atGap_gap g s : isGap g = true -> nonEmpty g = true -> atGap (g ++ s) = true.
Proof.
  destruct g as [|c g]; [discriminate|]. cbn [isGap forallb app atGap].
  intros H _. now apply andb_true_iff in H as [H _].
Qed.

Lemma atGap_end e : isGap e = true -> atGap e = true.
Proof.
  destruct e as [|c e]; [reflexivity|]. cbn [isGap forallb atGap].
  intros H. now apply andb_true_iff in H as [H _].
Qed.

(** After an item of the layout comes white space or the end. *)
Lemma atGap_render l e s :
  gapsOK false l = true -> isGap e = true ->
  (l = [] -> atGap (e ++ s) = true) ->
  atGap (render l e ++ s) = true.
Proof.
  destruct l as [|[g i] l]; intros G E H; [now apply H|].
  cbn [gapsOK orb] in G. apply andb_true_iff in G as [G _].
  apply andb_true_iff in G as [N G]. cbn [render].
  rewrite <- app_assoc. now apply atGap_gap.
Qed.

Lemma gapsOK_split l1 : forall b g i l2,
  gapsOK b (l1 ++ (g, i) :: l2) = true ->
  gapsOK b l1 = true /\ isGap g = true
  /\ (l1 = [] \/ nonEmpty g = true) /\ gapsOK false l2 = true.
Proof.
  induction l1 as [|[g0 i0] l1 IH]; intros b g i l2 H.
  - cbn [app gapsOK] in *. apply andb_true_iff in H as [H G].
    apply andb_true_iff in H as [_ H]. tauto.
  - cbn [app gapsOK] in *. apply andb_true_iff in H as [H G].
    destruct (IH _ _ _ _ G) as (G1 & Hg & [->|N] & G2).
    + cbn [app gapsOK orb] in G. apply andb_true_iff in G as [G _].
      apply andb_true_iff in G as [N _].
      rewrite H. repeat split; try assumption. right. exact N.
    + rewrite H, G1. repeat split; try assumption. now right.
Qed.

(** No opener of another kind opens in a stretch of the layout. *)
Lemma closed_render pat g s : forall l b,
  In pat openers ->
  gapsOK b l = true ->
  (forall i, In i (items l) ->
     wellFormed i = true
     /\ (settled i = true \/ In pat early_openers)
     /\ (forall k v, i = Token k v -> lead k <> pat)) ->
  isGap g = true ->
  l = [] \/ atGap (g ++ s) = true ->
  closed pat (render l g) s.
Proof.
  induction l as [|[g0 i] l IH]; intros b Hp G Hi Hg Hn.
  - now apply closed_gap.
  - cbn [gapsOK] in G. apply andb_true_iff in G as [G0 G].
    apply andb_true_iff in G0 as [_ G0].
    assert (N : atGap (g ++ s) = true)
      by (destruct Hn as [Hn|Hn]; [discriminate|exact Hn]).
    cbn [render]. apply closed_app; [now apply closed_gap|].
    destruct (Hi i (or_introl eq_refl)) as (W & S & K).
    apply closed_app.
    + apply closed_item; try assumption.
      apply atGap_render; try assumption. now intros _.
    + apply (IH false); try assumption; [|now right].
      intros x Hx. apply Hi. now right.
Qed.

(** The code unit before a token of the layout is no word character. *)
Lemma prevAfter_app prev (a b : jsstring) :
  prevAfter prev (a ++ b) = prevAfter (prevAfter prev a) b.
Proof. apply fold_left_app. Qed.

Lemma prevAfter_gap g : forall prev,
  isGap g = true -> isWordAt prev = false -> isWordAt (prevAfter prev g) = false.
Proof.
  induction g as [|c g IH]; intros prev G H; [exact H|].
  cbn [isGap forallb] in G. apply andb_true_iff in G as [C G].
  apply (IH (Some c)); [exact G|]. cbn [isWordAt].
  destruct (isWordChar c) eqn:W; [|reflexivity].
  apply word_not_space in W. congruence.
Qed.

Lemma prevAfter_render l g :
  isGap g = true -> l = [] \/ nonEmpty g = true ->
  isWordAt (prevAfter None (render l g)) = false.
Proof.
  intros G [->|N].
  - now apply prevAfter_gap.
  - rewrite render_from, prevAfter_app.
    destruct g as [|c g]; [discriminate|]. cbn [app].
    cbn [isGap forallb] in G. apply andb_true_iff in G as [C G].
    apply (prevAfter_gap g (Some c)); [exact G|]. cbn [isWordAt].
    destruct (isWordChar c) eqn:W; [|reflexivity].
    apply word_not_space in W. congruence.
Qed.

(** White space at the ends. *)
Lemma trim_gap e : isGap e = true -> trim e = [].
Proof.
  intros H. unfold trim, trimStart.
  replace (dropWhile isWhiteSpace e) with (@nil code_unit); [reflexivity|].
  induction e as [|c e IH]; [reflexivity|].
  cbn [isGap forallb] in H. apply andb_true_iff in H as [C H].
  cbn [dropWhile]. rewrite C. now apply IH.
Qed.

Lemma trimStart_gap g c s :
  isGap g = true -> isWhiteSpace c = false -> trimStart (g ++ c :: s) = c :: s.
Proof.
  unfold trimStart. induction g as [|x g IH]; intros G C.
  - cbn [app dropWhile]. now rewrite C.
  - cbn [isGap forallb] in G. apply andb_true_iff in G as [X G].
    cbn [app dropWhile]. rewrite X. now apply IH.
Qed.

Lemma trimStart_word g w s :
  isGap g = true -> w <> [] -> forallb notWhiteSpace w = true ->
  trimStart (g ++ w ++ s) = w ++ s.
Proof.
  intros G N H. destruct w as [|c w]; [congruence|].
  cbn [forallb] in H. apply andb_true_iff in H as [C _].
  unfold notWhiteSpace in C. apply negb_true_iff in C.
  now apply trimStart_gap.
Qed.

Lemma trimEnd_gap s e : isGap e = true -> trimEnd (s ++ e) = trimEnd s.
Proof.
  intros E. induction s as [|c s IH].
  - cbn [app]. change (trimEnd e) with (trimEnd (trimStart [] ++ e)).
    unfold trimEnd at 2. cbn [trimStart dropWhile rev].
    assert (T : forall g, isGap g = true -> trimEnd g = []).
    { clear. induction g as [|x g IH]; intros G; [reflexivity|].
      cbn [isGap forallb] in G. apply andb_true_iff in G as [X G].
      rewrite trimEnd_cons, (IH G). now rewrite X. }
    now apply T.
  - cbn [app]. now rewrite !trimEnd_cons, IH.
Qed.

Lemma trimEnd_word w :
  forallb notWhiteSpace w = true -> trimEnd w = w.
Proof.
  induction w as [|c w IH]; intros H; [reflexivity|].
  cbn [forallb] in H. apply andb_true_iff in H as [C H].
  rewrite trimEnd_cons, (IH H). unfold notWhiteSpace in C.
  apply negb_true_iff in C. rewrite C. now destruct w.
Qed.

Lemma trimEnd_app_word s w :
  w <> [] -> forallb notWhiteSpace w = true -> trimEnd (s ++ w) = s ++ w.
Proof.
  intros N H. induction s as [|c s IH]; [now apply trimEnd_word|].
  cbn [app]. rewrite trimEnd_cons, IH.
  destruct (s ++ w) eqn:E; [|reflexivity].
  apply app_eq_nil in E as [_ E]. contradiction.
Qed.

Lemma trimEnd_render l :
  forall s, l <> [] ->
  (forall i, In i (items l) -> wellFormed i = true) ->
  trimEnd (s ++ render l []) = s ++ render l [].
Proof.
  induction l as [|[g i] l IH]; intros s N W; [congruence|].
  cbn [render]. destruct l as [|x l].
  - cbn [render]. rewrite app_nil_r, app_assoc.
    destruct (itemText_good i) as [Ne Hs]; [apply W; now left|].
    now apply trimEnd_app_word.
  - rewrite !app_assoc. apply IH; [discriminate|].
    intros y Hy. apply W. now right.
Qed.

(** Trimming a laid-out title leaves its items as they are. *)
Lemma trim_render l e :
  gapsOK true l = true ->
  (forall i, In i (items l) -> wellFormed i = true) ->
  isGap e = true ->
  exists l', trim (render l e) = render l' []
             /\ items l' = items l /\ gapsOK true l' = true.
Proof.
  intros G W E. destruct l as [|[g i] l].
  - exists []. cbn [render]. now rewrite trim_gap.
  - exists (([], i) :: l). cbn [gapsOK orb] in *.
    apply andb_true_iff in G as [G0 G]. rewrite G.
    split; [|split; reflexivity].
    unfold trim. cbn [render].
    destruct (itemText_good i) as [Ne Hs]; [apply W; now left|].
    apply andb_true_iff in G0 as [_ G0].
    rewrite trimStart_word by assumption.
    rewrite (render_from l e), app_assoc, trimEnd_gap by exact E.
    apply (trimEnd_render (([], i) :: l) []); [discriminate|exact W].
Qed.

(** The title after a token is taken out: the white space around it
    becomes one gap. *)
Lemma render_without l1 g l2 e b :
  gapsOK b l1 = true -> isGap g = true -> gapsOK false l2 = true ->
  isGap e = true ->
  exists l' e',
    render l1 g ++ render l2 e = render l' e'
    /\ items l' = items l1 ++ items l2
    /\ gapsOK b l' = true /\ isGap e' = true.
Proof.
  intros G1 Hg G2 He. destruct l2 as [|[g2 i2] l2].
  - exists l1, (g ++ e). cbn [render items map]. rewrite app_nil_r.
    rewrite render_end, gap_app, Hg, He. now repeat split.
  - exists (l1 ++ (g ++ g2, i2) :: l2), e.
    rewrite render_app. cbn [render].
    rewrite (render_from l1 g), (render_from l1 ((g ++ g2) ++ _)).
    rewrite <- !app_assoc.
    split; [reflexivity|]. split; [unfold items; now rewrite map_app|].
    split; [|exact He].
    cbn [gapsOK orb] in G2. apply andb_true_iff in G2 as [G2 G2'].
    apply andb_true_iff in G2 as [N2 G2].
    clear - G1 G2 G2' N2 Hg.
    revert b G1. induction l1 as [|[g1 i1] l1 IH]; intros b G1.
    + cbn [app gapsOK]. rewrite gap_app, Hg, G2, G2'.
      destruct g2; [discriminate|]. destruct g; now rewrite orb_true_r.
    + cbn [app gapsOK] in *. apply andb_true_iff in G1 as [G G1].
      rewrite G. now apply IH.
Qed.

End LayoutShape.

(** ** Inputs written as words and tokens: one step *)

Section OneStep.
Local Open Scope N_scope.

Lemma firstOf_split k : forall (l : Layout) v,
  firstOf k (items l) = Some v ->
  exists l1 g l2,
    l = l1 ++ (g, Token k v) :: l2
    /\ (forall i, In i (items l1) -> ofKind k i = false)
    /\ dropFirst k (items l) = items l1 ++ items l2.
Proof.
  induction l as [|[g i] l IH]; intros v H; [discriminate|].
  cbn [items map snd firstOf] in H. destruct i as [w|k' v'].
  - destruct (IH _ H) as (l1 & g1 & l2 & -> & Hq & Hd).
    exists ((g, Plain w) :: l1), g1, l2. split; [reflexivity|]. split.
    + intros i [<-|Hi]; [reflexivity|now apply Hq].
    + unfold items in *. cbn [map snd dropFirst ofKind app] in *. now rewrite Hd.
  - destruct (Kind_eqb k k') eqn:E.
    + apply Kind_eqb_eq in E. subst k'. injection H as ->.
      exists [], g, l. split; [reflexivity|]. split; [intros i []|].
      unfold items. cbn [map snd dropFirst ofKind app].
      now rewrite (proj2 (Kind_eqb_eq k k) eq_refl).
    + destruct (IH _ H) as (l1 & g1 & l2 & -> & Hq & Hd).
      exists ((g, Token k' v') :: l1), g1, l2. split; [reflexivity|]. split.
      * intros i [<-|Hi]; [exact E|now apply Hq].
      * unfold items in *. cbn [map snd dropFirst ofKind app] in *.
        now rewrite E, Hd.
Qed.

Lemma firstOf_none k : forall its,
  firstOf k its = None ->
  (forall i, In i its -> ofKind k i = false) /\ dropFirst k its = its.
Proof.
  induction its as [|i its IH]; intros H; [split; [intros i []|reflexivity]|].
  cbn [firstOf] in H. destruct i as [w|k' v'].
  - destruct (IH H) as [Hq Hd]. split.
    + intros i [<-|Hi]; [reflexivity|now apply Hq].
    + cbn [dropFirst ofKind]. now rewrite Hd.
  - destruct (Kind_eqb k k') eqn:E; [discriminate|].
    destruct (IH H) as [Hq Hd]. split.
    + intros i [<-|Hi]; [exact E|now apply Hq].
    + cbn [dropFirst ofKind]. now rewrite E, Hd.
Qed.

Lemma In_dropFirst k i : forall its, In i (dropFirst k its) -> In i its.
Proof.
  induction its as [|x its IH]; [tauto|]. cbn [dropFirst].
  destruct (ofKind k x); [now right|].
  intros [<-|H]; [now left|right; now apply IH].
Qed.

Lemma lead_opener k : In (lead k) openers.
Proof. destruct k; unfold openers; cbn [In lead]; tauto. Qed.

Lemma other_kind_lead k i pat :
  ofKind k i = false -> pat = lead k \/ pat = str "!" ->
  forall k' v, i = Token k' v -> lead k' <> pat.
Proof.
  intros H [->| ->] k' v ->; [|apply lead_not_bang].
  intros E. apply lead_inj in E. subst k'. cbn [ofKind] in H.
  now rewrite (proj2 (Kind_eqb_eq k k) eq_refl) in H.
Qed.

Lemma lit_ci_exact pat s : lit_ci pat (pat ++ s) = Some (pat, s).
Proof.
  induction pat as [|p pat IH]; [reflexivity|]. cbn [app lit_ci].
  unfold same_ci. now rewrite N.eqb_refl, IH.
Qed.

(** [replace] passes over a stretch where the start of the text does not
    open, and deletes the text that follows the stretch. *)
Lemma replace_first_closed pat v r : forall a,
  pat <> [] ->
  closed pat a ((pat ++ v) ++ r) ->
  replace_first (pat ++ v) (a ++ (pat ++ v) ++ r) = a ++ r.
Proof.
  induction a as [|c a IH]; intros N H.
  - cbn [app]. apply replace_first_app. intros E.
    apply app_eq_nil in E as [E _]. contradiction.
  - cbn [app replace_first].
    destruct (strip_prefix (pat ++ v) (c :: a ++ (pat ++ v) ++ r))
      as [rest|] eqn:S.
    + exfalso. apply strip_prefix_Some in S.
      specialize (H [] (c :: a) eq_refl). cbn [app] in H.
      rewrite S, <- app_assoc, lit_ci_exact in H.
      now specialize (H ltac:(discriminate)).
    + f_equal. apply IH; [exact N|]. intros l0 l E Hl.
      apply (H (c :: l0) l); [now rewrite E|exact Hl].
Qed.

(** The layout with its first token of a kind in the middle. *)
Lemma render_split l1 g i l2 e :
  render (l1 ++ (g, i) :: l2) e = render l1 g ++ itemText i ++ render l2 e.
Proof.
  rewrite render_app. cbn [render].
  now rewrite (render_from l1 g), (render_from l1 (g ++ _)), <- app_assoc.
Qed.

Section OnePattern.

Variable at_ : option code_unit -> jsstring -> option Match.
Variable k : Kind.

(** The pattern opens with the literal of its kind, or with [!]. *)
Hypothesis opens : forall prev s m,
  at_ prev s = Some m ->
  lit_ci (lead k) s <> None \/ lit_ci (str "!") s <> None.

(** The pattern matches a well-formed token of its kind between white
    space, or the ends of the input. *)
Hypothesis hits : forall prev v r,
  wellFormedValue k v = true -> isWordAt prev = false -> atGap r = true ->
  at_ prev (lead k ++ v ++ r) = Some {| m0 := lead k ++ v; m1 := v |}.

Lemma stretch_closed l b g s pat :
  pat = lead k \/ pat = str "!" ->
  gapsOK b l = true -> isGap g = true ->
  (forall i, In i (items l) -> wellFormed i = true) ->
  (forall i, In i (items l) -> ofKind k i = false) ->
  In (lead k) early_openers
  \/ (forall i, In i (items l) -> settled i = true) ->
  l = [] \/ atGap (g ++ s) = true ->
  closed pat (render l g) s.
Proof.
  intros Hp G Hg W Q S N.
  assert (O : In pat openers).
  { destruct Hp as [->| ->]; [apply lead_opener|].
    unfold openers. cbn [In]. tauto. }
  apply (closed_render pat g s l b); try assumption.
  intros i Hi. split; [now apply W|]. split.
  - destruct S as [S|S]; [|left; now apply S]. right.
    destruct Hp as [->| ->]; [exact S|].
    unfold early_openers. cbn [In]. tauto.
  - now apply (other_kind_lead k i pat (Q i Hi)).
Qed.

(** The search finds the first token of the kind, and nothing when the
    kind is absent. *)
Lemma search_layout l e :
  laidOut l e ->
  In (lead k) early_openers
  \/ (forall i, In i (items l) -> settled i = true) ->
  search at_ None (render l e) =
  option_map (fun v => {| m0 := lead k ++ v; m1 := v |}) (firstOf k (items l)).
Proof.
  intros (G & E & W) S. destruct (firstOf k (items l)) as [v|] eqn:F.
  - destruct (firstOf_split _ _ _ F) as (l1 & g & l2 & -> & Q & _).
    destruct (gapsOK_split _ _ _ _ _ G) as (G1 & Hg & N & G2).
    rewrite render_split. cbn [option_map itemText].
    assert (W1 : forall i, In i (items l1) -> wellFormed i = true).
    { intros i Hi. apply W. unfold items. rewrite map_app.
      apply in_or_app. now left. }
    assert (S1 : In (lead k) early_openers
                 \/ (forall i, In i (items l1) -> settled i = true)).
    { destruct S as [S|S]; [now left|right]. intros i Hi. apply S.
      unfold items. rewrite map_app. apply in_or_app. now left. }
    assert (N' : forall s, l1 = [] \/ atGap (g ++ s) = true).
    { intros s. destruct N as [N|N]; [now left|right]. now apply atGap_gap. }
    rewrite search_skip.
    + apply search_first. rewrite <- app_assoc. apply hits.
      * apply (W (Token k v)). unfold items. rewrite map_app.
        apply in_or_app. right. now left.
      * apply prevAfter_render; [exact Hg|exact N].
      * rewrite <- (app_nil_r (render l2 e)).
        apply atGap_render; try assumption. intros _. rewrite app_nil_r.
        now apply atGap_end.
    + intros prev x Hx [l0 Hl0].
      destruct (at_ prev (x ++ (lead k ++ v) ++ render l2 e)) as [m|] eqn:A;
        [|reflexivity].
      exfalso. destruct (opens _ _ _ A) as [O|O]; apply O.
      * apply (stretch_closed l1 true g _ (lead k)) with (l0 := l0);
          try assumption; auto.
      * apply (stretch_closed l1 true g _ (str "!")) with (l0 := l0);
          try assumption; auto.
  - cbn [option_map]. destruct (firstOf_none _ _ F) as [Q _].
    rewrite <- (app_nil_r (render l e)). rewrite search_skip.
    + destruct (at_ (prevAfter None (render l e)) []) as [m|] eqn:A;
        [|now cbn [search]; rewrite A].
      exfalso. destruct (opens _ _ _ A) as [O|O]; apply O.
      * destruct (lead k) eqn:L; [now destruct k|reflexivity].
      * reflexivity.
    + intros prev x Hx [l0 Hl0].
      destruct (at_ prev (x ++ [])) as [m|] eqn:A; [|reflexivity].
      assert (N : l = [] \/ atGap (e ++ []) = true).
      { right. rewrite app_nil_r. now apply atGap_end. }
      exfalso. destruct (opens _ _ _ A) as [O|O]; apply O.
      * apply (stretch_closed l true e [] (lead k)) with (l0 := l0);
          try assumption; auto.
      * apply (stretch_closed l true e [] (str "!")) with (l0 := l0);
          try assumption; auto.
Qed.

End OnePattern.

(** Deleting the text of the first token of a kind, and trimming, leaves
    a layout of the other items. *)
Lemma remove_layout k l e v :
  laidOut l e ->
  In (lead k) early_openers
  \/ (forall i, In i (items l) -> settled i = true) ->
  firstOf k (items l) = Some v ->
  exists l',
    trim (replace_first (lead k ++ v) (render l e)) = render l' []
    /\ items l' = dropFirst k (items l)
    /\ laidOut l' [].
Proof.
  intros (G & E & W) S F.
  destruct (firstOf_split _ _ _ F) as (l1 & g & l2 & -> & Q & D).
  destruct (gapsOK_split _ _ _ _ _ G) as (G1 & Hg & N & G2).
  rewrite render_split. cbn [itemText].
  assert (W1 : forall i, In i (items l1) -> wellFormed i = true).
  { intros i Hi. apply W. unfold items. rewrite map_app.
    apply in_or_app. now left. }
  assert (W2 : forall i, In i (items l2) -> wellFormed i = true).
  { intros i Hi. apply W. unfold items. rewrite map_app.
    apply in_or_app. right. now right. }
  rewrite replace_first_closed.
  - destruct (render_without l1 g l2 e true G1 Hg G2 E)
      as (l' & e' & -> & I & G' & E').
    assert (W' : forall i, In i (items l') -> wellFormed i = true).
    { intros i Hi. rewrite I in Hi. apply in_app_or in Hi as [Hi|Hi]; auto. }
    destruct (trim_render l' e' G' W' E') as (l'' & -> & I'' & G'').
    exists l''. split; [reflexivity|]. split; [now rewrite I'', I, D|].
    split; [exact G''|]. split; [reflexivity|].
    intros i Hi. rewrite I'' in Hi. now apply W'.
  - now destruct k.
  - apply (closed_render (lead k) g _ l1 true); try assumption.
    + apply lead_opener.
    + intros i Hi. split; [now apply W1|]. split.
      * destruct S as [S|S]; [now right|left]. apply S.
        unfold items. rewrite map_app. apply in_or_app. now left.
      * apply (other_kind_lead k i (lead k) (Q i Hi)). now left.
    + destruct N as [N|N]; [now left|right]. now apply atGap_gap.
Qed.

End OneStep.

(** ** Inputs written as words and tokens: the six patterns *)

Section SixPatterns.
Local Open Scope N_scope.

Ltac eval_lit_at b :=
  repeat match goal with
         | |- context [lit_ci ?p (?w ++ b)] =>
             let r := eval cbv in (lit_ci p (w ++ b)) in
             change (lit_ci p (w ++ b)) with r
         end.

Lemma atGap_not_word r : atGap r = true -> startsWord r = false.
Proof.
  destruct r as [|c r]; [reflexivity|]. cbn [atGap startsWord]. intros H.
  destruct (isWordChar c) eqn:W; [|reflexivity].
  apply word_not_space in W. congruence.
Qed.

Lemma takeWhile_word p (v r : jsstring) :
  forallb p v = true ->
  match r with [] => True | c :: _ => p c = false end ->
  takeWhile p (v ++ r) = v.
Proof.
  induction v as [|c v IH]; intros H Hr.
  - destruct r as [|c r]; [reflexivity|]. cbn [app takeWhile]. now rewrite Hr.
  - cbn [forallb] in H. apply andb_true_iff in H as [C H].
    cbn [app takeWhile]. now rewrite C, IH.
Qed.

Lemma priority_opens prev s m :
  priority_at prev s = Some m ->
  lit_ci (lead KPriority) s <> None \/ lit_ci (str "!") s <> None.
Proof.
  unfold priority_at. destruct (wordBoundary prev s); [|discriminate].
  unfold orElse, priority_tail. cbn [lead].
  destruct (lit_ci (str "pri:") s); [left; discriminate|].
  destruct (lit_ci (str "!") s); [right; discriminate|discriminate].
Qed.

Lemma priority_hits prev v r :
  wellFormedValue KPriority v = true -> isWordAt prev = false ->
  atGap r = true ->
  priority_at prev (lead KPriority ++ v ++ r)
  = Some {| m0 := lead KPriority ++ v; m1 := v |}.
Proof.
  cbn [wellFormedValue]. destruct v as [|c [|? ?]]; try discriminate.
  intros H P R. unfold priority_at.
  assert (B : wordBoundary prev (lead KPriority ++ [c] ++ r) = true).
  { unfold wordBoundary. rewrite P. reflexivity. }
  rewrite B, lit_ci_exact. cbn [app priority_tail orElse].
  unfold wordBoundary. rewrite isWordAt_hd, (atGap_not_word _ R).
  cbn [isWordAt]. now rewrite H, (HML_word _ H).
Qed.

Lemma context_opens prev s m :
  context_at prev s = Some m ->
  lit_ci (lead KContext) s <> None \/ lit_ci (str "!") s <> None.
Proof.
  destruct s as [|c s]; [discriminate|]. unfold context_at.
  destruct (N.eqb_spec c 64) as [->|]; [|discriminate].
  intros _. left. discriminate.
Qed.

Lemma context_hits prev v r :
  wellFormedValue KContext v = true -> isWordAt prev = false ->
  atGap r = true ->
  context_at prev (lead KContext ++ v ++ r)
  = Some {| m0 := lead KContext ++ v; m1 := v |}.
Proof.
  cbn [wellFormedValue]. intros H _ R. apply oneOf_In in H.
  apply (context_at_word prev v r H). now apply atGap_not_word.
Qed.

Lemma keyword_opens k prev s m :
  keyword_at (lead k) prev s = Some m ->
  lit_ci (lead k) s <> None \/ lit_ci (str "!") s <> None.
Proof.
  unfold keyword_at. destruct (wordBoundary prev s); [|discriminate].
  destruct (lit_ci (lead k) s); [left; discriminate|discriminate].
Qed.

Lemma keyword_hits k prev v r :
  k = KProject \/ k = KDue ->
  wellFormedValue k v = true -> isWordAt prev = false ->
  atGap r = true ->
  keyword_at (lead k) prev (lead k ++ v ++ r)
  = Some {| m0 := lead k ++ v; m1 := v |}.
Proof.
  intros Hk H P R. destruct (value_loose _ _ H) as [L N].
  unfold keyword_at.
  assert (B : wordBoundary prev (lead k ++ v ++ r) = true).
  { unfold wordBoundary. rewrite P. now destruct Hk as [->| ->]. }
  rewrite B, lit_ci_exact, takeWhile_word.
  - destruct v; [congruence|reflexivity].
  - apply forallb_forall. intros c Hc. rewrite forallb_forall in L.
    now apply loose_not_space, L.
  - destruct r as [|c r]; [exact I|]. cbn [atGap] in R.
    unfold notWhiteSpace. now rewrite R.
Qed.

Lemma status_opens prev s m :
  status_at prev s = Some m ->
  lit_ci (lead KStatus) s <> None \/ lit_ci (str "!") s <> None.
Proof.
  destruct s as [|c s]; [discriminate|]. unfold status_at.
  destruct (N.eqb_spec c 62) as [->|]; [|discriminate].
  intros _. left. discriminate.
Qed.

Lemma status_hits prev v r :
  wellFormedValue KStatus v = true -> isWordAt prev = false ->
  atGap r = true ->
  status_at prev (lead KStatus ++ v ++ r)
  = Some {| m0 := lead KStatus ++ v; m1 := v |}.
Proof.
  cbn [wellFormedValue]. intros H _ _. apply oneOf_In in H.
  unfold whole_status_words in H. cbn [In] in H.
  change (lead KStatus ++ v ++ r) with (62 :: v ++ r).
  unfold status_at. change (N.eqb 62 62) with true. cbv iota.
  unfold status_words. cbn [first_alt]. unfold orElse.
  repeat destruct H as [<-|H]; try contradiction; eval_lit_at r; reflexivity.
Qed.

Lemma tag_opens s t : tag_at s = Some t -> lit_ci (lead KTag) s <> None.
Proof.
  destruct s as [|c s]; [discriminate|]. unfold tag_at.
  destruct (N.eqb_spec c 43) as [->|]; [|discriminate].
  intros _. discriminate.
Qed.

Lemma tag_hits v r :
  wellFormedValue KTag v = true -> atGap r = true ->
  tag_at (lead KTag ++ v ++ r) = Some (lead KTag ++ v).
Proof.
  cbn [wellFormedValue]. intros H R. apply andb_true_iff in H as [N H].
  change (lead KTag ++ v ++ r) with (43 :: v ++ r).
  unfold tag_at. change (N.eqb 43 43) with true. cbv iota.
  rewrite takeWhile_word.
  - destruct v; [discriminate|reflexivity].
  - exact H.
  - destruct r as [|c r]; [exact I|]. apply atGap_not_word in R. exact R.
Qed.

End SixPatterns.

(** ** Inputs written as words and tokens: the steps in turn *)

Section ItemLists.

Lemma Kind_eqb_sym k k' : Kind_eqb k k' = Kind_eqb k' k.
Proof. now destruct k, k'. Qed.

Lemma Kind_eqb_other k k' i :
  Kind_eqb k k' = false -> ofKind k i = true -> ofKind k' i = false.
Proof.
  destruct i as [w|x v]; [discriminate|]. cbn [ofKind]. intros N H.
  apply Kind_eqb_eq in H. subst x. now rewrite Kind_eqb_sym.
Qed.

Lemma firstOf_cons k i its :
  firstOf k (i :: its) =
  if ofKind k i
  then match i with Token _ v => Some v | Plain _ => None end
  else firstOf k its.
Proof. destruct i as [w|k' v]; cbn [firstOf ofKind]; reflexivity. Qed.

Lemma allOf_cons k i its :
  allOf k (i :: its) =
  if ofKind k i
  then match i with Token _ v => v :: allOf k its | Plain _ => allOf k its end
  else allOf k its.
Proof.
  destruct i as [w|k' v]; cbn [allOf ofKind]; [reflexivity|].
  now destruct (Kind_eqb k k').
Qed.

Lemma firstOf_dropFirst k k' : forall its,
  Kind_eqb k k' = false -> firstOf k (dropFirst k' its) = firstOf k its.
Proof.
  intros its N. induction its as [|i its IH]; [reflexivity|].
  cbn [dropFirst]. destruct (ofKind k' i) eqn:E.
  - rewrite firstOf_cons, (Kind_eqb_other k' k i); [reflexivity| |exact E].
    now rewrite Kind_eqb_sym.
  - rewrite !firstOf_cons, IH. reflexivity.
Qed.

Lemma allOf_dropFirst k k' : forall its,
  Kind_eqb k k' = false -> allOf k (dropFirst k' its) = allOf k its.
Proof.
  intros its N. induction its as [|i its IH]; [reflexivity|].
  cbn [dropFirst]. destruct (ofKind k' i) eqn:E.
  - rewrite allOf_cons, (Kind_eqb_other k' k i); [reflexivity| |exact E].
    now rewrite Kind_eqb_sym.
  - rewrite !allOf_cons, IH. reflexivity.
Qed.

Lemma firstOf_dropAll k k' : forall its,
  Kind_eqb k k' = false -> firstOf k (dropAll k' its) = firstOf k its.
Proof.
  intros its N. unfold dropAll. induction its as [|i its IH]; [reflexivity|].
  cbn [filter]. destruct (ofKind k' i) eqn:E; cbn [negb].
  - rewrite firstOf_cons, (Kind_eqb_other k' k i); [exact IH| |exact E].
    now rewrite Kind_eqb_sym.
  - rewrite !firstOf_cons, IH. reflexivity.
Qed.

Lemma dropFirst_comm k k' : forall its,
  dropFirst k (dropFirst k' its) = dropFirst k' (dropFirst k its).
Proof.
  induction its as [|i its IH]; [reflexivity|].
  cbn [dropFirst]. destruct (ofKind k' i) eqn:E', (ofKind k i) eqn:E;
    cbn [dropFirst]; rewrite ?E, ?E'; try reflexivity.
  - destruct i as [w|x v]; [discriminate|]. cbn [ofKind] in *.
    apply Kind_eqb_eq in E. apply Kind_eqb_eq in E'. now subst.
  - now rewrite IH.
Qed.

Lemma In_dropAll k i its : In i (dropAll k its) -> In i its.
Proof. unfold dropAll. intros H. now apply filter_In in H as [H _]. Qed.

(** The first token of a kind, and the others. *)
Lemma allOf_first k : forall its t ts,
  allOf k its = t :: ts ->
  firstOf k its = Some t
  /\ allOf k (dropFirst k its) = ts
  /\ dropAll k (dropFirst k its) = dropAll k its.
Proof.
  induction its as [|i its IH]; intros t ts H; [discriminate|].
  rewrite allOf_cons in H. rewrite firstOf_cons. cbn [dropFirst].
  unfold dropAll in *. cbn [filter].
  destruct (ofKind k i) eqn:E; cbn [negb].
  - destruct i as [w|x v]; [discriminate|]. injection H as -> <-. tauto.
  - destruct (IH _ _ H) as (F & A & D). rewrite allOf_cons, E. cbn [filter].
    rewrite E. cbn [negb]. now rewrite D.
Qed.

Lemma allOf_nil k : forall its, allOf k its = [] -> dropAll k its = its.
Proof.
  unfold dropAll. induction its as [|i its IH]; intros H; [reflexivity|].
  rewrite allOf_cons in H. cbn [filter].
  destruct (ofKind k i) eqn:E; cbn [negb].
  - destruct i as [w|x v]; [discriminate|discriminate].
  - now rewrite IH.
Qed.

End ItemLists.

Section Steps.
Local Open Scope N_scope.

Lemma early_lead k :
  k = KPriority \/ k = KContext \/ k = KProject \/ k = KDue ->
  In (lead k) early_openers.
Proof.
  unfold early_openers. cbn [In].
  intros [->|[->|[->| ->]]]; cbn [lead]; tauto.
Qed.

Lemma parsePriority_layout l e :
  laidOut l e ->
  exists l' e',
    parsePriority (render l e)
    = (match firstOf KPriority (items l) with
       | Some v => priorityOfValue v
       | None => None
       end, render l' e')
    /\ items l' = dropFirst KPriority (items l)
    /\ laidOut l' e'.
Proof.
  intros L. unfold parsePriority, priorityMatch.
  assert (S : In (lead KPriority) early_openers
              \/ (forall i, In i (items l) -> settled i = true))
    by (left; apply early_lead; tauto).
  rewrite (search_layout priority_at KPriority priority_opens priority_hits
             l e L S).
  destruct (firstOf KPriority (items l)) as [v|] eqn:F; cbn [option_map].
  - cbn [m0 m1].
    destruct (remove_layout KPriority l e v L S F) as (l' & R & I & L').
    exists l', []. rewrite R. split; [reflexivity|]. now split.
  - exists l, e. split; [reflexivity|]. split; [|exact L].
    symmetry. now apply firstOf_none.
Qed.

Lemma parseContext_layout l e :
  laidOut l e ->
  exists l' e',
    parseContext (render l e)
    = (option_map (fun v => str "@" ++ toLowerCase v)
         (firstOf KContext (items l)), render l' e')
    /\ items l' = dropFirst KContext (items l)
    /\ laidOut l' e'.
Proof.
  intros L. unfold parseContext, contextMatch.
  assert (S : In (lead KContext) early_openers
              \/ (forall i, In i (items l) -> settled i = true))
    by (left; apply early_lead; tauto).
  rewrite (search_layout context_at KContext context_opens context_hits
             l e L S).
  destruct (firstOf KContext (items l)) as [v|] eqn:F; cbn [option_map].
  - cbn [m0 m1].
    destruct (remove_layout KContext l e v L S F) as (l' & R & I & L').
    exists l', []. rewrite R. split; [reflexivity|]. now split.
  - exists l, e. split; [reflexivity|]. split; [|exact L].
    symmetry. now apply firstOf_none.
Qed.

Lemma parseProject_layout l e :
  laidOut l e ->
  exists l' e',
    parseProject (render l e) = (firstOf KProject (items l), render l' e')
    /\ items l' = dropFirst KProject (items l)
    /\ laidOut l' e'.
Proof.
  intros L. unfold parseProject, projectMatch.
  assert (S : In (lead KProject) early_openers
              \/ (forall i, In i (items l) -> settled i = true))
    by (left; apply early_lead; tauto).
  change (str "pro:") with (lead KProject).
  rewrite (search_layout (keyword_at (lead KProject)) KProject
             (keyword_opens KProject)
             (fun prev v r => keyword_hits KProject prev v r
                                (or_introl eq_refl))
             l e L S).
  destruct (firstOf KProject (items l)) as [v|] eqn:F; cbn [option_map].
  - cbn [m0 m1].
    destruct (remove_layout KProject l e v L S F) as (l' & R & I & L').
    exists l', []. rewrite R. split; [reflexivity|]. now split.
  - exists l, e. split; [reflexivity|]. split; [|exact L].
    symmetry. now apply firstOf_none.
Qed.

Lemma parseDue_layout env l e :
  laidOut l e ->
  exists l' e',
    parseDue env (render l e)
    = (d <- dueOfItems env (items l) ;; Normal (d, render l' e'))
    /\ items l' = dropFirst KDue (items l)
    /\ laidOut l' e'.
Proof.
  intros L. unfold parseDue, dueMatch, dueOfItems.
  assert (S : In (lead KDue) early_openers
              \/ (forall i, In i (items l) -> settled i = true))
    by (left; apply early_lead; tauto).
  change (str "due:") with (lead KDue).
  rewrite (search_layout (keyword_at (lead KDue)) KDue
             (keyword_opens KDue)
             (fun prev v r => keyword_hits KDue prev v r
                                (or_intror eq_refl))
             l e L S).
  destruct (firstOf KDue (items l)) as [v|] eqn:F; cbn [option_map].
  - cbn [m0 m1].
    destruct (remove_layout KDue l e v L S F) as (l' & R & I & L').
    exists l', []. rewrite R. split; [reflexivity|]. now split.
  - exists l, e. split; [reflexivity|]. split; [|exact L].
    symmetry. now apply firstOf_none.
Qed.

Lemma parseStatus_layout l e :
  laidOut l e ->
  (forall i, In i (items l) -> settled i = true) ->
  exists l' e',
    parseStatus (render l e)
    = (match firstOf KStatus (items l) with
       | Some v => statusOfValue v
       | None => None
       end, render l' e')
    /\ items l' = dropFirst KStatus (items l)
    /\ laidOut l' e'.
Proof.
  intros L St. unfold parseStatus, statusMatch.
  assert (S : In (lead KStatus) early_openers
              \/ (forall i, In i (items l) -> settled i = true))
    by (now right).
  rewrite (search_layout status_at KStatus status_opens status_hits
             l e L S).
  destruct (firstOf KStatus (items l)) as [v|] eqn:F; cbn [option_map].
  - cbn [m0 m1].
    destruct (remove_layout KStatus l e v L S F) as (l' & R & I & L').
    exists l', []. rewrite R. split; [reflexivity|]. now split.
  - exists l, e. split; [reflexivity|]. split; [|exact L].
    symmetry. now apply firstOf_none.
Qed.

(** The occurrences of [+<word>] in a settled layout are its tag tokens. *)
Lemma closed_tail pat c a s : closed pat (c :: a) s -> closed pat a s.
Proof.
  intros H l0 l E Hl. apply (H (c :: l0) l); [now rewrite E|exact Hl].
Qed.

Lemma plusWords_closed s : forall a,
  closed (lead KTag) a s -> plusWords (a ++ s) = plusWords s.
Proof.
  induction a as [|c a IH]; intros H; [reflexivity|].
  cbn [app plusWords].
  destruct (tag_at (c :: a ++ s)) as [t|] eqn:T.
  - exfalso. apply tag_opens in T. apply T.
    apply (H [] (c :: a)); [reflexivity|discriminate].
  - apply IH. now apply closed_tail in H.
Qed.

Lemma plusWords_layout e : forall l b,
  gapsOK b l = true -> isGap e = true ->
  (forall i, In i (items l) -> wellFormed i = true) ->
  (forall i, In i (items l) -> settled i = true) ->
  plusWords (render l e) = map (app (lead KTag)) (allOf KTag (items l)).
Proof.
  induction l as [|[g i] l IH]; intros b G E W S.
  - cbn [render items map allOf]. rewrite <- (app_nil_r e).
    rewrite plusWords_closed; [reflexivity|].
    apply closed_gap; [apply lead_opener|exact E].
  - cbn [gapsOK] in G. apply andb_true_iff in G as [G0 G].
    apply andb_true_iff in G0 as [_ G0]. cbn [render].
    rewrite plusWords_closed by (apply closed_gap; [apply lead_opener|exact G0]).
    assert (R : atGap (render l e) = true).
    { rewrite <- (app_nil_r (render l e)).
      apply atGap_render; try assumption. intros _. rewrite app_nil_r.
      now apply atGap_end. }
    assert (IH' : plusWords (render l e)
                  = map (app (lead KTag)) (allOf KTag (items l))).
    { apply (IH false); try assumption; intros x Hx;
        [apply W|apply S]; now right. }
    unfold items in *. cbn [map snd]. rewrite allOf_cons.
    destruct (ofKind KTag i) eqn:K.
    + destruct i as [w|k v]; [discriminate|]. cbn [ofKind] in K.
      apply Kind_eqb_eq in K. subst k. cbn [itemText map].
      assert (Wv : wellFormedValue KTag v = true)
        by (apply (W (Token KTag v)); now left).
      rewrite <- app_assoc.
      change (lead KTag ++ v ++ render l e) with (43 :: v ++ render l e).
      cbn [plusWords].
      change (43 :: v ++ render l e) with (lead KTag ++ v ++ render l e).
      rewrite (tag_hits v _ Wv R). f_equal.
      rewrite plusWords_word; [exact IH'|].
      cbn [wellFormedValue] in Wv. now apply andb_true_iff in Wv as [_ ?].
    + rewrite plusWords_closed; [exact IH'|].
      apply closed_item; try assumption.
      * apply lead_opener.
      * apply W. now left.
      * left. apply S. now left.
      * apply (other_kind_lead KTag i (lead KTag) K). now left.
Qed.

(** The loop of the tag step takes the tag tokens out one by one. *)
Lemma tag_loop_layout : forall ts l e acc,
  laidOut l e ->
  (forall i, In i (items l) -> settled i = true) ->
  allOf KTag (items l) = ts ->
  exists l' e',
    fold_left tagStep (map (app (lead KTag)) ts) (acc, render l e)
    = (acc ++ ts, render l' e')
    /\ items l' = dropAll KTag (items l)
    /\ laidOut l' e'.
Proof.
  induction ts as [|t ts IH]; intros l e acc L S A.
  - exists l, e. cbn [map fold_left]. rewrite app_nil_r.
    split; [reflexivity|]. split; [|exact L]. symmetry. now apply allOf_nil.
  - destruct (allOf_first _ _ _ _ A) as (F & A' & D).
    destruct (remove_layout KTag l e t L (or_intror S) F) as (l1 & R & I & L1).
    cbn [map fold_left tagStep]. rewrite R.
    change (slice_1 (lead KTag ++ t)) with t.
    assert (S1 : forall i, In i (items l1) -> settled i = true).
    { intros i Hi. apply S. rewrite I in Hi. now apply In_dropFirst in Hi. }
    rewrite <- I in A', D.
    destruct (IH l1 [] (acc ++ [t]) L1 S1 A') as (l' & e' & Fo & I' & L').
    exists l', e'. rewrite Fo, <- app_assoc. split; [reflexivity|].
    split; [now rewrite I', D|exact L'].
Qed.

Lemma parseTags_layout l e :
  laidOut l e ->
  (forall i, In i (items l) -> settled i = true) ->
  exists l' e',
    parseTags (render l e) = (allOf KTag (items l), render l' e')
    /\ items l' = dropAll KTag (items l)
    /\ laidOut l' e'.
Proof.
  intros L S. unfold parseTags. rewrite tagMatches_plusWords.
  destruct L as (G & E & W).
  rewrite (plusWords_layout e l true G E W S).
  apply (tag_loop_layout _ l e []); [now repeat split|exact S|reflexivity].
Qed.

(** The words of a laid-out title are the texts of its items. *)
Lemma words_acc_gap g s : isGap g = true -> words_acc [] (g ++ s) = words_acc [] s.
Proof.
  induction g as [|c g IH]; intros G; [reflexivity|].
  cbn [isGap forallb] in G. apply andb_true_iff in G as [C G].
  cbn [app]. rewrite words_acc_cons, C. now apply IH.
Qed.

Lemma words_acc_word w r :
  goodWord w -> atGap r = true ->
  words_acc [] (w ++ r) = w :: words_acc [] r.
Proof.
  intros [N H] R. rewrite words_acc_app by exact H. cbn [app].
  destruct r as [|c r].
  - cbn [words_acc]. now destruct w.
  - cbn [atGap] in R. rewrite !words_acc_cons, R. now destruct w.
Qed.

Lemma words_layout e : forall l b,
  gapsOK b l = true -> isGap e = true ->
  (forall i, In i (items l) -> wellFormed i = true) ->
  words (render l e) = map itemText (items l).
Proof.
  unfold words. induction l as [|[g i] l IH]; intros b G E W.
  - cbn [render items map]. rewrite <- (app_nil_r e).
    now rewrite words_acc_gap.
  - cbn [gapsOK] in G. apply andb_true_iff in G as [G0 G].
    apply andb_true_iff in G0 as [_ G0]. cbn [render].
    rewrite words_acc_gap by exact G0.
    rewrite words_acc_word.
    + unfold items in *. cbn [map snd]. f_equal.
      apply (IH false); try assumption. intros x Hx. apply W. now right.
    + apply itemText_good, W. now left.
    + rewrite <- (app_nil_r (render l e)).
      apply atGap_render; try assumption. intros _. rewrite app_nil_r.
      now apply atGap_end.
Qed.

Lemma cleanTitle_layout l e :
  laidOut l e -> cleanTitle (render l e) = join_words (map itemText (items l)).
Proof.
  intros (G & E & W). rewrite cleanTitle_normalize.
  unfold normalize_whitespace. now rewrite (words_layout e l true).
Qed.

(** The whole parser on a laid-out input. *)
Lemma parse_layout env l e :
  laidOut l e ->
  (forall i, In i (dropFirst KDue (dropFirst KProject (items l))) ->
     settled i = true) ->
  parseTaskInput env (render l e) = itemsResult env (items l).
Proof.
  intros L0 St. rewrite parseTaskInput_unfold. unfold titleAtDue, finishTitle.
  destruct (parsePriority_layout l e L0) as (l1 & e1 & P1 & I1 & L1).
  rewrite P1. cbn [fst snd].
  destruct (parseContext_layout l1 e1 L1) as (l2 & e2 & P2 & I2 & L2).
  rewrite P2. cbn [fst snd].
  destruct (parseProject_layout l2 e2 L2) as (l3 & e3 & P3 & I3 & L3).
  rewrite P3. cbn [fst snd].
  destruct (parseDue_layout env l3 e3 L3) as (l4 & e4 & P4 & I4 & L4).
  rewrite P4.
  assert (S4 : forall i, In i (items l4) -> settled i = true).
  { intros i Hi. apply St. rewrite I4, I3, I2, I1 in Hi.
    rewrite (dropFirst_comm KProject KContext) in Hi.
    rewrite (dropFirst_comm KDue KContext) in Hi.
    apply In_dropFirst in Hi.
    rewrite (dropFirst_comm KProject KPriority) in Hi.
    rewrite (dropFirst_comm KDue KPriority) in Hi.
    now apply In_dropFirst in Hi. }
  destruct (parseTags_layout l4 e4 L4 S4) as (l5 & e5 & P5 & I5 & L5).
  assert (S5 : forall i, In i (items l5) -> settled i = true).
  { intros i Hi. apply S4. rewrite I5 in Hi. now apply In_dropAll in Hi. }
  destruct (parseStatus_layout l5 e5 L5 S5) as (l6 & e6 & P6 & I6 & L6).
  unfold itemsResult, dueOfItems.
  rewrite I3, I2, I1.
  rewrite !firstOf_dropFirst by reflexivity.
  destruct (match firstOf KDue (items l) with
            | Some v => resolveDue env (toLowerCase v)
            | None => Normal None
            end) as [d|err]; [|reflexivity].
  cbn [bind fst snd]. rewrite P5. cbn [fst snd]. rewrite P6. cbn [fst snd].
  rewrite (cleanTitle_layout l6 e6 L6).
  rewrite I6, I5, I4, I3, I2, I1.
  rewrite firstOf_dropAll by reflexivity.
  rewrite !firstOf_dropFirst by reflexivity.
  rewrite !allOf_dropFirst by reflexivity.
  reflexivity.
Qed.

End Steps.

(** ** Inputs written as words and tokens: reading the input *)

Section Reading.
Local Open Scope N_scope.

Lemma classifyAs_sound ks w i :
  classifyAs ks w = Some i -> itemText i = w /\ wellFormed i = true.
Proof.
  induction ks as [|k ks IH]; [discriminate|]. cbn [classifyAs].
  destruct (strip_prefix (lead k) w) as [v|] eqn:S; [|exact IH].
  destruct (wellFormedValue k v) eqn:V; [|discriminate].
  intros H. injection H as <-. apply strip_prefix_Some in S.
  now split.
Qed.

Lemma classify_sound w i :
  classify w = Some i -> itemText i = w /\ wellFormed i = true.
Proof.
  unfold classify. destruct (plainWord w) eqn:P.
  - intros H. injection H as <-. now split.
  - apply classifyAs_sound.
Qed.

Lemma dropWhile_head p (s : jsstring) c r :
  dropWhile p s = c :: r -> p c = false.
Proof.
  induction s as [|x s IH]; [discriminate|]. cbn [dropWhile].
  destruct (p x) eqn:E; [exact IH|]. intros H. now injection H as <- _.
Qed.

(** Every input is a layout of its words. *)
Lemma layout_of_words : forall n s b its,
  (List.length s <= n)%nat ->
  (b = false -> atGap s = true) ->
  classifyAll (words s) = Some its ->
  exists l e,
    s = render l e /\ items l = its /\ gapsOK b l = true
    /\ isGap e = true /\ (forall i, In i its -> wellFormed i = true).
Proof.
  induction n as [|n IH]; intros s b its Hn Hb H.
  - destruct s; [|cbn [List.length] in Hn; lia].
    cbn in H. injection H as <-. exists [], []. now repeat split.
  - pose proof (takeWhile_dropWhile isWhiteSpace s) as D.
    pose proof (takeWhile_all isWhiteSpace s) as G.
    destruct (dropWhile isWhiteSpace s) as [|c rest] eqn:R.
    + rewrite app_nil_r in D. unfold words in H.
      rewrite <- (app_nil_r s), words_acc_gap in H by now rewrite D.
      cbn in H. injection H as <-. exists [], s.
      repeat split; [now rewrite D|intros i []].
    + pose proof (dropWhile_head _ _ _ _ R) as C.
      pose proof (takeWhile_dropWhile notWhiteSpace (c :: rest)) as D'.
      pose proof (takeWhile_all notWhiteSpace (c :: rest)) as W.
      set (g := takeWhile isWhiteSpace s) in *.
      set (w := takeWhile notWhiteSpace (c :: rest)) in *.
      set (s' := dropWhile notWhiteSpace (c :: rest)) in *.
      assert (Nw : w <> []).
      { unfold w. cbn [takeWhile]. unfold notWhiteSpace at 1.
        rewrite C. discriminate. }
      assert (A : atGap s' = true).
      { destruct s' as [|x r'] eqn:E; [reflexivity|].
        apply dropWhile_head in E. unfold notWhiteSpace in E.
        now apply negb_false_iff in E. }
      assert (Ls : (List.length s' <= n)%nat).
      { rewrite D, D', !length_app in Hn.
        destruct w; [congruence|]. cbn [List.length] in Hn. lia. }
      unfold words in H. rewrite D, D' in H.
      rewrite words_acc_gap, words_acc_word in H by (try split; assumption).
      cbn [classifyAll] in H.
      destruct (classify w) as [i|] eqn:Ci; [|discriminate].
      destruct (classifyAll (words_acc [] s')) as [its'|] eqn:Ca;
        [|discriminate].
      injection H as <-.
      destruct (IH s' false its' Ls (fun _ => A) Ca)
        as (l & e & E1 & E2 & E3 & E4 & E5).
      destruct (classify_sound _ _ Ci) as [T Wi].
      exists ((g, i) :: l), e. cbn [render items map snd gapsOK].
      split; [now rewrite T, <- E1, <- D'|].
      split; [unfold items in E2; now rewrite E2|].
      split; [|split; [exact E4|]].
      * change (isGap g = true) in G.
        rewrite G, E3, !andb_true_r. destruct b; [reflexivity|].
        cbn [orb]. destruct g as [|x g']; [|reflexivity].
        specialize (Hb eq_refl). rewrite D in Hb. cbn [app atGap] in Hb.
        congruence.
      * intros x [<-|Hx]; [exact Wi|now apply E5].
Qed.

(** The parser on an input that reads as words and tokens. *)
Lemma parse_items env input its :
  readItems input = Some its ->
  parseTaskInput env input = itemsResult env its.
Proof.
  unfold readItems.
  destruct (classifyAll (words input)) as [its'|] eqn:C; [|discriminate].
  destruct (forallb settled (dropFirst KDue (dropFirst KProject its')))
    eqn:S; [|discriminate].
  intros H. injection H as <-.
  destruct (layout_of_words (List.length input) input true its'
              (le_n _) (fun X => ltac:(discriminate X)) C)
    as (l & e & -> & I & G & E & W).
  rewrite <- I. apply parse_layout.
  - repeat split; try assumption. now rewrite I.
  - rewrite I. now apply forallb_forall.
Qed.

End Reading.

(** ** Inputs written as words and tokens: the returned title *)

Section ReturnedTitle.
Local Open Scope N_scope.

Lemma classifyAll_sound : forall ws its,
  classifyAll ws = Some its ->
  (forall i, In i its -> wellFormed i = true) /\ map itemText its = ws.
Proof.
  induction ws as [|w ws IH]; intros its H.
  - injection H as <-. split; [intros i []|reflexivity].
  - cbn [classifyAll] in H.
    destruct (classify w) as [i|] eqn:C; [|discriminate].
    destruct (classifyAll ws) as [r|] eqn:A; [|discriminate].
    injection H as <-. destruct (classify_sound _ _ C) as [T W].
    destruct (IH r eq_refl) as [Wr Tr]. split.
    + intros x [<-|Hx]; [exact W|now apply Wr].
    + cbn [map]. now rewrite T, Tr.
Qed.

Lemma readItems_sound input its :
  readItems input = Some its ->
  (forall i, In i its -> wellFormed i = true)
  /\ (forall i, In i (dropFirst KDue (dropFirst KProject its)) ->
        settled i = true)
  /\ map itemText its = words input.
Proof.
  unfold readItems.
  destruct (classifyAll (words input)) as [its'|] eqn:C; [|discriminate].
  destruct (forallb settled (dropFirst KDue (dropFirst KProject its')))
    eqn:S; [|discriminate].
  intros H. injection H as <-. destruct (classifyAll_sound _ _ C) as [W T].
  repeat split; try assumption. now apply forallb_forall.
Qed.

(** What is left over was in the input, is no tag, and is settled when
    the input reads as items. *)
Lemma In_leftover i its :
  In i (leftover its) ->
  In i its /\ ofKind KTag i = false
  /\ In i (dropFirst KDue (dropFirst KProject its)).
Proof.
  unfold leftover. intros H. apply In_dropFirst in H.
  unfold dropAll in H. apply filter_In in H as [H T].
  apply negb_true_iff in T. split; [|split; [exact T|]].
  - now do 4 apply In_dropFirst in H.
  - rewrite (dropFirst_comm KProject KContext) in H.
    rewrite (dropFirst_comm KDue KContext) in H.
    apply In_dropFirst in H.
    rewrite (dropFirst_comm KProject KPriority) in H.
    rewrite (dropFirst_comm KDue KPriority) in H.
    now apply In_dropFirst in H.
Qed.

Lemma leftover_good input its :
  readItems input = Some its ->
  Forall goodWord (map itemText (leftover its)).
Proof.
  intros R. destruct (readItems_sound _ _ R) as (W & _ & _).
  apply Forall_forall. intros w Hw. apply in_map_iff in Hw as (i & <- & Hi).
  apply itemText_good, W. now apply In_leftover in Hi.
Qed.

(** The words of the returned title are the items left over. *)
Lemma title_words env input its p :
  readItems input = Some its ->
  parseTaskInput env input = Normal p ->
  title p = join_words (map itemText (leftover its))
  /\ words (title p) = map itemText (leftover its).
Proof.
  intros R P. rewrite (parse_items env _ _ R) in P. unfold itemsResult in P.
  destruct (dueOfItems env its) as [d|err]; [|discriminate].
  cbn [bind] in P. injection P as <-. cbn [title]. split; [reflexivity|].
  apply words_join. now apply (leftover_good input).
Qed.












End ReturnedTitle.

Section ItemFacts.
Local Open Scope N_scope.






(** No [+] is left in the title of an input that reads as items. *)
Lemma leftover_no_plus input its i :
  readItems input = Some its -> In i (leftover its) ->
  ~ In 43 (itemText i).
Proof.
  intros R Hi. destruct (readItems_sound _ _ R) as (W & S & _).
  destruct (In_leftover _ _ Hi) as (I & T & D).
  specialize (W i I). specialize (S i D).
  assert (P : forall v, forallb plainChar v = true -> ~ In 43 v).
  { intros v Hv X. rewrite forallb_forall in Hv.
    apply Hv, plain_not_marker in X. discriminate X. }
  destruct i as [w|k v]; cbn [itemText wellFormed settled] in *.
  - unfold plainWord in W. apply andb_true_iff in W as [_ W]. now apply P.
  - intros X. apply in_app_or in X as [X|X]; [|now apply (P v)].
    destruct k; try discriminate T; vm_compute in X;
      repeat destruct X as [X|X]; try discriminate X; contradiction.
Qed.

Lemma join_words_In c : forall ws,
  In c (join_words ws) -> c = 32 \/ exists w, In w ws /\ In c w.
Proof.
  induction ws as [|w ws IH]; intros H; [contradiction|].
  destruct ws as [|x ws].
  - right. exists w. split; [now left|exact H].
  - rewrite join_words_cons in H by discriminate.
    apply in_app_or in H as [H|[H|H]].
    + right. exists w. split; [now left|exact H].
    + now left.
    + destruct (IH H) as [E|(y & Hy & Hc)]; [now left|].
      right. exists y. split; [now right|exact Hc].
Qed.

End ItemFacts.

(** ** The claims *)

(** C1.  The claim promises priority high for "task !H !M".  In the source
    the [\b] in front of [(?:pri:|!)] asks for a word character before the
    [!], so [!H] after a space is no priority token.  Whatever text without
    markers stands in front of " !H !M", the parser returns no priority and
    leaves both tokens in the title. *)
Theorem C1_bang_after_space_sets_no_priority : forall env t,
  markerFree t = true ->
  parseTaskInput env (t ++ str " !H !M") =
  Normal {| title := normalize_whitespace (t ++ str " !H !M");
            priority := None; context := None; projectName := None;
            dueDate := None; tags := []; status := None |}.
Proof.
  intros env t Ht. rewrite <- cleanTitle_normalize. apply noToken_parse.
  assert (N : forall mk, isMarker mk = true -> mk <> 33%N ->
                         ~ In mk (t ++ str " !H !M")).
  { intros mk Hm Hne Hin. apply in_app_or in Hin as [Hin|Hin].
    - now apply (markerFree_not_In t mk Ht Hm).
    - vm_compute in Hin. repeat destruct Hin as [<-|Hin];
        first [contradiction | now apply Hne | vm_compute in Hm; discriminate]. }
  repeat split.
  - unfold priorityMatch.
    change (t ++ str " !H !M") with (t ++ [32%N] ++ str "!H !M").
    rewrite app_assoc, search_skip.
    + unfold prevAfter. rewrite fold_left_app. reflexivity.
    + intros prev l Hl [l0 E].
      destruct (priority_at prev (l ++ str "!H !M")) as [m|] eqn:P;
        [|reflexivity].
      exfalso. apply priority_at_needs in P as [P|P].
      * apply in_app_or in P as [P|P];
          [|vm_compute in P; repeat destruct P as [P|P];
            first [discriminate P|contradiction]].
        apply (suffix_In _ _ _ _ E), in_app_or in P as [P|[P|[]]];
          [|discriminate].
        now apply (markerFree_not_In t 58%N Ht eq_refl).
      * destruct l as [|c l]; [congruence|]. injection P as ->.
        assert (I : In 33%N (t ++ [32%N]))
          by (apply (suffix_In _ _ _ _ E); now left).
        apply in_app_or in I as [I|[I|[]]]; [|discriminate].
        now apply (markerFree_not_In t 33%N Ht eq_refl).
  - apply contextMatch_none, N; [reflexivity|discriminate].
  - apply projectMatch_none, N; [reflexivity|discriminate].
  - apply dueMatch_none, N; [reflexivity|discriminate].
  - rewrite tagMatches_plusWords. apply plusWords_none, N;
      [reflexivity|discriminate].
  - apply statusMatch_none, N; [reflexivity|discriminate].
Qed.

Lemma C1_witness :
  parseTaskInput envEpoch (str "task !H !M") =
  Normal {| title := str "task !H !M"; priority := None; context := None;
            projectName := None; dueDate := None; tags := [];
            status := None |}.
Proof.
  exact (C1_bang_after_space_sets_no_priority envEpoch (str "task") eq_refl).
Defined.

(** C2.  [wait] stands before [waiting] in the alternation, so [>waiting]
    is matched as [>wait].  Whatever text without markers stands in front
    of " >waiting", the status is waiting, only [>wait] leaves the title,
    and [ing] stays behind. *)
Theorem C2_waiting_leaves_ing : forall env t,
  markerFree t = true ->
  parseTaskInput env (t ++ str " >waiting") =
  Normal {| title := normalize_whitespace (t ++ str " ing");
            priority := None; context := None; projectName := None;
            dueDate := None; tags := []; status := Some waiting |}.
Proof.
  intros env t Ht.
  assert (N : forall mk, isMarker mk = true -> mk <> 62%N ->
                         ~ In mk (t ++ str " >waiting")).
  { intros mk Hm Hne Hin. apply in_app_or in Hin as [Hin|Hin].
    - now apply (markerFree_not_In t mk Ht Hm).
    - vm_compute in Hin. repeat destruct Hin as [<-|Hin];
        first [contradiction | now apply Hne | vm_compute in Hm; discriminate]. }
  assert (S : statusMatch (t ++ str " >waiting") =
              Some {| m0 := str ">wait"; m1 := str "wait" |}).
  { unfold statusMatch.
    change (t ++ str " >waiting") with (t ++ [32%N] ++ str ">waiting").
    rewrite app_assoc, search_skip.
    - unfold prevAfter. rewrite fold_left_app. reflexivity.
    - intros prev l Hl [l0 E].
      destruct (status_at prev (l ++ str ">waiting")) as [m|] eqn:P;
        [|reflexivity].
      exfalso. destruct l as [|c l]; [congruence|].
      cbn [app] in P. unfold status_at in P.
      destruct (N.eqb_spec c 62) as [->|]; [|discriminate].
      assert (I : In 62%N (t ++ [32%N]))
        by (apply (suffix_In _ _ _ _ E); now left).
      apply in_app_or in I as [I|[I|[]]]; [|discriminate].
      now apply (markerFree_not_In t 62%N Ht eq_refl). }
  assert (R : replace_first (str ">wait") (t ++ str " >waiting") =
              t ++ str " ing").
  { change (replace_first (str ">wait") (t ++ str " >waiting"))
      with (replace_first (62%N :: str "wait")
              (t ++ [32%N] ++ (62%N :: str "wait") ++ str "ing")).
    rewrite app_assoc, replace_first_skip.
    - now rewrite <- app_assoc.
    - intros I. apply in_app_or in I as [I|[I|[]]]; [|discriminate].
      now apply (markerFree_not_In t 62%N Ht eq_refl). }
  rewrite parseTaskInput_unfold. unfold titleAtDue.
  unfold parsePriority. rewrite priorityMatch_none
    by (apply N; [reflexivity|discriminate]).
  cbn [fst snd]. unfold parseContext. rewrite contextMatch_none
    by (apply N; [reflexivity|discriminate]).
  cbn [fst snd]. unfold parseProject. rewrite projectMatch_none
    by (apply N; [reflexivity|discriminate]).
  cbn [fst snd]. unfold parseDue. rewrite dueMatch_none
    by (apply N; [reflexivity|discriminate]).
  cbn [bind fst snd]. unfold finishTitle, parseTags.
  rewrite tagMatches_plusWords, plusWords_none
    by (apply N; [reflexivity|discriminate]).
  cbn [fold_left fst snd]. unfold parseStatus. rewrite S. cbn [m0 m1 fst snd].
  rewrite R, cleanTitle_trim, cleanTitle_normalize. reflexivity.
Qed.

Lemma C2_witness :
  parseTaskInput envEpoch (str "call bob >waiting") =
  Normal {| title := str "call bob ing"; priority := None; context := None;
            projectName := None; dueDate := None; tags := [];
            status := Some waiting |}.
Proof.
  exact (C2_waiting_leaves_ing envEpoch (str "call bob") eq_refl).
Defined.

(** C3.  [due:today] takes the date from [toISOString], which gives the
    date in UTC, on every clock and in every time zone.  Five hours west
    of Greenwich, at 21:30 on March 9th, the parser answers March 10th,
    while the calendar date in local time is March 9th. *)
Theorem C3_due_today_is_the_utc_date :
  (forall env,
     parseTaskInput env (str "buy milk due:today") =
     Normal {| title := str "buy milk"; priority := None; context := None;
               projectName := None; dueDate := Some (utcDateString env);
               tags := []; status := None |})
  /\ parseTaskInput envWest (str "buy milk due:today") =
     Normal {| title := str "buy milk"; priority := None; context := None;
               projectName := None; dueDate := Some (str "2024-03-10");
               tags := []; status := None |}
  /\ localDateString envWest = str "2024-03-09".
Proof.
  split; [|vm_compute; split; reflexivity].
  intros env. rewrite parseTaskInput_unfold.
  replace (titleAtDue (str "buy milk due:today"))
    with (str "buy milk due:today") by (vm_compute; reflexivity).
  rewrite (parseDue_today env (str "buy milk due:today")
             {| m0 := str "due:today"; m1 := str "today" |})
    by (vm_compute; reflexivity).
  cbn [bind fst snd]. f_equal.
Qed.




(** A second token of each kind, evaluated: it stays in the title. *)
Example second_tokens_stay : forall env,
  option_map title_priority (completed (parseTaskInput env (str "task pri:H pri:M")))
    = Some (str "task pri:M", Some high)
  /\ option_map title_context (completed (parseTaskInput env (str "task @work @home")))
    = Some (str "task @home", Some (str "@work"))
  /\ option_map title_project (completed (parseTaskInput env (str "task pro:a pro:b")))
    = Some (str "task pro:b", Some (str "a"))
  /\ option_map title_due
       (completed (parseTaskInput env (str "task due:2024-01-02 due:2024-01-03")))
    = Some (str "task due:2024-01-03", Some (str "2024-01-02"))
  /\ option_map title_status (completed (parseTaskInput env (str "task >next >maybe")))
    = Some (str "task >maybe", Some next).
Proof. intros env. vm_compute. repeat split. Qed.

(** C5.  A [due:+Nd] whose date lies beyond the range of time values
    (100,000,000 days either side of the epoch) leaves an invalid date in
    [today], and [toISOString] throws a RangeError: the call does not
    return.  This holds on every clock, in every time zone and whatever
    else the input holds, for every N from 200,000,003 on. *)
Theorem C5_far_due_date_throws : forall env input m,
  (Z.abs (now env) <= 8640000000000000)%Z ->
  (forall t b, Z.abs (LocalTZA env t b) <= msPerDay)%Z ->
  dueMatch (titleAtDue input) = Some m ->
  isPlusDays (toLowerCase (m1 m)) = true ->
  (200000003 <= parseInt (slice_1_m1 (toLowerCase (m1 m))))%Z ->
  parseTaskInput env input = Throw RangeError.
Proof.
  intros env input m Hnow Htz Hm Hplus Hn.
  rewrite parseTaskInput_unfold. unfold parseDue.
  rewrite Hm, (resolveDue_plusDays env _ Hplus).
  set (n := parseInt (slice_1_m1 (toLowerCase (m1 m)))) in *.
  unfold TimeClip, UTC, LocalTime.
  pose proof (Htz (now env) true) as H1.
  pose proof (Htz (now env + LocalTZA env (now env) true + n * msPerDay)%Z
                  false) as H2.
  unfold msPerDay in *.
  destruct (Z.ltb_spec 8640000000000000
              (Z.abs (now env + LocalTZA env (now env) true + n * 86400000
                      - LocalTZA env (now env + LocalTZA env (now env) true
                                      + n * 86400000) false)));
    [reflexivity|lia].
Qed.

Lemma C5_witness :
  parseTaskInput envEpoch (str "task due:+999999999d") = Throw RangeError.
Proof.
  apply (C5_far_due_date_throws envEpoch (str "task due:+999999999d")
           {| m0 := str "due:+999999999d"; m1 := str "+999999999d" |}).
  - vm_compute. discriminate.
  - intros t b. vm_compute. discriminate.
  - reflexivity.
  - reflexivity.
  - vm_compute. discriminate.
Defined.

(** C6.  An input in which no pattern of the parser matches comes back
    with its white space normalized and nothing else: no field, no tag. *)
Theorem C6_no_token_normalizes : forall env input,
  noToken input ->
  parseTaskInput env input =
  Normal {| title := normalize_whitespace input; priority := None;
            context := None; projectName := None; dueDate := None;
            tags := []; status := None |}.
Proof.
  intros env input H. rewrite <- cleanTitle_normalize. now apply noToken_parse.
Qed.

Lemma C6_witness :
  noToken (str "  buy   milk  ")
  /\ parseTaskInput envEpoch (str "  buy   milk  ") =
     Normal {| title := str "buy milk"; priority := None; context := None;
               projectName := None; dueDate := None; tags := [];
               status := None |}.
Proof.
  assert (H : noToken (str "  buy   milk  ")) by (vm_compute; repeat split).
  split; [exact H|].
  exact (C6_no_token_normalizes envEpoch _ H).
Defined.




(** C8, counterexample.  The [+3d] of "plan trip due:+3d" and the [+foo]
    of "x pro:+foo" are occurrences of [+<word>] in the input, but the due
    step and the project step have taken them, with their tokens, before
    the tag step runs: there is no tag. *)
Lemma C8_counterexample :
  (parseTaskInput envEpoch (str "plan trip due:+3d") =
   Normal {| title := str "plan trip"; priority := None; context := None;
             projectName := None; dueDate := Some (str "1970-01-04");
             tags := []; status := None |}
   /\ plusWords (str "plan trip due:+3d") = [str "+3d"])
  /\ (parseTaskInput envEpoch (str "x pro:+foo") =
      Normal {| title := str "x"; priority := None; context := None;
                projectName := Some (str "+foo"); dueDate := None;
                tags := []; status := None |}
      /\ plusWords (str "x pro:+foo") = [str "+foo"]).
Proof. vm_compute. repeat split. Qed.

(** C8, as amended.  For every input, the tags are the occurrences of
    [+<word>] in the title as the tag step receives it, that is after the
    priority, context, project and due steps: one tag for each
    occurrence, in their order from left to right, each without its [+]
    and made of word characters; however many there are.  When the tag
    step ends the title holds no occurrence of [+<word>] any more.

    For an input that reads as items ([readItems]) this says, in terms of
    the input alone: the tags are the words of the [+<word>] tokens, in
    their order, and nothing else (a [+] in the value of the first [pro:]
    or [due:] token makes no tag); the returned title is made of the
    items left over and holds no occurrence of [+<word>]. *)
Theorem C8_tags_are_the_tag_tokens : forall env input,
  (forall t,
     titleAtTags env input = Normal t ->
     exists p,
       parseTaskInput env input = Normal p
       /\ tags p = map slice_1 (plusWords t)
       /\ Forall (fun g => g <> [] /\ forallb isWordChar g = true) (tags p)
       /\ plusWords (snd (parseTags t)) = []
       /\ title p = cleanTitle (snd (parseStatus (snd (parseTags t)))))
  /\ (forall its p,
        readItems input = Some its ->
        parseTaskInput env input = Normal p ->
        tags p = allOf KTag its
        /\ title p = join_words (map itemText (leftover its))
        /\ plusWords (title p) = []).
Proof.
  intros env input. split.
  - intros t H. unfold titleAtTags in H.
    rewrite parseTaskInput_unfold.
    destruct (parseDue env (titleAtDue input)) as [r|e]; simpl in H;
      [|discriminate].
    injection H as <-. simpl. eexists. split; [reflexivity|]. simpl.
    destruct (parseTags_spec (snd r)) as [F S]. rewrite F.
    repeat split; try assumption.
    apply Forall_forall. intros g Hg. apply in_map_iff in Hg as (tg & <- & Hin).
    destruct (plusWords_shape _ _ Hin) as (x & w & -> & Hx & Hw).
    split; [discriminate|]. simpl. now rewrite Hx.
  - intros its p R P.
    destruct (title_words env input its p R P) as [T _].
    split; [|split; [exact T|]].
    + rewrite (parse_items env _ _ R) in P. unfold itemsResult in P.
      destruct (dueOfItems env its); [|discriminate].
      cbn [bind] in P. now injection P as <-.
    + rewrite T. apply plusWords_none. intros X.
      apply join_words_In in X as [X|(w & Hw & Hc)]; [discriminate X|].
      apply in_map_iff in Hw as (i & <- & Hi).
      now apply (leftover_no_plus input its i R Hi).
Qed.

Lemma C8_witness :
  (exists p,
     parseTaskInput envEpoch (str "email boss pro:acme +urgent +followup >wait")
     = Normal p
     /\ tags p = map slice_1 (plusWords (str "email boss  +urgent +followup >wait"))
     /\ Forall (fun g => g <> [] /\ forallb isWordChar g = true) (tags p)
     /\ plusWords (snd (parseTags (str "email boss  +urgent +followup >wait"))) = []
     /\ title p = cleanTitle (snd (parseStatus (snd (parseTags
                    (str "email boss  +urgent +followup >wait"))))))
  /\ (allOf KTag [Plain (str "plan"); Plain (str "trip");
                  Token KDue (str "+3d"); Token KTag (str "travel")]
      = [str "travel"]
      /\ plusWords (str "plan trip") = []).
Proof.
  split.
  - exact (proj1 (C8_tags_are_the_tag_tokens envEpoch
                    (str "email boss pro:acme +urgent +followup >wait"))
             (str "email boss  +urgent +followup >wait") eq_refl).
  - destruct (proj2 (C8_tags_are_the_tag_tokens envEpoch
                       (str "plan trip due:+3d +travel"))
                [Plain (str "plan"); Plain (str "trip");
                 Token KDue (str "+3d"); Token KTag (str "travel")]
                {| title := str "plan trip"; priority := None;
                   context := None; projectName := None;
                   dueDate := Some (str "1970-01-04");
                   tags := [str "travel"]; status := None |}
                eq_refl eq_refl) as (A & _ & B).
    split; [symmetry; exact A|exact B].
Defined.




(** The example of the claim, evaluated. *)
Example due_nextweek : forall env,
  parseTaskInput env (str "task due:nextweek") =
  Normal {| title := str "task"; priority := None; context := None;
            projectName := None; dueDate := None; tags := [];
            status := None |}.
Proof. intros env. vm_compute. reflexivity. Qed.

(** C10.  The context pattern has no boundary on its left: one of the six
    context words after an [@], and not followed by a word character, is
    taken as the context whatever stands before the [@], and is cut out of
    the run it stands in.  For "mail bob@work.com" the context is [@work]
    and the title "mail bob.com". *)
Theorem C10_context_inside_a_word : forall env a b w,
  markerFree a = true -> markerFree b = true ->
  In w context_words -> startsWord b = false ->
  parseTaskInput env (a ++ str "@" ++ w ++ b) =
  Normal {| title := normalize_whitespace (a ++ b); priority := None;
            context := Some (str "@" ++ w); projectName := None;
            dueDate := None; tags := []; status := None |}.
Proof.
  intros env a b w Ha Hb Hw Hs.
  assert (N : forall mk, isMarker mk = true -> mk <> 64%N ->
                         ~ In mk (a ++ str "@" ++ w ++ b)).
  { intros mk Hm Hne Hin.
    change (str "@" ++ w ++ b) with (64%N :: w ++ b) in Hin.
    apply in_app_or in Hin as [Hin|Hin];
      [now apply (markerFree_not_In a mk Ha Hm)|].
    destruct Hin as [Hin|Hin]; [now apply Hne|].
    apply in_app_or in Hin as [Hin|Hin].
    - destruct (context_word_plain w mk Hw Hin) as [X _]. congruence.
    - now apply (markerFree_not_In b mk Hb Hm). }
  assert (N' : forall mk, isMarker mk = true -> ~ In mk (trim (a ++ b))).
  { intros mk Hm Hin. apply In_trim, in_app_or in Hin as [Hin|Hin].
    - now apply (markerFree_not_In a mk Ha Hm).
    - now apply (markerFree_not_In b mk Hb Hm). }
  assert (C : contextMatch (a ++ str "@" ++ w ++ b) =
              Some {| m0 := 64%N :: w; m1 := w |}).
  { unfold contextMatch.
    change (str "@" ++ w ++ b) with (64%N :: w ++ b). rewrite search_skip.
    - apply search_first. now apply context_at_word.
    - intros prev l Hl [l0 E]. destruct l as [|c l]; [congruence|].
      cbn [app]. unfold context_at.
      destruct (N.eqb_spec c 64) as [->|]; [|reflexivity].
      exfalso. apply (markerFree_not_In a 64%N Ha eq_refl).
      apply (suffix_In _ _ _ _ E). now left. }
  assert (L : toLowerCase w = w).
  { destruct w as [|c w']; [reflexivity|].
    now apply (context_word_plain (c :: w') c Hw); left. }
  rewrite parseTaskInput_unfold. unfold titleAtDue.
  unfold parsePriority. rewrite priorityMatch_none
    by (apply N; [reflexivity|discriminate]).
  cbn [fst snd]. unfold parseContext. rewrite C. cbn [m0 m1 fst snd].
  change (a ++ str "@" ++ w ++ b) with (a ++ (64%N :: w) ++ b).
  rewrite replace_first_skip by (apply (markerFree_not_In a 64%N Ha eq_refl)).
  destruct (plain_tail env (trim (a ++ b)))
    as (Hpr & Hd & Ht & Hst); try (apply N'; reflexivity).
  rewrite Hpr. cbn [fst snd]. rewrite Hd. cbn [bind fst snd].
  unfold finishTitle. rewrite Ht. cbn [fst snd]. rewrite Hst. cbn [fst snd].
  rewrite L, cleanTitle_trim, cleanTitle_normalize. reflexivity.
Qed.

Lemma C10_witness :
  parseTaskInput envEpoch (str "mail bob@work.com") =
  Normal {| title := str "mail bob.com"; priority := None;
            context := Some (str "@work"); projectName := None;
            dueDate := None; tags := []; status := None |}.
Proof.
  exact (C10_context_inside_a_word envEpoch (str "mail bob") (str ".com")
           (str "work") eq_refl eq_refl (or_intror (or_introl eq_refl))
           eq_refl).
Defined.

(** ** The examples of the specification that hold as written *)

Example six_contexts : forall env,
  map (fun w => option_map title_context
                  (completed (parseTaskInput env (str "task @" ++ w))))
      context_words
  = map (fun w => Some (str "task", Some (str "@" ++ w))) context_words.
Proof. intros env. vm_compute. reflexivity. Qed.

Example plan_trip : forall env,
  (Z.abs (now env) <= 8640000000000000 - 2 * msPerDay - 3 * msPerDay)%Z ->
  (forall t b, Z.abs (LocalTZA env t b) <= msPerDay)%Z ->
  option_map title_due (completed (parseTaskInput env (str "plan trip due:+3d")))
  = Some (str "plan trip",
          Some (dateString (UTC env (LocalTime env (now env) + 3 * msPerDay)))).
Proof.
  intros env Hnow Htz. rewrite parseTaskInput_unfold.
  replace (titleAtDue (str "plan trip due:+3d"))
    with (str "plan trip due:+3d") by (vm_compute; reflexivity).
  unfold parseDue.
  replace (dueMatch (str "plan trip due:+3d"))
    with (Some {| m0 := str "due:+3d"; m1 := str "+3d" |})
    by (vm_compute; reflexivity).
  cbn [m0 m1].
  replace (toLowerCase (str "+3d")) with (str "+3d") by (vm_compute; reflexivity).
  rewrite resolveDue_plusDays by (vm_compute; reflexivity).
  replace (parseInt (slice_1_m1 (str "+3d"))) with 3%Z by (vm_compute; reflexivity).
  pose proof (Htz (now env) true) as H1.
  pose proof (Htz (LocalTime env (now env) + 3 * msPerDay)%Z false) as H2.
  unfold TimeClip.
  destruct (Z.ltb_spec 8640000000000000
              (Z.abs (UTC env (LocalTime env (now env) + 3 * msPerDay)))) as [B|B].
  - exfalso. unfold UTC, LocalTime, msPerDay in *. lia.
  - rewrite isoDay_Some. reflexivity.
Qed.

Example email_boss : forall env,
  parseTaskInput env (str "email boss pro:acme +urgent +followup >wait") =
  Normal {| title := str "email boss"; priority := None; context := None;
            projectName := Some (str "acme"); dueDate := None;
            tags := [str "urgent"; str "followup"]; status := Some waiting |}.
Proof. intros env. vm_compute. reflexivity. Qed.

(** ** A remark on [replace]

    [title.replace(match[0], '')] works on the text of the match, not on
    its position.  When the same text stands earlier in the title, where
    the pattern does not match because of its [\b], it is that earlier
    text that is deleted and the token itself stays. *)

Example look_alike_before_the_token : forall env,
  option_map title_context
    (completed (parseTaskInput env (str "@workshop prep @work")))
  = Some (str "shop prep @work", Some (str "@work"))
  /\ option_map title_due
       (completed (parseTaskInput env (str "pay overdue:x due:x")))
     = Some (str "pay over due:x", None).
Proof. intros env. vm_compute. split; reflexivity. Qed.

(** An input with a token of every kind, read as items. *)
Example call_dentist : forall env,
  readItems (str "Call dentist pri:H @phone due:today +health pro:wellness >next")
  = Some [Plain (str "Call"); Plain (str "dentist"); Token KPriority (str "H");
          Token KContext (str "phone"); Token KDue (str "today");
          Token KTag (str "health"); Token KProject (str "wellness");
          Token KStatus (str "next")]
  /\ parseTaskInput env
       (str "Call dentist pri:H @phone due:today +health pro:wellness >next")
     = (d <- isoDay (newDate env) ;;
        Normal {| title := str "Call dentist"; priority := Some high;
                  context := Some (str "@phone");
                  projectName := Some (str "wellness");
                  dueDate := Some d; tags := [str "health"];
                  status := Some next |}).
Proof.
  intros env. split; [reflexivity|].
  rewrite (parse_items env
             (str "Call dentist pri:H @phone due:today +health pro:wellness >next")
             [Plain (str "Call"); Plain (str "dentist");
              Token KPriority (str "H"); Token KContext (str "phone");
              Token KDue (str "today"); Token KTag (str "health");
              Token KProject (str "wellness"); Token KStatus (str "next")]
             eq_refl).
  unfold itemsResult, dueOfItems. cbn [firstOf Kind_eqb].
  change (toLowerCase (str "today")) with (str "today").
  unfold resolveDue. change (JS.eqb (str "today") (str "today")) with true.
  cbv iota. destruct (isoDay (newDate env)); reflexivity.
Qed.

(** * Around the parser: facts and properties *)

(** ** Reading back the dates the program writes *)

Section DateFacts.
Local Open Scope Z_scope.

Lemma parseInt_snoc a c : parseInt (a ++ [c]) = 10 * parseInt a + digit_value c.
Proof. unfold parseInt. now rewrite fold_left_app. Qed.

Lemma digit_unit n : 0 <= n < 10 -> digit_value (Z.to_N (48 + n)) = n.
Proof. intros H. unfold digit_value. rewrite Z2N.id; lia. Qed.

Lemma digit_isDigit n : 0 <= n < 10 -> isDigit (Z.to_N (48 + n)) = true.
Proof.
  intros H. unfold isDigit, in_range.
  apply andb_true_iff; split; apply N.leb_le, N2Z.inj_le;
    rewrite Z2N.id by lia; lia.
Qed.

Lemma pad_digits_length w : forall n, List.length (pad_digits w n) = w.
Proof.
  induction w as [|w IH]; intros n; [reflexivity|].
  cbn [pad_digits]. rewrite length_app, IH. simpl. lia.
Qed.

Lemma pad_digits_isDigit w : forall n, forallb isDigit (pad_digits w n) = true.
Proof.
  induction w as [|w IH]; intros n; [reflexivity|].
  cbn [pad_digits]. rewrite forallb_app, IH. cbn [forallb andb].
  rewrite andb_true_r. apply digit_isDigit, Z.mod_pos_bound. lia.
Qed.

Lemma pad_digits_value w : forall n,
  0 <= n < 10 ^ Z.of_nat w -> parseInt (pad_digits w n) = n.
Proof.
  induction w as [|w IH]; intros n H.
  - change (10 ^ Z.of_nat 0) with 1 in H. assert (n = 0) by lia. now subst.
  - cbn [pad_digits]. rewrite parseInt_snoc, digit_unit
      by (apply Z.mod_pos_bound; lia).
    rewrite Nat2Z.inj_succ, Z.pow_succ_r in H by lia.
    rewrite IH by (Z.div_mod_to_equations; lia).
    Z.div_mod_to_equations; lia.
Qed.

Lemma firstn_skipn_exact {A} (a r : list A) :
  firstn (List.length a) (a ++ r) = a /\ skipn (List.length a) (a ++ r) = r.
Proof.
  split.
  - rewrite firstn_app, Nat.sub_diag, firstn_all. simpl. now rewrite app_nil_r.
  - rewrite skipn_app, Nat.sub_diag, skipn_all. reflexivity.
Qed.

Lemma digits_pad w n r :
  0 <= n < 10 ^ Z.of_nat w -> digits w (pad_digits w n ++ r) = Some (n, r).
Proof.
  intros H. unfold digits.
  destruct (firstn_skipn_exact (pad_digits w n) r) as [F S].
  rewrite pad_digits_length in F, S. rewrite F, S.
  rewrite pad_digits_length, Nat.eqb_refl, pad_digits_isDigit.
  cbn [andb]. now rewrite pad_digits_value.
Qed.

Lemma validTime_year t :
  validTime t = true -> -271822 <= YearFromTime t <= 275761.
Proof.
  unfold validTime. intros V. apply Z.leb_le in V.
  unfold YearFromTime, Day, msPerDay.
  repeat match goal with
         | |- context [?a <=? ?b] => destruct (Z.leb_spec a b)
         end; Z.div_mod_to_equations; lia.
Qed.

Lemma digit_not_sign c :
  isDigit c = true -> N.eqb c 43 = false /\ N.eqb c 45 = false.
Proof.
  unfold isDigit, in_range. intros H.
  apply andb_true_iff in H as [H _]. apply N.leb_le in H.
  split; apply N.eqb_neq; lia.
Qed.

Lemma isoYear_year_string y r :
  -999999 <= y <= 999999 -> isoYear (year_string y ++ r) = Some (y, r).
Proof.
  intros B. unfold year_string.
  destruct (Z.leb_spec 0 y) as [P|P]; cbn [andb].
  - destruct (Z.leb_spec y 9999) as [Q|Q].
    + pose proof (pad_digits_isDigit 4 y) as D.
      pose proof (digits_pad 4 y r) as G.
      destruct (pad_digits 4 y) as [|c s] eqn:E; [discriminate (f_equal (@List.length _) E)|].
      cbn [forallb] in D. apply andb_true_iff in D as [D _].
      destruct (digit_not_sign c D) as [N1 N2].
      cbn [app isoYear]. rewrite N1, N2. apply G. simpl; lia.
    + destruct (Z.ltb_spec y 0); [lia|].
      change (str "+") with [43%N]. cbn [app isoYear]. rewrite N.eqb_refl.
      rewrite Z.abs_eq by lia. apply digits_pad. simpl; lia.
  - destruct (Z.ltb_spec y 0); [|lia].
    change (str "-") with [45%N]. cbn [app isoYear].
    change (N.eqb 45 43) with false. rewrite N.eqb_refl. cbv iota.
    rewrite digits_pad by (simpl; lia). cbn [and_then].
    destruct (Z.eqb_spec (Z.abs y) 0); [lia|].
    f_equal. f_equal. lia.
Qed.

Lemma MakeDay_month y m : 0 <= m <= 11 -> MakeDay y m 1 = DayOfMonthStart y m.
Proof.
  intros H. unfold MakeDay. rewrite Z.div_small, Z.mod_small by lia.
  rewrite Z.add_0_r. lia.
Qed.

Lemma MakeDay_december y : MakeDay y 12 1 = DayFromYear (y + 1).
Proof.
  unfold MakeDay. change (12 / 12) with 1. change (12 mod 12) with 0.
  unfold DayOfMonthStart. lia.
Qed.

Lemma DaysInYear_cases y :
  (DaysInYear y = 365 /\ (DaysInYear y =? 366) = false)
  \/ (DaysInYear y = 366 /\ (DaysInYear y =? 366) = true).
Proof.
  unfold DaysInYear. destruct (negb _); [now left|].
  destruct (negb _); [now right|]. destruct (negb _); [now left|now right].
Qed.

(** The day of the month lies within its month. *)
Lemma DateFromTime_range t :
  1 <= DateFromTime t <= DaysInMonth (YearFromTime t) (MonthFromTime t).
Proof.
  pose proof (DayWithinYear_range t) as R.
  pose proof (MonthFromTime_range t) as M.
  unfold DaysInMonth.
  assert (N : MakeDay (YearFromTime t) (MonthFromTime t + 1) 1 =
              if MonthFromTime t =? 11 then DayFromYear (YearFromTime t + 1)
              else DayOfMonthStart (YearFromTime t) (MonthFromTime t + 1)).
  { destruct (Z.eqb_spec (MonthFromTime t) 11) as [E|E].
    - rewrite E. apply MakeDay_december.
    - apply MakeDay_month. lia. }
  rewrite N, MakeDay_month, DayFromYear_step by lia. clear N M.
  unfold DayOfMonthStart, DateFromTime, MonthFromTime, InLeapYear in *.
  unfold DayWithinYear in *.
  set (y := YearFromTime t) in *. set (d := Day t - DayFromYear y) in *.
  destruct (DaysInYear_cases y) as [[L ->]|[L ->]].
  all: repeat match goal with
       | |- context [?a <? ?b] => destruct (Z.ltb_spec a b)
       end; cbv beta iota; cbn [Z.add Z.eqb Pos.add Pos.succ Pos.eqb]; lia.
Qed.

(** The date the parser writes reads back as midnight UTC of its day. *)
Lemma isoDate_dateString t r :
  validTime t = true -> isoDate (dateString t ++ r) = Some (Day t, r).
Proof.
  intros V. pose proof (validTime_year t V) as Y.
  pose proof (MonthFromTime_range t) as M.
  pose proof (DateFromTime_range t) as D.
  assert (D31 : DaysInMonth (YearFromTime t) (MonthFromTime t) <= 31).
  { unfold DaysInMonth.
    assert (N : MakeDay (YearFromTime t) (MonthFromTime t + 1) 1 =
              if MonthFromTime t =? 11 then DayFromYear (YearFromTime t + 1)
              else DayOfMonthStart (YearFromTime t) (MonthFromTime t + 1)).
    { destruct (Z.eqb_spec (MonthFromTime t) 11) as [E|E].
      - rewrite E. apply MakeDay_december.
      - apply MakeDay_month. lia. }
    rewrite N, MakeDay_month, DayFromYear_step by lia.
    unfold DayOfMonthStart.
    destruct (DaysInYear_cases (YearFromTime t)) as [[L ->]|[L ->]];
      set (m := MonthFromTime t) in *;
      assert (C : m = 0 \/ m = 1 \/ m = 2 \/ m = 3 \/ m = 4 \/ m = 5 \/ m = 6
                  \/ m = 7 \/ m = 8 \/ m = 9 \/ m = 10 \/ m = 11) by lia;
      repeat (destruct C as [C|C]; [rewrite C; simpl; lia|]);
      rewrite C; simpl; lia. }
  unfold dateString, isoDate. rewrite <- !app_assoc.
  rewrite isoYear_year_string by lia. cbn [and_then].
  change (str "-") with [45%N]. cbn [app expect]. rewrite N.eqb_refl.
  cbn [and_then]. rewrite digits_pad by (simpl; lia). cbn [and_then].
  cbn [app expect]. rewrite N.eqb_refl. cbn [and_then].
  rewrite digits_pad by (simpl; lia). cbn [and_then].
  replace (MonthFromTime t + 1 - 1) with (MonthFromTime t) by lia.
  destruct (Z.leb_spec 1 (MonthFromTime t + 1)); [|lia].
  destruct (Z.leb_spec (MonthFromTime t + 1) 12); [|lia].
  destruct (Z.leb_spec 1 (DateFromTime t)); [|lia].
  destruct (Z.leb_spec (DateFromTime t)
              (DaysInMonth (YearFromTime t) (MonthFromTime t))); [|lia].
  cbn [andb]. f_equal. f_equal.
  pose proof (MakeDay_fields t 0) as F. rewrite !Z.add_0_r in F. exact F.
Qed.

Lemma validTime_Day t :
  validTime t = true -> TimeClip (Day t * msPerDay) = Some (Day t * msPerDay).
Proof.
  unfold validTime, TimeClip, Day, msPerDay. intros V. apply Z.leb_le in V.
  destruct (Z.ltb_spec 8640000000000000 (Z.abs (t / 86400000 * 86400000)));
    [|reflexivity].
  Z.div_mod_to_equations; lia.
Qed.

Lemma TimeClip_valid t : validTime t = true -> TimeClip t = Some t.
Proof.
  unfold validTime, TimeClip. intros V. apply Z.leb_le in V.
  destruct (Z.ltb_spec 8640000000000000 (Z.abs t)); [lia|reflexivity].
Qed.

Lemma TimeClip_Some t u : TimeClip t = Some u -> u = t /\ validTime t = true.
Proof.
  unfold TimeClip, validTime.
  destruct (Z.ltb_spec 8640000000000000 (Z.abs t)); [discriminate|].
  intros [= <-]. split; [reflexivity|]. now apply Z.leb_le.
Qed.

Lemma newDateOf_dateString h t :
  validTime t = true -> newDateOf h (dateString t) = Some (Day t * msPerDay).
Proof.
  intros V. unfold newDateOf, DateParse.
  pose proof (isoDate_dateString t [] V) as E. rewrite app_nil_r in E.
  rewrite E. unfold MakeDate. rewrite Z.add_0_r, (validTime_Day t V).
  apply validTime_Day, V.
Qed.

Lemma time_fields t :
  0 <= HourFromTime t <= 23 /\ 0 <= MinFromTime t <= 59
  /\ 0 <= SecFromTime t <= 59 /\ 0 <= msFromTime t <= 999
  /\ MakeTime (HourFromTime t) (MinFromTime t) (SecFromTime t) (msFromTime t)
     = TimeWithinDay t.
Proof.
  unfold HourFromTime, MinFromTime, SecFromTime, msFromTime, MakeTime,
    TimeWithinDay, msPerHour, msPerMinute, msPerSecond, msPerDay.
  repeat split; Z.div_mod_to_equations; lia.
Qed.

Lemma toISOString_Some t : toISOString (Some t) = Normal (isoString t).
Proof.
  unfold toISOString, isoString, dateString. now rewrite <- !app_assoc.
Qed.

(** A time stamp of [toISOString] reads back as the time it was made of. *)
Lemma newDateOf_isoString h t :
  validTime t = true -> newDateOf h (isoString t) = Some t.
Proof.
  intros V. unfold newDateOf, DateParse, isoString.
  rewrite (isoDate_dateString t _ V).
  destruct (time_fields t) as (H & M & S & L & E).
  change (str "T") with [84%N]. change (str ":") with [58%N].
  change (str ".") with [46%N]. change (str "Z") with [90%N].
  cbn [app]. unfold isoTime. cbn [expect]. rewrite N.eqb_refl. cbn [and_then].
  rewrite digits_pad by (simpl; lia). cbn [and_then expect].
  rewrite N.eqb_refl. cbn [and_then].
  rewrite digits_pad by (simpl; lia). cbn [and_then expect].
  rewrite N.eqb_refl. cbn [and_then].
  rewrite digits_pad by (simpl; lia). cbn [and_then expect].
  rewrite N.eqb_refl. cbn [and_then].
  rewrite digits_pad by (simpl; lia). cbn [and_then expect].
  rewrite N.eqb_refl. cbn [and_then].
  destruct (Z.leb_spec (HourFromTime t) 23); [|lia].
  destruct (Z.leb_spec (MinFromTime t) 59); [|lia].
  destruct (Z.leb_spec (SecFromTime t) 59); [|lia].
  cbn [andb]. rewrite E.
  replace (MakeDate (Day t) (TimeWithinDay t)) with t
    by (unfold MakeDate, Day, TimeWithinDay, msPerDay; Z.div_mod_to_equations; lia).
  rewrite (TimeClip_valid t V). apply TimeClip_valid, V.
Qed.

End DateFacts.

(** ** [toDateString] tells the local day, and nothing else *)

Section DateStrings.
Local Open Scope Z_scope.

Lemma decimal_width_enough fuel : forall n,
  0 <= n < 2 ^ (Z.of_nat fuel + 1) ->
  n < 10 ^ Z.of_nat (decimal_width fuel n).
Proof.
  induction fuel as [|f IH]; intros n H.
  - simpl in *. lia.
  - cbn [decimal_width]. destruct (Z.ltb_spec n 10) as [L|L]; [simpl; lia|].
    rewrite Nat2Z.inj_succ in *.
    replace (Z.succ (Z.of_nat f) + 1) with (Z.succ (Z.of_nat f + 1)) in H by lia.
    rewrite Z.pow_succ_r in H by lia. rewrite Z.pow_succ_r by lia.
    assert (Q : 0 <= n / 10 < 2 ^ (Z.of_nat f + 1))
      by (Z.div_mod_to_equations; lia).
    specialize (IH _ Q). Z.div_mod_to_equations; lia.
Qed.

Lemma decimal_width_le fuel : forall n k,
  (1 <= k)%nat -> n < 10 ^ Z.of_nat k -> (decimal_width fuel n <= k)%nat.
Proof.
  induction fuel as [|f IH]; intros n k K H; [exact K|].
  cbn [decimal_width]. destruct (Z.ltb_spec n 10) as [L|L]; [exact K|].
  destruct k as [|[|k]]; [lia|simpl in H; lia|].
  apply le_n_S, IH; [lia|].
  rewrite Nat2Z.inj_succ, Z.pow_succ_r in H by lia.
  Z.div_mod_to_equations; lia.
Qed.

Lemma padded_small n k :
  (1 <= k)%nat -> 0 <= n < 10 ^ Z.of_nat k ->
  ToZeroPaddedDecimalString n k = pad_digits k n.
Proof.
  intros K H. unfold ToZeroPaddedDecimalString.
  rewrite Nat.max_l; [reflexivity|]. apply decimal_width_le; [exact K|lia].
Qed.

Lemma padded_value n k : 0 <= n -> parseInt (ToZeroPaddedDecimalString n k) = n.
Proof.
  intros H. unfold ToZeroPaddedDecimalString. apply pad_digits_value.
  split; [exact H|].
  set (w := decimal_width (Z.to_nat (Z.log2 n)) n).
  assert (W : n < 10 ^ Z.of_nat w).
  { apply decimal_width_enough. rewrite Z2Nat.id by apply Z.log2_nonneg.
    split; [exact H|]. destruct (Z.eq_dec n 0) as [->|N]; [reflexivity|].
    apply Z.log2_spec. lia. }
  eapply Z.lt_le_trans; [exact W|].
  apply Z.pow_le_mono_r; lia.
Qed.

Lemma padded_digits n k :
  exists c s, ToZeroPaddedDecimalString n k = c :: s /\ isDigit c = true.
Proof.
  unfold ToZeroPaddedDecimalString.
  set (w := Nat.max k _).
  assert (W : (1 <= w)%nat).
  { subst w. destruct (Z.to_nat (Z.log2 n)); cbn [decimal_width];
      [lia|destruct (n <? 10); lia]. }
  pose proof (pad_digits_isDigit w n) as D.
  pose proof (pad_digits_length w n) as L.
  destruct (pad_digits w n) as [|c s]; [simpl in L; lia|].
  exists c, s. split; [reflexivity|].
  cbn [forallb] in D. now apply andb_true_iff in D as [D _].
Qed.

Lemma app_inj_length {A} (a a' b b' : list A) :
  List.length a = List.length a' -> a ++ b = a' ++ b' -> a = a' /\ b = b'.
Proof.
  revert a'. induction a as [|x a IH]; intros [|x' a'] L E;
    try discriminate; [now split|].
  injection L as L. injection E as -> E.
  destruct (IH _ L E) as [-> ->]. now split.
Qed.

Lemma WeekDay_range t : 0 <= WeekDay t < 7.
Proof. unfold WeekDay. apply Z.mod_pos_bound. lia. Qed.

Lemma weekday_name_shape d :
  exists a b c, weekday_name d = [a; b; c] /\ a <> 73%N.
Proof.
  unfold weekday_name.
  destruct d as [|[[[|[]|]|[|[]|]|]|[[|[]|]|[|[]|]|]|]|];
    do 3 eexists; (split; [reflexivity|discriminate]).
Qed.

Lemma month_name_length m : List.length (month_name m) = 3%nat.
Proof.
  unfold month_name.
  destruct m as [|[[[|[|[]|]|]|[|[|[]|]|]|]|[[|[|[]|]|]|[|[|[]|]|]|]|]|];
    reflexivity.
Qed.

Lemma month_name_inj m m' :
  0 <= m <= 11 -> 0 <= m' <= 11 -> month_name m = month_name m' -> m = m'.
Proof.
  intros H H' E.
  assert (C : m = 0 \/ m = 1 \/ m = 2 \/ m = 3 \/ m = 4 \/ m = 5 \/ m = 6
              \/ m = 7 \/ m = 8 \/ m = 9 \/ m = 10 \/ m = 11) by lia.
  assert (C' : m' = 0 \/ m' = 1 \/ m' = 2 \/ m' = 3 \/ m' = 4 \/ m' = 5
               \/ m' = 6 \/ m' = 7 \/ m' = 8 \/ m' = 9 \/ m' = 10 \/ m' = 11)
    by lia.
  clear H H'.
  repeat (destruct C as [C|C]); subst m;
    repeat (destruct C' as [C'|C']); subst m';
    first [reflexivity | discriminate E].
Qed.

Lemma DaysInMonth_le_31 y m : 0 <= m <= 11 -> DaysInMonth y m <= 31.
Proof.
  intros M. unfold DaysInMonth.
  assert (N : MakeDay y (m + 1) 1 =
              if m =? 11 then DayFromYear (y + 1)
              else DayOfMonthStart y (m + 1)).
  { destruct (Z.eqb_spec m 11) as [E|E].
    - rewrite E. apply MakeDay_december.
    - apply MakeDay_month. lia. }
  rewrite N, MakeDay_month, DayFromYear_step by lia.
  unfold DayOfMonthStart.
  assert (C : m = 0 \/ m = 1 \/ m = 2 \/ m = 3 \/ m = 4 \/ m = 5 \/ m = 6
              \/ m = 7 \/ m = 8 \/ m = 9 \/ m = 10 \/ m = 11) by lia.
  destruct (DaysInYear_cases y) as [[L ->]|[L ->]];
    repeat (destruct C as [C|C]; [rewrite C; simpl; lia|]);
    rewrite C; simpl; lia.
Qed.

Lemma DateFromTime_31 t : 1 <= DateFromTime t <= 31.
Proof.
  pose proof (DateFromTime_range t).
  pose proof (DaysInMonth_le_31 (YearFromTime t) _ (MonthFromTime_range t)).
  lia.
Qed.

(** The sign and the digits of a year tell the year. *)
Lemma year_text_inj y y' : year_text y = year_text y' -> y = y'.
Proof.
  unfold year_text. intros E.
  destruct (padded_digits (Z.abs y) 4) as (c & s & P & D).
  destruct (padded_digits (Z.abs y') 4) as (c' & s' & P' & D').
  pose proof (padded_value (Z.abs y) 4 (Z.abs_nonneg y)) as V.
  pose proof (padded_value (Z.abs y') 4 (Z.abs_nonneg y')) as V'.
  change (str "-") with [45%N] in E.
  destruct (Z.ltb_spec y 0), (Z.ltb_spec y' 0); cbn [app] in E.
  - injection E as E. rewrite E in V. lia.
  - rewrite P' in E. injection E as E _. subst c'.
    now destruct (digit_not_sign _ D').
  - rewrite P in E. injection E as E _. subst c.
    now destruct (digit_not_sign _ D).
  - rewrite E in V. lia.
Qed.

Lemma fields_of_Day a b :
  Day a = Day b ->
  YearFromTime a = YearFromTime b /\ MonthFromTime a = MonthFromTime b
  /\ DateFromTime a = DateFromTime b /\ WeekDay a = WeekDay b.
Proof.
  intros H.
  assert (Y : YearFromTime a = YearFromTime b)
    by (unfold YearFromTime; now rewrite H).
  assert (M : MonthFromTime a = MonthFromTime b)
    by (unfold MonthFromTime, DayWithinYear, InLeapYear; now rewrite H, Y).
  repeat split; try assumption.
  - unfold DateFromTime. rewrite M.
    unfold DayWithinYear, InLeapYear. now rewrite H, Y.
  - unfold WeekDay. now rewrite H.
Qed.

Lemma DateString_day a b : DateString a = DateString b <-> Day a = Day b.
Proof.
  split.
  - unfold DateString.
    destruct (weekday_name_shape (WeekDay a)) as (x1 & x2 & x3 & -> & _).
    destruct (weekday_name_shape (WeekDay b)) as (z1 & z2 & z3 & -> & _).
    intros E. change (str " ") with [32%N] in E. cbn [app] in E.
    injection E as _ _ _ E.
    apply app_inj_length in E as [M E];
      [|now rewrite !month_name_length].
    apply month_name_inj in M; try apply MonthFromTime_range.
    cbn [app] in E. injection E as E.
    pose proof (DateFromTime_31 a) as Da. pose proof (DateFromTime_31 b) as Db.
    rewrite !padded_small in E by (simpl; lia).
    apply app_inj_length in E as [D E]; [|now rewrite !pad_digits_length].
    apply (f_equal parseInt) in D.
    rewrite !pad_digits_value in D by (simpl; lia).
    cbn [app] in E. injection E as E.
    apply year_text_inj in E.
    pose proof (MakeDay_fields a 0) as Fa. pose proof (MakeDay_fields b 0) as Fb.
    rewrite !Z.add_0_r in Fa, Fb. rewrite <- Fa, <- Fb. now rewrite E, M, D.
  - intros H. destruct (fields_of_Day a b H) as (Y & M & D & W).
    unfold DateString. now rewrite Y, M, D, W.
Qed.

Lemma DateString_valid t : DateString t <> str "Invalid Date".
Proof.
  unfold DateString.
  destruct (weekday_name_shape (WeekDay t)) as (a & b & c & -> & N).
  intros E. injection E as E. contradiction.
Qed.

Lemma eqb_false (a b : jsstring) : a <> b -> JS.eqb a b = false.
Proof.
  intros N. destruct (JS.eqb a b) eqn:E; [|reflexivity].
  now apply eqb_eq in E.
Qed.

Lemma eqb_refl (a : jsstring) : JS.eqb a a = true.
Proof. now apply eqb_eq. Qed.

(** Two dates have the same [toDateString] when they show the same local
    day; an invalid date has the one of no valid date. *)
Lemma sameDateString env a b :
  JS.eqb (toDateString env (Some a)) (toDateString env (Some b))
  = (Day (LocalTime env a) =? Day (LocalTime env b)).
Proof.
  cbn [toDateString].
  destruct (Z.eqb_spec (Day (LocalTime env a)) (Day (LocalTime env b))) as [E|E].
  - apply eqb_eq, DateString_day, E.
  - apply eqb_false. intros H. now apply DateString_day in H.
Qed.

Lemma invalidDateString env b :
  JS.eqb (toDateString env None) (toDateString env (Some b)) = false
  /\ JS.eqb (toDateString env (Some b)) (toDateString env None) = false.
Proof.
  cbn [toDateString]. split; apply eqb_false; intros E;
    [symmetry in E|]; exact (DateString_valid _ E).
Qed.

End DateStrings.

(** ** The date helpers *)

Section HelperFacts.
Local Open Scope Z_scope.

Lemma dateString_given t : given (Some (dateString t)) = Some (dateString t).
Proof.
  unfold given. destruct (dateString t) as [|c s] eqn:E; [|reflexivity].
  unfold dateString in E. apply app_eq_nil in E as [_ E].
  discriminate E.
Qed.

Lemma isoString_given t : given (Some (isoString t)) = Some (isoString t).
Proof.
  unfold given. destruct (isoString t) as [|c s] eqn:E; [|reflexivity].
  unfold isoString in E. apply app_eq_nil in E as [_ E].
  discriminate E.
Qed.

(** Local midnight of today, in a zone with a fixed offset. *)
Lemma setHours0_fixed env tz :
  (forall t b, LocalTZA env t b = tz) ->
  setHours0 env (newDate env) = TimeClip (Day (now env + tz) * msPerDay - tz).
Proof.
  intros Z. unfold setHours0, newDate, LocalTime, UTC, MakeDate, MakeTime.
  rewrite !Z. f_equal. lia.
Qed.

Lemma midnight_valid t tz :
  0 <= t -> validTime t = true -> - msPerDay < tz < msPerDay ->
  validTime (Day (t + tz) * msPerDay - tz) = true.
Proof.
  unfold validTime, Day, msPerDay. intros P V B.
  apply Z.leb_le in V. apply Z.leb_le.
  Z.div_mod_to_equations; lia.
Qed.

(** A time on the local day of the clock is not before its midnight. *)
Lemma not_before_midnight env tz t :
  (forall u b, LocalTZA env u b = tz) ->
  Day (LocalTime env t) = Day (LocalTime env (now env)) ->
  num_lt (Some t) (setHours0 env (newDate env)) = false.
Proof.
  intros Z T. rewrite (setHours0_fixed _ tz Z).
  unfold LocalTime in T. rewrite !Z in T.
  destruct (TimeClip _) as [m|] eqn:C; [|reflexivity].
  apply TimeClip_Some in C as [-> _]. cbn [num_lt]. apply Z.ltb_ge.
  rewrite <- T. unfold Day, msPerDay. Z.div_mod_to_equations; lia.
Qed.

(** The local day of midnight UTC of day [D]: [D] itself from Greenwich
    eastwards, the day before to the west. *)
Lemma local_day_of_utc_midnight D tz :
  - msPerDay < tz < msPerDay ->
  Day (D * msPerDay + tz) = if tz <? 0 then D - 1 else D.
Proof.
  unfold Day, msPerDay. intros B.
  destruct (Z.ltb_spec tz 0); Z.div_mod_to_equations; lia.
Qed.

(** The two flags of a plain date in a zone with a fixed offset. *)
Lemma plain_date_flags h tz d :
  (forall t b, LocalTZA (clock h) t b = tz) ->
  - msPerDay < tz < msPerDay ->
  validTime d = true ->
  0 <= now (clock h) -> validTime (now (clock h)) = true ->
  isOverdue h (Some (dateString d))
  = (if tz <? 0 then Day d <=? Day (now (clock h) + tz)
     else Day d <? Day (now (clock h) + tz))
  /\ isDueToday h (Some (dateString d))
     = (if tz <? 0 then Day d - 1 =? Day (now (clock h) + tz)
        else Day d =? Day (now (clock h) + tz)).
Proof.
  intros Z B V P N. set (today := Day (now (clock h) + tz)).
  unfold isOverdue, isDueToday. rewrite dateString_given.
  rewrite (newDateOf_dateString h d V), (setHours0_fixed _ tz Z).
  rewrite (TimeClip_valid _ (midnight_valid _ _ P N B)).
  unfold newDate. rewrite sameDateString. unfold LocalTime. rewrite !Z.
  rewrite (local_day_of_utc_midnight _ _ B). fold today. cbn [num_lt].
  split; [|now destruct (tz <? 0)].
  unfold msPerDay in *.
  destruct (Z.ltb_spec tz 0);
    [destruct (Z.leb_spec (Day d) today) | destruct (Z.ltb_spec (Day d) today)];
    first [apply Z.ltb_lt | apply Z.ltb_ge]; lia.
Qed.

(** The whole days from the clock to midnight UTC of a day that is [k]
    days after the one of the clock. *)
Lemma days_to_plain_date n D k :
  n mod msPerDay <> 0 -> D = Day n + k ->
  (D * msPerDay - n) / msPerDay = k - 1.
Proof.
  intros N ->. unfold Day, msPerDay in *. Z.div_mod_to_equations; lia.
Qed.

Lemma formatDate_labels h d :
  validTime d = true ->
  (now (clock h)) mod msPerDay <> 0 ->
  (Day d = Day (now (clock h)) ->
   formatDate h (dateString d) = str "Yesterday")
  /\ (Day d = Day (now (clock h)) + 1 ->
      formatDate h (dateString d) = str "Today")
  /\ (Day d = Day (now (clock h)) + 2 ->
      formatDate h (dateString d) = str "Tomorrow").
Proof.
  intros V N. unfold formatDate.
  rewrite (newDateOf_dateString h d V). unfold newDate, floor_diff, num_eq.
  change (1000 * 60 * 60 * 24) with msPerDay.
  repeat split; intros E.
  - rewrite (days_to_plain_date _ _ 0 N) by lia. reflexivity.
  - rewrite (days_to_plain_date _ _ 1 N) by lia. reflexivity.
  - rewrite (days_to_plain_date _ _ 2 N) by lia. reflexivity.
Qed.

End HelperFacts.

Section HelperProperties.
Local Open Scope Z_scope.

(** X1: [isDueToday] holds for a due date exactly when it is given, reads as
    a date, and that date falls on the local calendar day of the clock. *)
Theorem X1_isDueToday_same_local_day : forall h d,
  isDueToday h d = true <->
  exists s t, given d = Some s /\ newDateOf h s = Some t
              /\ Day (LocalTime (clock h) t)
                 = Day (LocalTime (clock h) (now (clock h))).
Proof.
  intros h d. unfold isDueToday. destruct (given d) as [s|].
  - destruct (newDateOf h s) as [t|] eqn:P.
    + unfold newDate. rewrite sameDateString. split.
      * intros E. exists s, t.
        split; [reflexivity|split; [exact P|now apply Z.eqb_eq]].
      * intros (s' & t' & [= <-] & Q & E). rewrite P in Q.
        injection Q as <-. now apply Z.eqb_eq.
    + unfold newDate. rewrite (proj1 (invalidDateString _ _)). split.
      * discriminate.
      * intros (s' & t' & [= <-] & Q & _). rewrite P in Q. discriminate Q.
  - split; [discriminate|]. intros (s' & t' & [=] & _).
Qed.

(** X2: in a zone with a fixed offset, a due date that is due today is not
    overdue. *)
Theorem X2_due_today_is_not_overdue : forall h tz d,
  (forall t b, LocalTZA (clock h) t b = tz) ->
  isDueToday h d = true -> isOverdue h d = false.
Proof.
  intros h tz d Z T. unfold isDueToday, isOverdue in *.
  destruct (given d) as [s|]; [|reflexivity].
  destruct (newDateOf h s) as [t|]; [|reflexivity].
  unfold newDate in T. rewrite sameDateString in T. apply Z.eqb_eq in T.
  exact (not_before_midnight _ tz t Z T).
Qed.

Lemma X2_witness :
  isDueToday (hostOf envNoonWest) (Some (str "2024-03-11")) = true
  /\ isOverdue (hostOf envNoonWest) (Some (str "2024-03-11")) = false.
Proof.
  split; [reflexivity|].
  apply (X2_due_today_is_not_overdue (hostOf envNoonWest) (-18000000));
    reflexivity.
Defined.

(** X3: a due date written as a plain date, YYYY-MM-DD, stands for midnight
    UTC.  From Greenwich eastwards it is overdue from the day after and
    due today on its own day; west of Greenwich it is overdue on its own
    day already and due today on the day before. *)
Theorem X3_plain_date_by_zone : forall h tz d,
  (forall t b, LocalTZA (clock h) t b = tz) ->
  - msPerDay < tz < msPerDay ->
  validTime d = true ->
  0 <= now (clock h) -> validTime (now (clock h)) = true ->
  let today := Day (now (clock h) + tz) in
  isOverdue h (Some (dateString d))
  = (if tz <? 0 then Day d <=? today else Day d <? today)
  /\ isDueToday h (Some (dateString d))
     = (if tz <? 0 then Day d - 1 =? today else Day d =? today).
Proof.
  intros h tz d Z B V P N. exact (plain_date_flags h tz d Z B V P N).
Qed.

Lemma X3_witness :
  isOverdue (hostOf envNoonWest) (Some (str "2024-03-10")) = true
  /\ isDueToday (hostOf envNoonWest) (Some (str "2024-03-10")) = false.
Proof.
  exact (X3_plain_date_by_zone (hostOf envNoonWest) (-18000000) 1710090000000
           (fun _ _ => eq_refl) (conj eq_refl eq_refl) eq_refl
           ltac:(discriminate) eq_refl).
Defined.

(** X4: on a device on UTC, a task captured with [due:today] is due today
    and not overdue. *)
Theorem X4_due_today_on_utc : forall h input m,
  (forall t b, LocalTZA (clock h) t b = 0) ->
  0 <= now (clock h) -> validTime (now (clock h)) = true ->
  dueMatch (titleAtDue input) = Some m ->
  toLowerCase (m1 m) = str "today" ->
  exists p, parseTaskInput (clock h) input = Normal p
            /\ isDueToday h (dueDate p) = true
            /\ isOverdue h (dueDate p) = false.
Proof.
  intros h input m Z P V M T.
  destruct (due_today_general (clock h) input m M T) as (p & E & D).
  exists p. split; [exact E|]. rewrite D. unfold utcDateString.
  destruct (plain_date_flags h 0 (now (clock h)) Z) as [O I];
    try assumption; [unfold msPerDay; lia|].
  rewrite O, I, Z.add_0_r. cbn [Z.ltb Z.compare].
  split; [apply Z.eqb_refl|apply Z.ltb_irrefl].
Qed.

Lemma X4_witness :
  exists p, parseTaskInput envNoonUTC (str "call bob due:today") = Normal p
            /\ isDueToday (hostOf envNoonUTC) (dueDate p) = true
            /\ isOverdue (hostOf envNoonUTC) (dueDate p) = false.
Proof.
  apply (X4_due_today_on_utc (hostOf envNoonUTC) (str "call bob due:today")
           {| m0 := str "due:today"; m1 := str "today" |});
    first [reflexivity | discriminate].
Defined.

(** X5: west of Greenwich, while the local date is the UTC date, a task
    captured with [due:today] is overdue at once and is not due today. *)
Theorem X5_due_today_west_of_greenwich : forall h tz input m,
  (forall t b, LocalTZA (clock h) t b = tz) ->
  - msPerDay < tz < 0 ->
  Day (now (clock h) + tz) = Day (now (clock h)) ->
  0 <= now (clock h) -> validTime (now (clock h)) = true ->
  dueMatch (titleAtDue input) = Some m ->
  toLowerCase (m1 m) = str "today" ->
  exists p, parseTaskInput (clock h) input = Normal p
            /\ isDueToday h (dueDate p) = false
            /\ isOverdue h (dueDate p) = true.
Proof.
  intros h tz input m Z B L P V M T.
  destruct (due_today_general (clock h) input m M T) as (p & E & D).
  exists p. split; [exact E|]. rewrite D. unfold utcDateString.
  destruct (plain_date_flags h tz (now (clock h)) Z) as [O I];
    try assumption; [unfold msPerDay in *; lia|].
  rewrite O, I, L. destruct (Z.ltb_spec tz 0); [|lia].
  split; [apply Z.eqb_neq; lia|apply Z.leb_refl].
Qed.

Lemma X5_witness :
  exists p, parseTaskInput envNoonWest (str "call bob due:today") = Normal p
            /\ isDueToday (hostOf envNoonWest) (dueDate p) = false
            /\ isOverdue (hostOf envNoonWest) (dueDate p) = true.
Proof.
  apply (X5_due_today_west_of_greenwich (hostOf envNoonWest) (-18000000)
           (str "call bob due:today")
           {| m0 := str "due:today"; m1 := str "today" |});
    first [reflexivity | discriminate | (split; reflexivity)].
Defined.

(** X6: [formatDate] counts whole days from the clock to midnight UTC of a
    plain date.  Unless the clock stands at midnight UTC itself, the date
    of today (UTC) is labelled Yesterday, the one of tomorrow Today, and
    the one of the day after Tomorrow. *)
Theorem X6_formatDate_plain_date : forall h d,
  validTime d = true ->
  (now (clock h)) mod msPerDay <> 0 ->
  (Day d = Day (now (clock h)) ->
   formatDate h (dateString d) = str "Yesterday")
  /\ (Day d = Day (now (clock h)) + 1 ->
      formatDate h (dateString d) = str "Today")
  /\ (Day d = Day (now (clock h)) + 2 ->
      formatDate h (dateString d) = str "Tomorrow").
Proof.
  intros h d V N. exact (formatDate_labels h d V N).
Qed.

Lemma X6_witness :
  formatDate (hostOf envNoonUTC) (str "2024-03-10") = str "Yesterday"
  /\ formatDate (hostOf envNoonUTC) (str "2024-03-11") = str "Today"
  /\ formatDate (hostOf envNoonUTC) (str "2024-03-12") = str "Tomorrow".
Proof.
  split; [|split].
  - apply (X6_formatDate_plain_date (hostOf envNoonUTC) 1710090000000);
      first [reflexivity | discriminate].
  - reflexivity.
  - reflexivity.
Defined.

(** X7: the due date of a task captured with [due:today] is shown as
    Yesterday, in every time zone, unless the clock stands at midnight
    UTC. *)
Theorem X7_due_today_is_shown_as_yesterday : forall h input m,
  validTime (now (clock h)) = true ->
  (now (clock h)) mod msPerDay <> 0 ->
  dueMatch (titleAtDue input) = Some m ->
  toLowerCase (m1 m) = str "today" ->
  exists p s, parseTaskInput (clock h) input = Normal p
              /\ dueDate p = Some s
              /\ formatDate h s = str "Yesterday".
Proof.
  intros h input m V N M T.
  destruct (due_today_general (clock h) input m M T) as (p & E & D).
  exists p, (utcDateString (clock h)). split; [exact E|]. split; [exact D|].
  unfold utcDateString.
  now apply (formatDate_labels h (now (clock h)) V N).
Qed.

Lemma X7_witness :
  exists p s, parseTaskInput envNoonWest (str "call bob due:today") = Normal p
              /\ dueDate p = Some s
              /\ formatDate (hostOf envNoonWest) s = str "Yesterday".
Proof.
  apply (X7_due_today_is_shown_as_yesterday (hostOf envNoonWest)
           (str "call bob due:today")
           {| m0 := str "due:today"; m1 := str "today" |});
    first [reflexivity | discriminate].
Defined.

(** X8: [isDueSoon] counts whole days in the same way: unless the clock
    stands at midnight UTC, a plain date is due soon from the day after
    today (UTC) to [days + 1] days ahead, and the date of today is not.
    The clock and the date lie after 1970, where the arithmetic of the
    source is exact. *)
Theorem X8_isDueSoon_plain_date : forall h d days,
  0 <= d -> validTime d = true ->
  0 <= now (clock h) -> validTime (now (clock h)) = true ->
  (now (clock h)) mod msPerDay <> 0 ->
  isDueSoon h (Some (dateString d)) days
  = (Day (now (clock h)) <? Day d) && (Day d <=? Day (now (clock h)) + 1 + days).
Proof.
  intros h d days _ V _ _ N. unfold isDueSoon. rewrite dateString_given.
  rewrite (newDateOf_dateString h d V).
  unfold newDate, floor_diff, num_ge, num_le.
  change (1000 * 60 * 60 * 24) with msPerDay.
  set (n := now (clock h)) in *.
  assert (Q : (Day d * msPerDay - n) / msPerDay = Day d - Day n - 1).
  { unfold Day, msPerDay in *. Z.div_mod_to_equations; lia. }
  rewrite Q. f_equal.
  - destruct (Z.leb_spec 0 (Day d - Day n - 1)), (Z.ltb_spec (Day n) (Day d));
      first [reflexivity | lia].
  - destruct (Z.leb_spec (Day d - Day n - 1) days),
      (Z.leb_spec (Day d) (Day n + 1 + days)); first [reflexivity | lia].
Qed.

Lemma X8_witness :
  isDueSoon (hostOf envNoonUTC) (Some (str "2024-03-10")) 7 = false
  /\ isDueSoon (hostOf envNoonUTC) (Some (str "2024-03-18")) 7 = true.
Proof.
  split.
  - apply (X8_isDueSoon_plain_date (hostOf envNoonUTC) 1710090000000 7);
      first [reflexivity | discriminate].
  - reflexivity.
Defined.

(** X9: for a time stamp written by [toISOString], [getRelativeTime] goes by
    its age.  Less than a minute, or a stamp that lies in the future,
    reads Just now; then come whole minutes up to an hour, whole hours up
    to a day, and whole days up to a week.  The clock and the stamp lie
    after 1970, where the arithmetic of the source is exact. *)
Theorem X9_relative_time_of_a_stamp : forall h c,
  0 <= c -> validTime c = true ->
  0 <= now (clock h) -> validTime (now (clock h)) = true ->
  let age := now (clock h) - c in
  (age < 60000 -> getRelativeTime h (isoString c) = str "Just now")
  /\ (60000 <= age < 3600000 ->
      getRelativeTime h (isoString c) = decimal (age / 60000) ++ str "m ago")
  /\ (3600000 <= age < 86400000 ->
      getRelativeTime h (isoString c) = decimal (age / 3600000) ++ str "h ago")
  /\ (86400000 <= age < 604800000 ->
      getRelativeTime h (isoString c) = decimal (age / 86400000) ++ str "d ago").
Proof.
  intros h c _ V _ _ age. unfold getRelativeTime.
  rewrite (newDateOf_isoString h c V). unfold newDate, floor_diff.
  fold age. repeat split; intros A.
  - destruct (Z.ltb_spec (age / 60000) 1); [reflexivity|].
    exfalso. Z.div_mod_to_equations; lia.
  - destruct (Z.ltb_spec (age / 60000) 1);
      [exfalso; Z.div_mod_to_equations; lia|].
    destruct (Z.ltb_spec (age / 60000) 60); [reflexivity|].
    exfalso. Z.div_mod_to_equations; lia.
  - destruct (Z.ltb_spec (age / 60000) 1);
      [exfalso; Z.div_mod_to_equations; lia|].
    destruct (Z.ltb_spec (age / 60000) 60);
      [exfalso; Z.div_mod_to_equations; lia|].
    destruct (Z.ltb_spec (age / 3600000) 24); [reflexivity|].
    exfalso. Z.div_mod_to_equations; lia.
  - destruct (Z.ltb_spec (age / 60000) 1);
      [exfalso; Z.div_mod_to_equations; lia|].
    destruct (Z.ltb_spec (age / 60000) 60);
      [exfalso; Z.div_mod_to_equations; lia|].
    destruct (Z.ltb_spec (age / 3600000) 24);
      [exfalso; Z.div_mod_to_equations; lia|].
    destruct (Z.ltb_spec (age / 86400000) 7); [reflexivity|].
    exfalso. Z.div_mod_to_equations; lia.
Qed.

Lemma X9_witness :
  getRelativeTime (hostOf envNoonUTC) (str "2024-03-10T17:00:30.000Z")
  = str "Just now"
  /\ getRelativeTime (hostOf envNoonUTC) (str "2024-03-10T14:00:00.000Z")
     = str "3h ago".
Proof.
  split.
  - apply (X9_relative_time_of_a_stamp (hostOf envNoonUTC) 1710090030000);
      first [reflexivity | discriminate].
  - apply (X9_relative_time_of_a_stamp (hostOf envNoonUTC) 1710079200000);
      first [reflexivity | discriminate | (split; [discriminate|reflexivity])].
Defined.

End HelperProperties.

(** ** The store *)

Section StoreFacts.

Lemma timestamp_returns env : toISOString (newDate env) = Normal (timestamp env).
Proof. unfold timestamp, newDate. now rewrite toISOString_Some. Qed.

Lemma timestamp_isoString env : timestamp env = isoString (now env).
Proof. unfold timestamp, newDate. now rewrite toISOString_Some. Qed.

Lemma status_eqb_eq a b : status_eqb a b = true <-> a = b.
Proof. destruct a, b; simpl; split; intros H; first [reflexivity|discriminate]. Qed.

Lemma status_eqb_refl a : status_eqb a a = true.
Proof. now destruct a. Qed.

End StoreFacts.

Section StoreProperties.

(** X10: the five buckets of [stats] add up to its total: every task is
    counted in exactly one of inbox, next, waiting, someday and done. *)
Theorem X10_stats_buckets_add_up : forall h tasks,
  let s := stats h tasks in
  (Stats.inbox s + Stats.next s + Stats.waiting s + Stats.someday s
   + Stats.done s = Stats.total s)%nat.
Proof.
  intros h tasks. cbv zeta. unfold stats.
  cbn [Stats.inbox Stats.next Stats.waiting Stats.someday Stats.done Stats.total].
  induction tasks as [|t tasks IH]; [reflexivity|].
  cbn [filter List.length]. destruct (Task.status t); cbn [status_eqb List.length]; lia.
Qed.

(** X11: [completeTask] moves to done exactly the tasks with the given id
    that were not done: the done count grows by their number, and the
    total stays. *)
Theorem X11_completeTask_counts : forall h env id tasks,
  Stats.done (stats h (completeTask env id tasks))
  = (Stats.done (stats h tasks)
     + List.length (filter (fun t => JS.eqb (Task.id t) id
                                     && negb (status_eqb (Task.status t) done))
                           tasks))%nat
  /\ Stats.total (stats h (completeTask env id tasks))
     = Stats.total (stats h tasks).
Proof.
  intros h env id tasks. unfold stats. cbn [Stats.done Stats.total].
  split; [|apply length_map].
  induction tasks as [|t tasks IH]; [reflexivity|].
  cbn [completeTask map filter]. fold (completeTask env id tasks).
  destruct (JS.eqb (Task.id t) id); cbn [Task.status status_eqb andb negb].
  - destruct (Task.status t); cbn [status_eqb negb List.length]; rewrite IH; lia.
  - destruct (status_eqb (Task.status t) done); cbn [List.length];
      rewrite IH; lia.
Qed.

(** X12: a task that was added is removed again by [deleteTask] with its
    id, and the list is as before, provided no older task has the same
    id. *)
Theorem X12_add_then_delete : forall env newId task tasks,
  (forall t, In t tasks -> Task.id t <> newId) ->
  deleteTask newId (snd (addTask env newId task tasks)) = tasks.
Proof.
  intros env newId task tasks F. unfold addTask, deleteTask. cbn [snd].
  rewrite filter_app. cbn [filter Task.id]. rewrite eqb_refl. cbn [negb].
  rewrite app_nil_r.
  induction tasks as [|t tasks IH]; [reflexivity|].
  cbn [filter]. rewrite eqb_false by (apply F; now left). cbn [negb].
  f_equal. apply IH. intros x I. apply F. now right.
Qed.

Lemma X12_witness :
  deleteTask (str "d4")
    (snd (addTask envNoonUTC (str "d4")
            {| NewTask.title := str "call bob";
               NewTask.description := None;
               NewTask.status := inbox;
               NewTask.priority := None;
               NewTask.context := None;
               NewTask.projectId := None;
               NewTask.dueDate := None;
               NewTask.waitingFor := None;
               NewTask.tags := None;
               NewTask.completedAt := None;
               NewTask.estimatedMinutes := None |} someTasks))
  = someTasks.
Proof.
  apply X12_add_then_delete. intros t I.
  repeat (destruct I as [<-|I]; [discriminate|]). destruct I.
Defined.

(** X13: once a task is completed it is in no context list: the context
    lists after [completeTask] are the ones before without the tasks of
    that id. *)
Theorem X13_completed_task_leaves_context_lists : forall env id tasks context,
  getTasksByContext (completeTask env id tasks) context
  = deleteTask id (getTasksByContext tasks context).
Proof.
  intros env id tasks context. unfold getTasksByContext, deleteTask, completeTask.
  induction tasks as [|t tasks IH]; [reflexivity|].
  cbn [map filter]. rewrite IH.
  destruct (JS.eqb (Task.id t) id) eqn:E; cbn [Task.context Task.status status_eqb].
  - rewrite andb_false_r.
    destruct (is_string (Task.context t) context
              && negb (status_eqb (Task.status t) done)); [|reflexivity].
    cbn [filter]. now rewrite E.
  - destruct (is_string (Task.context t) context
              && negb (status_eqb (Task.status t) done)); [|reflexivity].
    cbn [filter]. now rewrite E.
Qed.

(** X14: the check box toggles between done and next.  Ticking a task that
    is not done and ticking it again leaves it in next, whatever bucket it
    came from, and leaves the completion stamp of the first tick on it. *)
Theorem X14_toggle_twice : forall env env' task task' tasks,
  Task.status task <> done ->
  Task.id task' = Task.id task -> Task.status task' = done ->
  let after := handleComplete env' task' (handleComplete env task tasks) in
  map Task.status after
  = map (fun t => if JS.eqb (Task.id t) (Task.id task) then next
                  else Task.status t) tasks
  /\ map Task.completedAt after
     = map (fun t => if JS.eqb (Task.id t) (Task.id task)
                     then Some (timestamp env)
                     else Task.completedAt t) tasks.
Proof.
  intros env env' task task' tasks N I D. cbv zeta. unfold handleComplete.
  rewrite D, I. cbn [status_eqb].
  destruct (status_eqb (Task.status task) done) eqn:E;
    [now apply status_eqb_eq in E|].
  unfold moveTask, completeTask. rewrite !map_map.
  split; apply map_ext; intros t;
    destruct (JS.eqb (Task.id t) (Task.id task)) eqn:Q; cbn [Task.id];
    rewrite Q; reflexivity.
Qed.

Lemma X14_witness :
  let b2 := plainTask (str "b2") (str "answer Ann") waiting in
  let b2' := plainTask (str "b2") (str "answer Ann") done in
  map Task.status
    (handleComplete envNoonWest b2' (handleComplete envNoonUTC b2 someTasks))
  = [inbox; next; next].
Proof.
  cbv zeta.
  apply (proj1 (X14_toggle_twice envNoonUTC envNoonWest
                  (plainTask (str "b2") (str "answer Ann") waiting)
                  (plainTask (str "b2") (str "answer Ann") done)
                  someTasks ltac:(discriminate) eq_refl eq_refl)).
Defined.

(** X15: the weekly review counts a task as completed this week by its
    completion stamp alone, so a task that was completed and then moved to
    another bucket still counts: after [completeTask] and [moveTask] on
    an id, every task of that id is counted. *)
Theorem X15_reopened_task_still_counts_as_completed : forall h id status tasks,
  (0 <= now (clock h))%Z -> validTime (now (clock h)) = true ->
  Review.completedThisWeek h (moveTask id status (completeTask (clock h) id tasks))
  = (List.length (filter (fun t => JS.eqb (Task.id t) id) tasks)
     + Review.completedThisWeek h (deleteTask id tasks))%nat.
Proof.
  intros h id status tasks P V. unfold Review.completedThisWeek.
  assert (W : num_ge (newDateOf h (timestamp (clock h))) (Review.weekAgo (clock h))
              = true).
  { rewrite timestamp_isoString, (newDateOf_isoString h _ V).
    unfold Review.weekAgo, newDate. rewrite TimeClip_valid.
    - cbn [num_ge num_le]. apply Z.leb_le. lia.
    - unfold validTime in *. apply Z.leb_le in V. apply Z.leb_le. lia. }
  assert (G : given (Some (timestamp (clock h))) = Some (timestamp (clock h)))
    by (rewrite timestamp_isoString; apply isoString_given).
  unfold moveTask, completeTask, deleteTask.
  induction tasks as [|t tasks IH]; [reflexivity|].
  cbn [map filter]. destruct (JS.eqb (Task.id t) id) eqn:E;
    cbn [Task.id]; rewrite E; cbn [negb filter Task.completedAt].
  - rewrite G, W. cbn [List.length]. rewrite IH. reflexivity.
  - destruct (given (Task.completedAt t)) as [s|]; [|exact IH].
    destruct (num_ge (newDateOf h s) (Review.weekAgo (clock h)));
      cbn [List.length]; rewrite IH; lia.
Qed.

Lemma X15_witness :
  Review.completedThisWeek (hostOf envNoonUTC)
    (moveTask (str "b2") next (completeTask envNoonUTC (str "b2") someTasks))
  = 1%nat.
Proof.
  apply (X15_reopened_task_still_counts_as_completed (hostOf envNoonUTC)
           (str "b2") next someTasks);
    first [reflexivity | discriminate].
Defined.

(** X16: [moveTask] to done sets no completion stamp.  A task that has none
    and is moved to done is on the calendar no more: it is neither among
    the open tasks nor among the completed tasks of any day. *)
Theorem X16_moved_to_done_leaves_the_calendar : forall h date id tasks completed t,
  (forall x, In x tasks -> Task.id x = id -> given (Task.completedAt x) = None) ->
  In t (Calendar.getTasksForDate h date (moveTask id done tasks) completed) ->
  Task.id t <> id.
Proof.
  intros h date id tasks completed t F I.
  unfold Calendar.getTasksForDate in I. apply filter_In in I as [I C].
  unfold moveTask in I. apply in_map_iff in I as (x & <- & X).
  destruct (JS.eqb (Task.id x) id) eqn:E.
  - exfalso. cbn [Task.status Task.completedAt status_eqb negb] in C.
    apply eqb_eq in E. rewrite (F x X E) in C.
    destruct completed; discriminate C.
  - intros Q. apply eqb_eq in Q. congruence.
Qed.

Lemma X16_witness :
  Calendar.getTasksForDate (hostOf envNoonUTC) (Some 1710090000000%Z)
    (moveTask (str "b2") done someTasks) true = []
  /\ forall t,
       In t (Calendar.getTasksForDate (hostOf envNoonUTC) (Some 1710090000000%Z)
               (moveTask (str "b2") done someTasks) false) ->
       Task.id t <> str "b2".
Proof.
  split; [reflexivity|]. intros t.
  apply (X16_moved_to_done_leaves_the_calendar (hostOf envNoonUTC)
           (Some 1710090000000%Z) (str "b2") someTasks false t).
  intros x I _.
  repeat (destruct I as [<-|I]; [reflexivity|]). destruct I.
Defined.

(** X17: the calendar lists an open task under the local day of midnight
    UTC of its due date.  For a plain date that is the day itself from
    Greenwich eastwards, and the day before west of Greenwich. *)
Theorem X17_calendar_day_of_a_plain_date : forall h tz t d task tasks,
  (forall u b, LocalTZA (clock h) u b = tz) ->
  (- msPerDay < tz < msPerDay)%Z ->
  validTime d = true ->
  In task tasks ->
  Task.status task <> done ->
  Task.dueDate task = Some (dateString d) ->
  In task (Calendar.getTasksForDate h (Some t) tasks false)
  <-> Day (t + tz) = (if tz <? 0 then Day d - 1 else Day d)%Z.
Proof.
  intros h tz t d task tasks Z B V I N D.
  unfold Calendar.getTasksForDate. rewrite filter_In.
  destruct (status_eqb (Task.status task) done) eqn:S;
    [now apply status_eqb_eq in S|].
  rewrite D, dateString_given, (newDateOf_dateString h d V), sameDateString.
  unfold LocalTime. rewrite !Z, (local_day_of_utc_midnight _ _ B).
  rewrite Z.eqb_eq. split; [intros [_ E]; now symmetry|intros E; now split].
Qed.

Lemma X17_witness :
  In datedTask
     (Calendar.getTasksForDate (hostOf envNoonWest) (Some 1710003600000%Z)
        (someTasks ++ [datedTask]) false).
Proof.
  apply (proj2 (X17_calendar_day_of_a_plain_date (hostOf envNoonWest) (-18000000)
                  1710003600000 1710090000000 datedTask (someTasks ++ [datedTask])
                  (fun _ _ => eq_refl) (conj eq_refl eq_refl) eq_refl
                  ltac:(apply in_or_app; right; now left)
                  ltac:(discriminate) eq_refl)).
  reflexivity.
Defined.

(** X18: a task that is ticked off shows among the completed tasks of
    today on the calendar, in every time zone: the completion stamp reads
    back as the time of the clock. *)
Theorem X18_completed_task_shows_today : forall h id task tasks,
  validTime (now (clock h)) = true ->
  In task tasks -> Task.id task = id ->
  exists task',
    In task' (Calendar.getTasksForDate h (newDate (clock h))
                (completeTask (clock h) id tasks) true)
    /\ Task.id task' = id /\ Task.title task' = Task.title task.
Proof.
  intros h id task tasks V I E. eexists. split; [|split].
  - unfold Calendar.getTasksForDate. apply filter_In. split.
    + unfold completeTask. apply in_map_iff. exists task.
      split; [|exact I]. rewrite E, eqb_refl. reflexivity.
    + cbn [Task.status Task.completedAt status_eqb negb].
      rewrite timestamp_isoString, isoString_given.
      rewrite (newDateOf_isoString h _ V). apply eqb_refl.
  - reflexivity.
  - reflexivity.
Qed.

Lemma X18_witness :
  exists task',
    In task' (Calendar.getTasksForDate (hostOf envNoonWest)
                (newDate envNoonWest)
                (completeTask envNoonWest (str "b2") someTasks) true)
    /\ Task.id task' = str "b2" /\ Task.title task' = str "answer Ann".
Proof.
  apply (X18_completed_task_shows_today (hostOf envNoonWest) (str "b2")
           (plainTask (str "b2") (str "answer Ann") waiting) someTasks);
    first [reflexivity | (right; now left)].
Defined.

End StoreProperties.

(** ** The edit form *)

Section EditFacts.

Lemma trimEnd_solid t : forallb notWhiteSpace t = true -> trimEnd t = t.
Proof.
  induction t as [|c t IH]; intros H; [reflexivity|].
  cbn [forallb] in H. apply andb_true_iff in H as [C H].
  rewrite trimEnd_cons, (IH H). unfold notWhiteSpace in C.
  apply negb_true_iff in C. rewrite C. now destruct t.
Qed.

Lemma trimEnd_padding s b :
  forallb isWhiteSpace b = true -> trimEnd (s ++ b) = trimEnd s.
Proof.
  intros B. induction s as [|c s IH].
  - cbn [app]. induction b as [|x b IHb]; [reflexivity|].
    cbn [forallb] in B. apply andb_true_iff in B as [X B].
    rewrite trimEnd_cons, (IHb B). cbn. now rewrite X.
  - cbn [app]. now rewrite !trimEnd_cons, IH.
Qed.

Lemma trimStart_padding a s :
  forallb isWhiteSpace a = true -> trimStart (a ++ s) = trimStart s.
Proof.
  intros A. induction a as [|x a IH]; [reflexivity|].
  cbn [forallb] in A. apply andb_true_iff in A as [X A].
  unfold trimStart in *. cbn [app dropWhile]. rewrite X. now apply IH.
Qed.

Lemma trim_padded a s b :
  forallb isWhiteSpace a = true -> forallb isWhiteSpace b = true ->
  trim (a ++ s ++ b) = trim (s ++ b).
Proof. intros A B. unfold trim. now rewrite trimStart_padding. Qed.

Lemma trim_word x w :
  isWordChar x = true -> forallb isWordChar w = true ->
  trim (x :: w) = x :: w.
Proof.
  intros X W. unfold trim, trimStart. cbn [dropWhile].
  rewrite (word_not_space x X). apply trimEnd_solid.
  cbn [forallb]. unfold notWhiteSpace at 1. rewrite (word_not_space x X).
  cbn [negb andb]. apply forallb_forall. intros c I.
  unfold notWhiteSpace. rewrite word_not_space; [reflexivity|].
  now apply (proj1 (forallb_forall _ _) W).
Qed.

Lemma split_nocomma a :
  forallb (fun c => negb (N.eqb c 44)) a = true -> EditTaskModal.split 44%N a = [a].
Proof.
  induction a as [|c a IH]; intros H; [reflexivity|].
  cbn [forallb] in H. apply andb_true_iff in H as [C H].
  apply negb_true_iff in C. cbn [EditTaskModal.split]. now rewrite C, (IH H).
Qed.

Lemma split_comma a r :
  forallb (fun c => negb (N.eqb c 44)) a = true ->
  EditTaskModal.split 44%N (a ++ 44%N :: r) = a :: EditTaskModal.split 44%N r.
Proof.
  induction a as [|c a IH]; intros H.
  - cbn [app EditTaskModal.split]. now rewrite N.eqb_refl.
  - cbn [forallb] in H. apply andb_true_iff in H as [C H].
    apply negb_true_iff in C. cbn [app EditTaskModal.split]. now rewrite C, (IH H).
Qed.

Lemma plainTag_parts t :
  plainTag t = true ->
  t <> [] /\ trim t = t /\ forallb (fun c => negb (N.eqb c 44)) t = true.
Proof.
  unfold plainTag. intros H.
  apply andb_true_iff in H as [H C]. apply andb_true_iff in H as [N T].
  repeat split; [now destruct t|now apply eqb_eq|exact C].
Qed.

Lemma split_join l : forall t pre,
  forallb (fun c => negb (N.eqb c 44)) pre = true ->
  forallb plainTag (t :: l) = true ->
  EditTaskModal.split 44%N (pre ++ EditTaskModal.join (str ", ") (t :: l)) = (pre ++ t) :: map (cons 32%N) l.
Proof.
  induction l as [|t' l IH]; intros t pre P H.
  - cbn [EditTaskModal.join map]. apply split_nocomma. rewrite forallb_app.
    cbn [forallb] in H. apply andb_true_iff in H as [H _].
    apply plainTag_parts in H as (_ & _ & H).
    apply andb_true_iff; split; assumption.
  - cbn [forallb] in H. apply andb_true_iff in H as [T H].
    apply plainTag_parts in T as (_ & _ & T).
    change (EditTaskModal.join (str ", ") (t :: t' :: l))
      with (t ++ 44%N :: [32%N] ++ EditTaskModal.join (str ", ") (t' :: l)).
    rewrite app_assoc, split_comma
      by (rewrite forallb_app; apply andb_true_iff; split; assumption).
    rewrite (IH t' [32%N] eq_refl H). reflexivity.
Qed.

Lemma readTags_join tags :
  forallb plainTag tags = true -> EditTaskModal.readTags (EditTaskModal.join (str ", ") tags) = tags.
Proof.
  intros H. destruct tags as [|t l]; [reflexivity|].
  unfold EditTaskModal.readTags. pose proof (split_join l t [] eq_refl H) as S.
  cbn [app] in S. rewrite S. clear S. cbn [map].
  cbn [forallb] in H. apply andb_true_iff in H as [T H].
  apply plainTag_parts in T as (N & -> & _).
  destruct t as [|c t]; [contradiction|]. cbn [filter]. f_equal.
  induction l as [|t' l IH]; [reflexivity|].
  cbn [forallb] in H. apply andb_true_iff in H as [T' H].
  apply plainTag_parts in T' as (N' & E' & _).
  cbn [map]. replace (trim (32%N :: t')) with t' by (now rewrite <- E' at 1).
  destruct t' as [|c' t']; [contradiction|]. cbn [filter]. f_equal.
  exact (IH H).
Qed.

Lemma word_plainTag x w :
  isWordChar x = true -> forallb isWordChar w = true ->
  plainTag (x :: w) = true.
Proof.
  intros X W. unfold plainTag. rewrite (trim_word x w X W), eqb_refl.
  cbn [andb]. apply forallb_forall. intros c [<-|I].
  - apply negb_true_iff, N.eqb_neq. intros ->. discriminate X.
  - apply negb_true_iff, N.eqb_neq. intros ->.
    pose proof (proj1 (forallb_forall _ _) W _ I) as Q. discriminate Q.
Qed.

(** The tags of the parser are words. *)
Lemma parsed_tags_plain env input p :
  parseTaskInput env input = Normal p -> forallb plainTag (tags p) = true.
Proof.
  rewrite parseTaskInput_unfold.
  destruct (parseDue env (titleAtDue input)) as [r|e]; [|discriminate].
  cbn [bind]. intros [= <-]. cbn [tags].
  rewrite (proj1 (parseTags_spec _)). apply forallb_forall.
  intros t I. apply in_map_iff in I as (u & <- & I).
  apply plusWords_shape in I as (x & w & -> & X & W).
  exact (word_plainTag x w X W).
Qed.

Lemma takeWhile_whole p (a : jsstring) : forallb p a = true -> takeWhile p a = a.
Proof.
  induction a as [|c a IH]; intros H; [reflexivity|].
  cbn [forallb] in H. apply andb_true_iff in H as [C H].
  cbn [takeWhile]. now rewrite C, (IH H).
Qed.

Lemma before_T_dateString t : before_T (dateString t) = dateString t.
Proof.
  unfold before_T. apply takeWhile_whole. unfold dateString.
  rewrite !forallb_app, !pad_digits_no_T. cbn [forallb andb].
  rewrite !andb_true_r. unfold year_string.
  destruct ((0 <=? YearFromTime t)%Z && (YearFromTime t <=? 9999)%Z);
    [apply pad_digits_no_T|].
  rewrite forallb_app, pad_digits_no_T.
  now destruct (YearFromTime t <? 0)%Z.
Qed.

Lemma before_T_isoString t : before_T (isoString t) = dateString t.
Proof.
  pose proof (isoDay_Some t) as H. unfold isoDay in H.
  rewrite toISOString_Some in H. cbn [bind] in H. now injection H.
Qed.

Lemma dateString_of_Day a b : Day a = Day b -> dateString a = dateString b.
Proof.
  intros H. destruct (fields_of_Day a b H) as (Y & M & D & _).
  unfold dateString. now rewrite Y, M, D.
Qed.

Lemma Day_of_midnight t : Day (Day t * msPerDay) = Day t.
Proof. unfold Day, msPerDay. Z.div_mod_to_equations; lia. Qed.

End EditFacts.

Section EditProperties.

(** X19: the edit form writes the tags as one text, joined by a comma and a
    space, and reads them back by splitting at the commas, trimming and
    dropping what is empty.  Tags that are not empty and have no comma and
    no white space at their ends come back as they were. *)
Theorem X19_edit_form_gives_back_plain_tags : forall task,
  forallb plainTag (Task.tags task) = true ->
  EditTaskModal.readTags (EditTaskModal.tags (EditTaskModal.load task))
  = Task.tags task.
Proof.
  intros task H. unfold EditTaskModal.load. cbn [EditTaskModal.tags].
  now apply readTags_join.
Qed.

Lemma X19_witness :
  EditTaskModal.readTags (EditTaskModal.tags (EditTaskModal.load datedTask))
  = [str "urgent"; str "followup"].
Proof.
  apply (X19_edit_form_gives_back_plain_tags datedTask). reflexivity.
Defined.

(** X20: the tags of a task captured in the inbox are words, so they
    survive the edit form: opened and read back, they are the same. *)
Theorem X20_captured_tags_survive_the_edit_form :
  forall h newId projects input tasks tasks',
  handleAddTask h newId projects input tasks = Normal tasks' ->
  exists t, tasks' = tasks ++ [t]
            /\ EditTaskModal.readTags
                 (EditTaskModal.tags (EditTaskModal.load t)) = Task.tags t.
Proof.
  intros h newId projects input tasks tasks'. unfold handleAddTask.
  destruct (parseTaskInput (clock h) input) as [p|e] eqn:P; [|discriminate].
  cbn [bind]. intros [= <-]. unfold addTask. cbn [snd].
  eexists. split; [reflexivity|].
  unfold EditTaskModal.load.
  cbn [EditTaskModal.tags Task.tags NewTask.tags].
  apply readTags_join. exact (parsed_tags_plain _ _ _ P).
Qed.

Lemma X20_witness :
  handleAddTask (hostOf envNoonUTC) (str "d4") [someProject]
    (str "email boss +urgent +followup >wait") someTasks
  = Normal (someTasks ++ [capturedTask])
  /\ exists t, someTasks ++ [capturedTask] = someTasks ++ [t]
               /\ EditTaskModal.readTags
                    (EditTaskModal.tags (EditTaskModal.load t)) = Task.tags t.
Proof.
  assert (E : handleAddTask (hostOf envNoonUTC) (str "d4") [someProject]
                (str "email boss +urgent +followup >wait") someTasks
              = Normal (someTasks ++ [capturedTask]))
    by (vm_compute; reflexivity).
  split; [exact E|].
  exact (X20_captured_tags_survive_the_edit_form _ _ _ _ _ _ E).
Defined.

(** X21: a task whose due date is a plain date, opened in the edit form and
    saved, gets the time stamp of midnight UTC of that day as its due
    date.  The stamp reads as the same instant, and the form shows the
    same date for it. *)
Theorem X21_edit_form_keeps_the_due_day : forall h task d,
  validTime d = true ->
  Task.dueDate task = Some (dateString d) ->
  exists updates,
    EditTaskModal.handleSave h (EditTaskModal.load task) = Normal updates
    /\ TaskUpdates.dueDate updates = Some (Some (isoString (Day d * msPerDay)))
    /\ newDateOf h (isoString (Day d * msPerDay)) = newDateOf h (dateString d)
    /\ EditTaskModal.dueDate (EditTaskModal.load (spread task updates))
       = EditTaskModal.dueDate (EditTaskModal.load task).
Proof.
  intros h task d V D.
  assert (V' : validTime (Day d * msPerDay) = true).
  { pose proof (validTime_Day d V) as C. now apply TimeClip_Some in C. }
  assert (L : EditTaskModal.dueDate (EditTaskModal.load task) = dateString d).
  { unfold EditTaskModal.load. cbn [EditTaskModal.dueDate].
    now rewrite D, dateString_given, before_T_dateString. }
  unfold EditTaskModal.handleSave. rewrite L.
  pose proof (dateString_given d) as G. unfold given in G.
  destruct (dateString d) as [|c s] eqn:S; [discriminate|].
  rewrite <- S in *. rewrite (newDateOf_dateString h d V), toISOString_Some.
  cbn [bind]. eexists. split; [reflexivity|].
  cbn [TaskUpdates.dueDate]. split; [reflexivity|].
  split; [now rewrite newDateOf_isoString|].
  unfold EditTaskModal.load at 1, spread.
  cbn [EditTaskModal.dueDate Task.dueDate TaskUpdates.dueDate over].
  rewrite isoString_given, before_T_isoString.
  apply dateString_of_Day, Day_of_midnight.
Qed.

Lemma X21_witness :
  exists updates,
    EditTaskModal.handleSave (hostOf envNoonWest) (EditTaskModal.load datedTask)
    = Normal updates
    /\ TaskUpdates.dueDate updates = Some (Some (str "2024-03-10T00:00:00.000Z")).
Proof.
  destruct (X21_edit_form_keeps_the_due_day (hostOf envNoonWest) datedTask
              1710090000000%Z eq_refl eq_refl) as (u & S & D & _).
  exists u. split; [exact S|exact D].
Defined.

(** X22: saving the edit form changes neither the id, the bucket, the
    creation stamp nor the completion stamp of any task, and changes no
    task of another id than the selected one. *)
Theorem X22_saving_an_edit_keeps : forall h selectedTask form tasks tasks',
  EditTaskModal.saveEdit h selectedTask form tasks = Normal tasks' ->
  map Task.id tasks' = map Task.id tasks
  /\ map Task.status tasks' = map Task.status tasks
  /\ map Task.createdAt tasks' = map Task.createdAt tasks
  /\ map Task.completedAt tasks' = map Task.completedAt tasks
  /\ deleteTask (Task.id selectedTask) tasks'
     = deleteTask (Task.id selectedTask) tasks.
Proof.
  intros h sel f tasks tasks'. unfold EditTaskModal.saveEdit.
  destruct (EditTaskModal.handleSave h f) as [u|e] eqn:S; [|discriminate].
  cbn [bind]. intros [= <-].
  assert (U : TaskUpdates.id u = None /\ TaskUpdates.status u = None
              /\ TaskUpdates.createdAt u = None
              /\ TaskUpdates.completedAt u = None).
  { unfold EditTaskModal.handleSave in S.
    destruct (match EditTaskModal.dueDate f with [] => _ | _ :: _ => _ end);
      [|discriminate].
    cbn [bind] in S. injection S as <-. now repeat split. }
  destruct U as (U1 & U2 & U3 & U4).
  unfold updateTask, deleteTask.
  repeat split; try (rewrite map_map; apply map_ext; intros t;
    destruct (JS.eqb (Task.id t) (Task.id sel)); [|reflexivity];
    unfold spread; cbn; now rewrite ?U1, ?U2, ?U3, ?U4).
  induction tasks as [|t tasks IH]; [reflexivity|].
  cbn [map filter]. destruct (JS.eqb (Task.id t) (Task.id sel)) eqn:E.
  - unfold spread at 1. cbn [Task.id]. rewrite U1. cbn [over].
    rewrite E. exact IH.
  - rewrite E. cbn [negb]. now rewrite IH.
Qed.

Lemma X22_witness :
  exists tasks',
    EditTaskModal.saveEdit (hostOf envNoonUTC) datedTask
      (EditTaskModal.load datedTask) (someTasks ++ [datedTask]) = Normal tasks'
    /\ map Task.status tasks' = [inbox; waiting; next; waiting].
Proof.
  eexists. split; [reflexivity|].
  apply (X22_saving_an_edit_keeps (hostOf envNoonUTC) datedTask
           (EditTaskModal.load datedTask) (someTasks ++ [datedTask]) _ eq_refl).
Defined.

(** X23: saving the edit form throws, and nothing is saved, exactly when
    the due date field is not empty and its text does not read as a
    date. *)
Theorem X23_saving_an_edit_throws : forall h selectedTask form tasks,
  EditTaskModal.saveEdit h selectedTask form tasks = Throw RangeError
  <-> EditTaskModal.dueDate form <> []
      /\ newDateOf h (EditTaskModal.dueDate form) = None.
Proof.
  intros h sel f tasks. unfold EditTaskModal.saveEdit, EditTaskModal.handleSave.
  destruct (EditTaskModal.dueDate f) as [|c s] eqn:D.
  - cbn [bind]. split; [discriminate|]. now intros [N _].
  - destruct (newDateOf h (c :: s)) as [t|].
    + rewrite toISOString_Some. cbn [bind]. split; [discriminate|].
      now intros [_ N].
    + cbn [toISOString bind]. split; [|reflexivity]. now split.
Qed.

End EditProperties.

(** ** Capture: the quick-capture field and the inbox screen *)

Section CaptureFacts.

Lemma parseStatus_not_done title : fst (parseStatus title) <> Some done.
Proof.
  unfold parseStatus. destruct (statusMatch title) as [m|]; [|discriminate].
  cbn [fst].
  destruct (JS.eqb (toLowerCase (m1 m)) (str "next")); [discriminate|].
  destruct (JS.eqb (toLowerCase (m1 m)) (str "wait")
            || JS.eqb (toLowerCase (m1 m)) (str "waiting")); [discriminate|].
  destruct (JS.eqb (toLowerCase (m1 m)) (str "someday")
            || JS.eqb (toLowerCase (m1 m)) (str "maybe")); discriminate.
Qed.

Lemma parsed_status_not_done env input p :
  parseTaskInput env input = Normal p -> status p <> Some done.
Proof.
  rewrite parseTaskInput_unfold.
  destruct (parseDue env (titleAtDue input)) as [r|e]; [|discriminate].
  cbn [bind]. intros [= <-]. cbn [status]. apply parseStatus_not_done.
Qed.

Lemma trim_core a s b :
  forallb isWhiteSpace a = true -> forallb isWhiteSpace b = true ->
  forallb notWhiteSpace s = true ->
  trim (a ++ s ++ b) = s.
Proof.
  intros A B S. rewrite (trim_padded a s b A B). unfold trim.
  destruct s as [|c s].
  - cbn [app]. replace (trimStart b) with (@nil code_unit); [reflexivity|].
    clear A. induction b as [|x b IH]; [reflexivity|].
    cbn [forallb] in B. apply andb_true_iff in B as [X B].
    unfold trimStart in *. cbn [dropWhile]. rewrite X. now apply IH.
  - pose proof S as S'. cbn [forallb] in S'.
    apply andb_true_iff in S' as [C _].
    unfold notWhiteSpace in C. apply negb_true_iff in C.
    unfold trimStart. cbn [app dropWhile]. rewrite C.
    change (c :: s ++ b) with ((c :: s) ++ b).
    rewrite (trimEnd_padding _ _ B). now apply trimEnd_solid.
Qed.

End CaptureFacts.

Section CaptureProperties.

(** X24: a capture that returns leaves a blank text alone, and for any other
    text empties the field and appends exactly one task: it has the new
    id, the title and the bucket the parser found, the inbox when it found
    none, and it is never done nor stamped as completed. *)
Theorem X24_capture_adds_one_open_task :
  forall h newId projects text tasks field tasks',
  handleSubmit h newId projects text tasks = Normal (field, tasks') ->
  (trim text = [] /\ field = text /\ tasks' = tasks)
  \/ (trim text <> [] /\ field = []
      /\ exists p t,
           parseTaskInput (clock h) (trim text) = Normal p
           /\ tasks' = tasks ++ [t]
           /\ Task.id t = newId
           /\ Task.title t = title p
           /\ Task.status t = match status p with
                              | Some s => s
                              | None => inbox
                              end
           /\ Task.status t <> done
           /\ Task.completedAt t = None
           /\ Task.createdAt t = timestamp (clock h)).
Proof.
  intros h newId projects text tasks field tasks'. unfold handleSubmit.
  destruct (trim text) as [|c s] eqn:T.
  - intros [= <- <-]. now left.
  - unfold handleAddTask.
    destruct (parseTaskInput (clock h) (c :: s)) as [p|e] eqn:P; [|discriminate].
    cbn [bind]. intros [= <- <-]. right.
    split; [discriminate|]. split; [reflexivity|].
    exists p. eexists. split; [reflexivity|]. unfold addTask. cbn [snd].
    split; [reflexivity|].
    cbn [Task.id Task.title Task.status Task.completedAt Task.createdAt
         NewTask.title NewTask.status NewTask.completedAt].
    repeat split.
    pose proof (parsed_status_not_done _ _ _ P) as N.
    destruct (status p) as [[]|]; first [discriminate | contradiction].
Qed.

Lemma X24_witness :
  handleSubmit (hostOf envNoonUTC) (str "d4") [someProject]
    (str "  email boss +urgent +followup >wait ") someTasks
  = Normal ([], someTasks ++ [capturedTask])
  /\ Task.status capturedTask <> done.
Proof.
  assert (E : handleSubmit (hostOf envNoonUTC) (str "d4") [someProject]
                (str "  email boss +urgent +followup >wait ") someTasks
              = Normal ([], someTasks ++ [capturedTask]))
    by (vm_compute; reflexivity).
  split; [exact E|].
  destruct (X24_capture_adds_one_open_task _ _ _ _ _ _ _ E)
    as [(B & _)|(_ & _ & p & t & _ & L & _ & _ & _ & D & _)].
  - discriminate B.
  - apply app_inv_head in L. injection L as <-. exact D.
Defined.

(** X25: the inbox never invents a project.  The task it adds has the id of
    the first project of the list whose title fits the name after [pro:];
    when no title fits, or no name was given, the task has no project, and
    the name is kept nowhere. *)
Theorem X25_capture_project :
  forall h newId projects input tasks tasks',
  handleAddTask h newId projects input tasks = Normal tasks' ->
  exists p t,
    parseTaskInput (clock h) input = Normal p
    /\ tasks' = tasks ++ [t]
    /\ match Task.projectId t with
       | Some id =>
           exists name before project after,
             projectName p = Some name
             /\ projects = before ++ project :: after
             /\ Project.id project = id
             /\ projectNamed h name project = true
             /\ forall q, In q before -> projectNamed h name q = false
       | None =>
           forall name, given (projectName p) = Some name ->
           forall q, In q projects -> projectNamed h name q = false
       end.
Proof.
  intros h newId projects input tasks tasks'. unfold handleAddTask.
  destruct (parseTaskInput (clock h) input) as [p|e] eqn:P; [|discriminate].
  cbn [bind]. intros [= <-]. exists p. eexists. split; [reflexivity|].
  unfold addTask. cbn [snd]. split; [reflexivity|].
  cbn [Task.projectId NewTask.projectId].
  destruct (given (projectName p)) as [name|] eqn:G; [|discriminate].
  assert (N : projectName p = Some name).
  { unfold given in G. destruct (projectName p) as [[|c s]|]; congruence. }
  destruct (find (projectNamed h name) projects) as [project|] eqn:F.
  - exists name.
    assert (S : exists before after,
              projects = before ++ project :: after
              /\ projectNamed h name project = true
              /\ forall q, In q before -> projectNamed h name q = false).
    { clear -F. induction projects as [|q projects IH]; [discriminate|].
      cbn [find] in F. destruct (projectNamed h name q) eqn:Q.
      - injection F as <-. exists [], projects. now repeat split.
      - destruct (IH F) as (b & a & -> & T & B).
        exists (q :: b), a. repeat split; [exact T|].
        intros x [<-|I]; [exact Q|now apply B]. }
    destruct S as (before & after & S1 & S2 & S3).
    exists before, project, after. now repeat split.
  - intros name' [= <-] q I. exact (find_none _ _ F q I).
Qed.

Lemma X25_witness :
  handleAddTask (hostOf envNoonUTC) (str "d4") [someProject]
    (str "book flights pro:vacation") someTasks
  = Normal (someTasks ++ [flightsTask])
  /\ Task.projectId flightsTask = Some (Project.id someProject).
Proof.
  assert (E : handleAddTask (hostOf envNoonUTC) (str "d4") [someProject]
                (str "book flights pro:vacation") someTasks
              = Normal (someTasks ++ [flightsTask]))
    by (vm_compute; reflexivity).
  split; [exact E|].
  destruct (X25_capture_project _ _ _ _ _ _ E) as (p & t & _ & L & M).
  apply app_inv_head in L. injection L as <-. reflexivity.
Defined.

(** X26: the quick-capture field tests the text, not the title the parser
    leaves.  A text that holds a context and white space only is accepted,
    and the task it adds has an empty title. *)
Theorem X26_token_only_capture_has_no_title :
  forall h newId projects tasks a w b,
  forallb isWhiteSpace a = true -> forallb isWhiteSpace b = true ->
  In w context_words ->
  exists t,
    handleSubmit h newId projects (a ++ (str "@" ++ w) ++ b) tasks
    = Normal ([], tasks ++ [t])
    /\ Task.title t = []
    /\ Task.context t = Some (str "@" ++ w)
    /\ Task.status t = inbox.
Proof.
  intros h newId projects tasks a w b A B I. unfold handleSubmit.
  assert (S : forallb notWhiteSpace (str "@" ++ w) = true)
    by (repeat (destruct I as [<-|I]; [reflexivity|]); destruct I).
  rewrite (trim_core a _ b A B S).
  change (str "@" ++ w) with (64%N :: w). cbv iota. unfold handleAddTask.
  assert (P : parseTaskInput (clock h) (64%N :: w)
              = Normal {| title := []; priority := None;
                          context := Some (64%N :: w); projectName := None;
                          dueDate := None; tags := []; status := None |})
    by (repeat (destruct I as [<-|I]; [vm_compute; reflexivity|]); destruct I).
  rewrite P. cbn [bind]. eexists. split; [reflexivity|].
  now repeat split.
Qed.

Lemma X26_witness :
  exists t,
    handleSubmit (hostOf envNoonUTC) (str "d4") [] (str " @home ") someTasks
    = Normal ([], someTasks ++ [t])
    /\ Task.title t = []
    /\ Task.context t = Some (str "@home")
    /\ Task.status t = inbox.
Proof.
  apply (X26_token_only_capture_has_no_title (hostOf envNoonUTC) (str "d4") []
           someTasks (str " ") (str "home") (str " "));
    first [reflexivity | now left].
Defined.

End CaptureProperties.

(** ** The calendar grid *)

Section CalendarFacts.
Local Open Scope Z_scope.

Lemma MakeDay_date y m d : MakeDay y m d = MakeDay y m 1 + d - 1.
Proof. unfold MakeDay. lia. Qed.

Lemma MakeDay_next y m : MakeDay y (m + 1) 1 = MakeDay y m 1 + DaysInMonth y m.
Proof. unfold DaysInMonth. lia. Qed.

Lemma DaysInMonth_ge_28 y m : 0 <= m <= 11 -> 28 <= DaysInMonth y m.
Proof.
  intros M. unfold DaysInMonth.
  assert (N : MakeDay y (m + 1) 1 =
              if m =? 11 then DayFromYear (y + 1)
              else DayOfMonthStart y (m + 1)).
  { destruct (Z.eqb_spec m 11) as [E|E].
    - rewrite E. apply MakeDay_december.
    - apply MakeDay_month. lia. }
  rewrite N, MakeDay_month, DayFromYear_step by lia.
  unfold DayOfMonthStart.
  assert (C : m = 0 \/ m = 1 \/ m = 2 \/ m = 3 \/ m = 4 \/ m = 5 \/ m = 6
              \/ m = 7 \/ m = 8 \/ m = 9 \/ m = 10 \/ m = 11) by lia.
  destruct (DaysInYear_cases y) as [[L ->]|[L ->]];
    repeat (destruct C as [C|C]; [rewrite C; simpl; lia|]);
    rewrite C; simpl; lia.
Qed.

Lemma DayFromYear_mono a b : a <= b -> DayFromYear a <= DayFromYear b.
Proof. unfold DayFromYear. intros H. Z.div_mod_to_equations. lia. Qed.

Lemma DayOfMonthStart_bounds y m :
  0 <= m <= 11 ->
  DayFromYear y <= DayOfMonthStart y m
  /\ DayOfMonthStart y m + DaysInMonth y m <= DayFromYear (y + 1).
Proof.
  intros M. unfold DaysInMonth.
  assert (N : MakeDay y (m + 1) 1 =
              if m =? 11 then DayFromYear (y + 1)
              else DayOfMonthStart y (m + 1)).
  { destruct (Z.eqb_spec m 11) as [E|E].
    - rewrite E. apply MakeDay_december.
    - apply MakeDay_month. lia. }
  rewrite N, MakeDay_month, DayFromYear_step by lia.
  unfold DayOfMonthStart.
  assert (C : m = 0 \/ m = 1 \/ m = 2 \/ m = 3 \/ m = 4 \/ m = 5 \/ m = 6
              \/ m = 7 \/ m = 8 \/ m = 9 \/ m = 10 \/ m = 11) by lia.
  destruct (DaysInYear_cases y) as [[L ->]|[L ->]];
    repeat (destruct C as [C|C]; [rewrite C; simpl; lia|]);
    rewrite C; simpl; lia.
Qed.

(** The fields of a day of month [m] of year [y] are [y], [m] and the
    day: [MakeDay] read backwards. *)
Lemma fields_of_MakeDay y m d t :
  0 <= m <= 11 -> 1 <= d <= DaysInMonth y m ->
  Day t = MakeDay y m d ->
  YearFromTime t = y /\ MonthFromTime t = m /\ DateFromTime t = d.
Proof.
  intros M D E.
  pose proof (YearFromTime_spec t) as Y.
  pose proof (MakeDay_fields t 0) as F. rewrite Z.add_0_r in F.
  pose proof (DateFromTime_range t) as R.
  pose proof (MonthFromTime_range t) as M'.
  rewrite MakeDay_date, MakeDay_month in E by lia.
  rewrite MakeDay_date, MakeDay_month in F by lia.
  destruct (DayOfMonthStart_bounds y m M) as [B1 B2].
  destruct (DayOfMonthStart_bounds (YearFromTime t) (MonthFromTime t) M')
    as [B3 B4].
  assert (Yy : YearFromTime t = y).
  { unfold TimeFromYear, msPerDay in Y. unfold Day, msPerDay in E, F.
    destruct (Z.lt_trichotomy (YearFromTime t) y) as [L|[L|L]]; [|exact L|].
    - pose proof (DayFromYear_mono (YearFromTime t + 1) y ltac:(lia)). lia.
    - pose proof (DayFromYear_mono (y + 1) (YearFromTime t) ltac:(lia)). lia. }
  rewrite Yy in *.
  assert (Mm : MonthFromTime t = m).
  { set (m' := MonthFromTime t) in *. clearbody m'.
    unfold DaysInMonth in R, D, B2, B4.
    assert (N : forall k, 0 <= k <= 11 ->
                MakeDay y (k + 1) 1 =
                if k =? 11 then DayFromYear (y + 1)
                else DayOfMonthStart y (k + 1)).
    { intros k K. destruct (Z.eqb_spec k 11) as [Q|Q].
      - rewrite Q. apply MakeDay_december.
      - apply MakeDay_month. lia. }
    rewrite (N m M), MakeDay_month in D by lia.
    rewrite (N m' M'), MakeDay_month in R by lia.
    rewrite DayFromYear_step in D, R.
    unfold DayOfMonthStart in *.
    assert (C : m = 0 \/ m = 1 \/ m = 2 \/ m = 3 \/ m = 4 \/ m = 5 \/ m = 6
                \/ m = 7 \/ m = 8 \/ m = 9 \/ m = 10 \/ m = 11) by lia.
    assert (C' : m' = 0 \/ m' = 1 \/ m' = 2 \/ m' = 3 \/ m' = 4 \/ m' = 5
                 \/ m' = 6 \/ m' = 7 \/ m' = 8 \/ m' = 9 \/ m' = 10 \/ m' = 11)
      by lia.
    clear N B1 B2 B3 B4 M M' Y.
    destruct (DaysInYear_cases y) as [[L LE]|[L LE]]; rewrite LE in *;
      repeat (destruct C as [C|C]); rewrite C in *;
      repeat (destruct C' as [C'|C']); rewrite C' in *;
      simpl in *; lia. }
  rewrite Mm in *. repeat split. lia.
Qed.

Lemma newDateYMD_fixed env tz y m d :
  (forall t b, LocalTZA env t b = tz) ->
  100 <= y ->
  newDateYMD env y m d = TimeClip (MakeDay y m d * msPerDay - tz).
Proof.
  intros Z Y. unfold newDateYMD, UTC, MakeDate, MakeTime.
  destruct (Z.leb_spec y 99); [lia|]. rewrite andb_false_r, Z.
  f_equal. lia.
Qed.

Lemma MakeDay_valid y m d tz :
  100 <= y <= 275000 -> 0 <= m <= 12 -> -50 <= d <= 50 ->
  - msPerDay < tz < msPerDay ->
  validTime (MakeDay y m d * msPerDay - tz) = true.
Proof.
  intros Y M D B.
  assert (R : DayFromYear y + d - 1 <= MakeDay y m d
              <= DayFromYear (y + 1) + d - 1).
  { rewrite MakeDay_date. destruct (Z.eq_dec m 12) as [->|N].
    - rewrite MakeDay_december, DayFromYear_step.
      destruct (DaysInYear_cases y) as [[L _]|[L _]]; lia.
    - rewrite MakeDay_month by lia.
      destruct (DayOfMonthStart_bounds y m ltac:(lia)) as [B1 B2].
      pose proof (DaysInMonth_ge_28 y m ltac:(lia)). lia. }
  pose proof (DayFromYear_mono 100 y ltac:(lia)) as L.
  pose proof (DayFromYear_mono (y + 1) 275001 ltac:(lia)) as U.
  change (DayFromYear 100) with (-683003) in L.
  change (DayFromYear 275001) with 99722525 in U.
  unfold validTime, msPerDay in *. apply Z.leb_le. lia.
Qed.

Lemma map_seq_ext {A} (f g : nat -> A) a b n :
  (forall k, (k < n)%nat -> f (a + k)%nat = g (b + k)%nat) ->
  map f (seq a n) = map g (seq b n).
Proof.
  revert a b. induction n as [|n IH]; intros a b H; [reflexivity|].
  cbn [seq map]. f_equal.
  - specialize (H 0%nat ltac:(lia)). now rewrite !Nat.add_0_r in H.
  - apply IH. intros k K. specialize (H (S k) ltac:(lia)).
    now rewrite !Nat.add_succ_r in H.
Qed.

Lemma rev_map_seq {A} (f g : nat -> A) n :
  (forall k, (k < n)%nat -> f k = g (n - 1 - k)%nat) ->
  rev (map f (seq 0 n)) = map g (seq 0 n).
Proof.
  revert g. induction n as [|n IH]; intros g H; [reflexivity|].
  rewrite seq_S at 1. rewrite map_app, rev_app_distr. cbn [map rev app plus].
  rewrite (IH (fun k => g (S k))).
  - cbn [seq map]. rewrite <- seq_shift, map_map. f_equal.
    rewrite (H n ltac:(lia)). f_equal. lia.
  - intros k K. rewrite (H k ltac:(lia)). f_equal. lia.
Qed.

End CalendarFacts.

Section CalendarProperties.
Local Open Scope Z_scope.

(** X27: the grid of a month has 42 cells, whatever the month: they are the
    local midnights of 42 days in a row, the first of them a Sunday, and
    the cells marked as of the current month are exactly its days. *)
Theorem X27_calendar_grid : forall h tz year month tasks,
  (forall t b, LocalTZA (clock h) t b = tz) ->
  - msPerDay < tz < msPerDay ->
  100 <= year <= 275000 -> 0 <= month <= 11 ->
  let first := MakeDay year month 1 in
  let sunday := first - WeekDay (first * msPerDay) in
  let cells := Calendar.getCalendarDays h year month tasks in
  WeekDay (sunday * msPerDay) = 0
  /\ map Calendar.date cells
     = map (fun k => Some ((sunday + Z.of_nat k) * msPerDay - tz)) (seq 0 42)
  /\ map Calendar.isCurrentMonth cells
     = map (fun k => (first <=? sunday + Z.of_nat k)
                     && (sunday + Z.of_nat k <? first + DaysInMonth year month))
           (seq 0 42).
Proof.
  intros h tz year month tasks Z B Y M first sunday cells.
  pose proof (WeekDay_range (first * msPerDay)) as W.
  pose proof (DaysInMonth_ge_28 year month M) as D28.
  pose proof (DaysInMonth_le_31 year month M) as D31.
  set (sp := WeekDay (first * msPerDay)) in *.
  set (dim := DaysInMonth year month) in *.
  assert (S0 : WeekDay (sunday * msPerDay) = 0).
  { subst sunday sp. unfold WeekDay, Day, msPerDay in *.
    Z.div_mod_to_equations; lia. }
  split; [exact S0|].
  assert (V : forall m d, 0 <= m <= 12 -> -50 <= d <= 50 ->
              newDateYMD (clock h) year m d
              = Some (MakeDay year m d * msPerDay - tz)).
  { intros m d Hm Hd. rewrite (newDateYMD_fixed _ tz) by (assumption || lia).
    apply TimeClip_valid, MakeDay_valid; assumption. }
  assert (P : Calendar.downFrom (getDay (clock h) (newDateYMD (clock h) year month 1))
              = rev (map Z.of_nat (seq 0 (Z.to_nat sp)))).
  { rewrite V by lia. unfold getDay, Calendar.downFrom, LocalTime.
    rewrite Z. fold first.
    replace (first * msPerDay - tz + tz) with (first * msPerDay) by lia.
    reflexivity. }
  assert (Q : Calendar.upTo (getDate (clock h)
                               (newDateYMD (clock h) year (month + 1) 0))
              = map Z.of_nat (seq 1 (Z.to_nat dim))).
  { rewrite V by lia. unfold getDate, Calendar.upTo, LocalTime. rewrite Z.
    destruct (fields_of_MakeDay year month dim
                (MakeDay year (month + 1) 0 * msPerDay - tz + tz) M)
      as (_ & _ & ->); [lia| |reflexivity].
    rewrite (MakeDay_date year (month + 1) 0), MakeDay_next.
    rewrite (MakeDay_date year month dim). fold dim.
    unfold Day, msPerDay. Z.div_mod_to_equations; lia. }
  subst cells. unfold Calendar.getCalendarDays. rewrite P, Q. clear P Q.
  rewrite !length_app, !length_map, length_rev, length_map, !length_seq.
  set (SP := Z.to_nat sp). set (DIM := Z.to_nat dim).
  assert (R : Z.to_nat (42 - Z.of_nat (SP + DIM)) = (42 - SP - DIM)%nat) by lia.
  unfold Calendar.upTo. rewrite R.
  assert (E : seq 0 42 = seq 0 SP ++ seq SP DIM ++ seq (SP + DIM) (42 - SP - DIM)).
  { rewrite <- !seq_app. f_equal. lia. }
  rewrite E, !map_app, !map_map, !map_rev, !map_map, <- !app_assoc.
  cbn [Calendar.date Calendar.isCurrentMonth].
  assert (F1 : forall k : nat, (k < SP)%nat ->
               MakeDay year month (- Z.of_nat (SP - 1 - k))
               = sunday + Z.of_nat k).
  { intros k K. rewrite MakeDay_date. fold first. subst sunday. lia. }
  assert (F2 : forall k : nat, (k < DIM)%nat ->
               MakeDay year month (Z.of_nat (1 + k))
               = sunday + Z.of_nat (SP + k)).
  { intros k K. rewrite MakeDay_date. fold first. subst sunday. lia. }
  assert (F3 : forall k : nat, (k < 42 - SP - DIM)%nat ->
               MakeDay year (month + 1) (Z.of_nat (1 + k))
               = sunday + Z.of_nat (SP + DIM + k)).
  { intros k K. rewrite MakeDay_date, MakeDay_next. fold first dim.
    subst sunday. lia. }
  split.
  - f_equal; [|f_equal].
    + apply (rev_map_seq
               (fun x => newDateYMD (clock h) year month (- Z.of_nat x))).
      intros k K. rewrite V by lia. rewrite <- (F1 (SP - 1 - k)%nat) by lia.
      do 4 f_equal. lia.
    + apply map_seq_ext. intros k K. rewrite V by lia. now rewrite F2.
    + apply map_seq_ext. intros k K. rewrite V by lia. now rewrite F3.
  - f_equal; [|f_equal].
    + apply (rev_map_seq (fun _ => false)). intros k K.
      symmetry. apply andb_false_iff. left. apply Z.leb_gt.
      subst sunday. lia.
    + apply map_seq_ext. intros k K. symmetry. apply andb_true_iff.
      split; [apply Z.leb_le|apply Z.ltb_lt]; subst sunday; lia.
    + apply map_seq_ext. intros k K. symmetry. apply andb_false_iff.
      right. apply Z.ltb_ge. subst sunday. lia.
Qed.

Lemma X27_witness :
  List.length (Calendar.getCalendarDays (hostOf envNoonWest) 2024 2 someTasks)
  = 42%nat
  /\ map Calendar.isCurrentMonth
       (Calendar.getCalendarDays (hostOf envNoonWest) 2024 2 someTasks)
     = repeat false 5%nat ++ repeat true 31%nat ++ repeat false 6%nat.
Proof.
  destruct (X27_calendar_grid (hostOf envNoonWest) (-18000000) 2024 2 someTasks)
    as (_ & D & C);
    [ reflexivity | split; reflexivity | split; discriminate
    | split; discriminate | ].
  split.
  - apply (f_equal (@List.length _)) in D.
    rewrite !length_map, length_seq in D. exact D.
  - etransitivity; [exact C|]. vm_compute. reflexivity.
Defined.

End CalendarProperties.

(** ** The tasks screen *)

Section SortFacts.
Local Open Scope Z_scope.

Lemma priorityOrder_range p : 0 <= TasksScreen.priorityOrder p <= 3.
Proof. destruct p as [[]|]; simpl; lia. Qed.

Lemma filter_none {A} (f : A -> bool) l :
  (forall x, In x l -> f x = false) -> filter f l = [].
Proof.
  induction l as [|x l IH]; intros H; [reflexivity|].
  cbn [filter]. rewrite (H x (or_introl eq_refl)). apply IH.
  intros y I. apply H. now right.
Qed.

(** Inserting into a list that is sorted by rank, given as its four
    ranks in a row. *)
Lemma insert_ranked a l :
  TasksScreen.insert a (TasksScreen.withPriority (Some high) l ++ TasksScreen.withPriority (Some medium) l
            ++ TasksScreen.withPriority (Some low) l ++ TasksScreen.withPriority None l)
  = TasksScreen.withPriority (Some high) (a :: l) ++ TasksScreen.withPriority (Some medium) (a :: l)
    ++ TasksScreen.withPriority (Some low) (a :: l) ++ TasksScreen.withPriority None (a :: l).
Proof.
  assert (G : forall r l1 l2,
              (forall x, In x l1 -> TasksScreen.priorityOrder (Task.priority x) < r) ->
              (forall x, In x l2 -> r <= TasksScreen.priorityOrder (Task.priority x)) ->
              TasksScreen.priorityOrder (Task.priority a) = r ->
              TasksScreen.insert a (l1 ++ l2) = l1 ++ a :: l2).
  { intros r l1 l2 H1 H2 R. induction l1 as [|x l1 IH].
    - cbn [app]. destruct l2 as [|y l2]; [reflexivity|].
      cbn [TasksScreen.insert]. unfold TasksScreen.compare.
      specialize (H2 y (or_introl eq_refl)).
      destruct (Z.leb_spec (TasksScreen.priorityOrder (Task.priority a)
                            - TasksScreen.priorityOrder (Task.priority y)) 0);
        [reflexivity|lia].
    - cbn [app TasksScreen.insert]. unfold TasksScreen.compare.
      pose proof (H1 x (or_introl eq_refl)).
      destruct (Z.leb_spec (TasksScreen.priorityOrder (Task.priority a)
                            - TasksScreen.priorityOrder (Task.priority x)) 0); [lia|].
      f_equal. apply IH. intros y I. apply H1. now right. }
  assert (W : forall p x, In x (TasksScreen.withPriority p l) ->
              TasksScreen.priorityOrder (Task.priority x) = TasksScreen.priorityOrder p).
  { intros p x I. apply filter_In in I as [_ I]. now apply Z.eqb_eq. }
  unfold TasksScreen.withPriority at 5 6 7 8. cbn [filter].
  fold (TasksScreen.withPriority (Some high) l) (TasksScreen.withPriority (Some medium) l)
       (TasksScreen.withPriority (Some low) l) (TasksScreen.withPriority None l).
  destruct (Task.priority a) as [[]|] eqn:P; cbn [TasksScreen.priorityOrder Z.eqb].
  - apply (G 0 []); rewrite ?P; try reflexivity; [contradiction|].
    intros x I. apply priorityOrder_range.
  - rewrite (G 1 (TasksScreen.withPriority (Some high) l)); rewrite ?P;
      try reflexivity.
    + intros x I. rewrite (W _ _ I). simpl. lia.
    + intros x I. repeat (apply in_app_or in I as [I|I]);
        rewrite (W _ _ I); simpl; lia.
  - rewrite (app_assoc (TasksScreen.withPriority (Some high) l)).
    rewrite (G 2 (TasksScreen.withPriority (Some high) l ++ TasksScreen.withPriority (Some medium) l));
      rewrite ?P; try reflexivity.
    + now rewrite <- !app_assoc.
    + intros x I. apply in_app_or in I as [I|I]; rewrite (W _ _ I); simpl; lia.
    + intros x I. apply in_app_or in I as [I|I]; rewrite (W _ _ I); simpl; lia.
  - rewrite (app_assoc (TasksScreen.withPriority (Some high) l)).
    rewrite (app_assoc (TasksScreen.withPriority (Some high) l ++ TasksScreen.withPriority (Some medium) l)).
    rewrite (G 3 ((TasksScreen.withPriority (Some high) l ++ TasksScreen.withPriority (Some medium) l)
                  ++ TasksScreen.withPriority (Some low) l)); rewrite ?P; try reflexivity.
    + now rewrite <- !app_assoc.
    + intros x I. repeat (apply in_app_or in I as [I|I]);
        rewrite (W _ _ I); simpl; lia.
    + intros x I. rewrite (W _ _ I). simpl. lia.
Qed.

Lemma sort_ranked l :
  TasksScreen.sort l = TasksScreen.withPriority (Some high) l ++ TasksScreen.withPriority (Some medium) l
           ++ TasksScreen.withPriority (Some low) l ++ TasksScreen.withPriority None l.
Proof.
  induction l as [|a l IH]; [reflexivity|].
  unfold TasksScreen.sort in *. cbn [fold_right]. rewrite IH. apply insert_ranked.
Qed.

End SortFacts.

Section SortProperties.

(** X28: the tasks screen lists the tasks of a bucket by priority: those of
    high priority first, then medium, then low, then those without one,
    and within each priority in the order of the store. *)
Theorem X28_tasks_are_listed_by_priority : forall tasks activeFilter contextFilter,
  let shown :=
    filter (fun t =>
              status_eqb (Task.status t) activeFilter
              && match given contextFilter with
                 | Some c => is_string (Task.context t) c
                 | None => true
                 end) tasks in
  TasksScreen.filteredTasks tasks activeFilter contextFilter
  = TasksScreen.withPriority (Some high) shown
    ++ TasksScreen.withPriority (Some medium) shown
    ++ TasksScreen.withPriority (Some low) shown
    ++ TasksScreen.withPriority None shown.
Proof.
  intros tasks activeFilter contextFilter shown.
  unfold TasksScreen.filteredTasks. rewrite sort_ranked.
  replace (match given contextFilter with
           | Some c => filter (fun t => is_string (Task.context t) c)
                         (filter (fun t => status_eqb (Task.status t) activeFilter)
                                 tasks)
           | None => filter (fun t => status_eqb (Task.status t) activeFilter) tasks
           end) with shown; [reflexivity|].
  subst shown. destruct (given contextFilter) as [c|].
  - induction tasks as [|t tasks IH]; [reflexivity|].
    cbn [filter]. destruct (status_eqb (Task.status t) activeFilter);
      cbn [andb filter]; [|exact IH].
    destruct (is_string (Task.context t) c); now rewrite IH.
  - apply filter_ext. intros t. now rewrite andb_true_r.
Qed.

End SortProperties.

(** ** The planner, and what a capture adds to the lists *)

Section ScreenProperties.

(** X29: on the planner, with today selected and in a zone with a fixed
    offset, the three lists of the day share no task: a task scheduled for
    today is neither among the overdue ones nor among those completed
    today. *)
Theorem X29_planner_lists_are_disjoint : forall h tz tasks t,
  (forall u b, LocalTZA (clock h) u b = tz) ->
  In t (Planner.todayTasks h tasks (newDate (clock h))) ->
  ~ In t (Planner.overdueTasks h tasks (newDate (clock h)))
  /\ ~ In t (Planner.completedTodayTasks h tasks (newDate (clock h))).
Proof.
  intros h tz tasks t Z I. unfold Planner.todayTasks in I.
  apply filter_In in I as [_ I].
  destruct (status_eqb (Task.status t) done) eqn:S; [discriminate|].
  destruct (given (Task.dueDate t)) as [s|] eqn:G; [|discriminate].
  split; intros O.
  - unfold Planner.overdueTasks in O.
    destruct (negb (Planner.isToday (clock h) (newDate (clock h))));
      [contradiction|].
    apply filter_In in O as [_ O]. rewrite S, G in O.
    unfold Planner.isSameDay in I.
    destruct (newDateOf h s) as [d|]; [|discriminate].
    unfold newDate in I. rewrite sameDateString in I. apply Z.eqb_eq in I.
    now rewrite (not_before_midnight _ tz d Z I) in O.
  - unfold Planner.completedTodayTasks in O.
    apply filter_In in O as [_ O]. now rewrite S in O.
Qed.

Lemma X29_witness :
  In datedTask
     (Planner.todayTasks (hostOf envNoonUTC) (someTasks ++ [datedTask])
        (newDate envNoonUTC))
  /\ ~ In datedTask
        (Planner.overdueTasks (hostOf envNoonUTC) (someTasks ++ [datedTask])
           (newDate envNoonUTC)).
Proof.
  assert (I : In datedTask
                (Planner.todayTasks (hostOf envNoonUTC) (someTasks ++ [datedTask])
                   (newDate envNoonUTC)))
    by (vm_compute; now left).
  split; [exact I|].
  exact (proj1 (X29_planner_lists_are_disjoint (hostOf envNoonUTC) 0
                  (someTasks ++ [datedTask]) datedTask (fun _ _ => eq_refl) I)).
Defined.

(** X30: a task captured in the inbox is the last of its bucket, and of its
    project when it has one; it adds one to the total of the store and to
    the tasks added this week of the review. *)
Theorem X30_captured_task_is_listed :
  forall h newId projects input tasks tasks',
  (0 <= now (clock h))%Z -> validTime (now (clock h)) = true ->
  handleAddTask h newId projects input tasks = Normal tasks' ->
  exists t,
    tasks' = tasks ++ [t]
    /\ getTasksByStatus tasks' (Task.status t)
       = getTasksByStatus tasks (Task.status t) ++ [t]
    /\ (forall id, Task.projectId t = Some id ->
        getTasksByProject tasks' id = getTasksByProject tasks id ++ [t])
    /\ Stats.total (stats h tasks') = S (Stats.total (stats h tasks))
    /\ Review.addedThisWeek h tasks' = S (Review.addedThisWeek h tasks).
Proof.
  intros h newId projects input tasks tasks' P V. unfold handleAddTask.
  destruct (parseTaskInput (clock h) input) as [p|e]; [|discriminate].
  cbn [bind]. intros [= <-]. unfold addTask. cbn [snd].
  eexists. split; [reflexivity|].
  unfold getTasksByStatus, getTasksByProject, Review.addedThisWeek, stats.
  cbn [Stats.total]. rewrite !filter_app, !length_app. cbn [filter List.length].
  rewrite status_eqb_refl. cbn [Task.createdAt Task.projectId].
  rewrite timestamp_isoString, (newDateOf_isoString h _ V).
  assert (W : num_ge (Some (now (clock h))) (Review.weekAgo (clock h)) = true).
  { unfold Review.weekAgo, newDate. rewrite TimeClip_valid.
    - cbn [num_ge num_le]. apply Z.leb_le. lia.
    - unfold validTime in *. apply Z.leb_le in V. apply Z.leb_le. lia. }
  rewrite W. cbn [List.length]. repeat split; try lia.
  intros id E. rewrite filter_app. cbn [filter Task.projectId]. rewrite E.
  cbn [is_string]. now rewrite eqb_refl.
Qed.

Lemma X30_witness :
  handleAddTask (hostOf envNoonUTC) (str "d4") [someProject]
    (str "book flights pro:vacation") someTasks
  = Normal (someTasks ++ [flightsTask])
  /\ getTasksByProject (someTasks ++ [flightsTask]) (str "p1") = [flightsTask].
Proof.
  assert (E : handleAddTask (hostOf envNoonUTC) (str "d4") [someProject]
                (str "book flights pro:vacation") someTasks
              = Normal (someTasks ++ [flightsTask]))
    by (vm_compute; reflexivity).
  split; [exact E|].
  destruct (X30_captured_task_is_listed (hostOf envNoonUTC) (str "d4")
              [someProject] (str "book flights pro:vacation") someTasks
              (someTasks ++ [flightsTask])) as (t & L & _ & G & _);
    [discriminate | reflexivity | exact E | ].
  apply app_inv_head in L. injection L as <-.
  exact (G (str "p1") eq_refl).
Defined.

End ScreenProperties.
